(** * Fitness Fatigue Tracker: the fatigue model of [App]

    A shallow embedding of the fatigue accumulation and decay logic of the
    tracker's root component, and of its history handlers.

    JavaScript numbers are IEEE 754 binary64 values.  They are modelled by
    the standard library's [spec_float] at precision 53 and maximal exponent
    1024, with the library's own [SFadd], [SFsub], [SFmul], [SFdiv] and
    [SFcompare]; nothing is idealised to real or rational arithmetic.

    The file has three parts: the definitions (the numbers, the program, the
    predicates the properties are stated with); the facts about binary64
    arithmetic the proofs need (results are canonical, signs, exact cases);
    and the properties of the program. *)

From Stdlib Require Import ZArith Lia Bool List String.
From Stdlib Require Import SpecFloat.
From stdpp Require Import base option list gmap strings.

Local Open Scope Z_scope.

(** * Definitions *)

(** ** Binary64 numbers and the arithmetic of JavaScript *)

Module Float64.

Definition prec : Z := 53.
Definition emax : Z := 1024.

Abbreviation number := spec_float.

(** [- ebias] is the exponent of the least positive binary64 value,
    [2 ^ -1074]. *)
Definition ebias : Z := 1074.

Definition fexp64 (e : Z) : Z := Z.max (e - 53) (- ebias).

(** The last step of every rounding, used to state what [binary_round] and
    [binary_round_aux] return: the rounded mantissa [m] at exponent [e],
    renormalised when rounding carried into bit 53, or the overflow to
    infinity. *)
Definition finalize (s : bool) (m e : Z) : number :=
  if m =? 0 then S754_zero s
  else if m =? 2 ^ 53 then
    if e + 1 <=? 971 then S754_finite s (Z.to_pos (2 ^ 52)) (e + 1)
    else S754_infinity s
  else if e <=? 971 then S754_finite s (Z.to_pos m) e
  else S754_infinity s.

(** *** Values and canonical representations *)

Definition valid64 (x : number) : bool := valid_binary prec emax x.

(** The value of a finite number, counted in units of [2 ^ -1074] (every
    binary64 value is an integer multiple of that unit); zero otherwise. *)
Definition ulps (x : number) : Z :=
  match x with
  | S754_finite s m e => cond_Zopp s (Z.pos m * 2 ^ (e + ebias))
  | _ => 0
  end.

(** The value of the integer [n] in the same unit. *)
Definition units (n : Z) : Z := n * 2 ^ ebias.

(** *** Classes of numbers *)

(** [signed s x]: [x] is a number (not NaN) whose sign bit is [s]. *)
Definition signed (s : bool) (x : number) : Prop :=
  match x with
  | S754_nan => False
  | S754_zero s' | S754_infinity s' | S754_finite s' _ _ => s' = s
  end.

(** Finite and not negative: a zero of either sign or a positive finite
    number. *)
Definition finite_nonneg (x : number) : Prop :=
  match x with
  | S754_zero _ | S754_finite false _ _ => True
  | _ => False
  end.

(** *** The arithmetic of JavaScript numbers *)

Definition fadd : number -> number -> number := SFadd prec emax.
Definition fsub : number -> number -> number := SFsub prec emax.
Definition fmul : number -> number -> number := SFmul prec emax.

(** Numeric literals: an integer literal, and a decimal literal [n/d] (the
    division is correctly rounded, so [decimal 7 10] is the binary64 value
    nearest to 0.7). *)
Definition number_of_Z (n : Z) : number := binary_normalize prec emax n 0 false.

Definition decimal (n d : Z) : number :=
  SFdiv prec emax (number_of_Z n) (number_of_Z d).

Definition NaN : number := S754_nan.

(** [x > y] *)
Definition gtb (x y : number) : bool := SFltb y x.

(** [Math.min] and [Math.max]: NaN if either argument is NaN, and [-0] is
    taken to be smaller than [+0]. *)
Definition Math_min (x y : number) : number :=
  match SFcompare x y with
  | None => NaN
  | Some Lt => x
  | Some Gt => y
  | Some Eq =>
      match x, y with
      | S754_zero sx, S754_zero sy => S754_zero (sx || sy)
      | _, _ => x
      end
  end.

Definition Math_max (x y : number) : number :=
  match SFcompare x y with
  | None => NaN
  | Some Lt => y
  | Some Gt => x
  | Some Eq =>
      match x, y with
      | S754_zero sx, S754_zero sy => S754_zero (sx && sy)
      | _, _ => x
      end
  end.

(** [Math.round]: the nearest integer, ties towards +infinity; a result of
    zero keeps the sign of the argument.  The integer [floor (x + 1/2)] is
    computed exactly. *)
Definition Math_round (x : number) : number :=
  match x with
  | S754_finite s m e =>
      if 0 <=? e then x
      else
        let n := (cond_Zopp s (2 * Z.pos m) + 2 ^ (- e)) / 2 ^ (- e + 1) in
        binary_normalize prec emax n 0 s
  | _ => x
  end.

Definition zero : number := Eval vm_compute in number_of_Z 0.
Definition one : number := Eval vm_compute in number_of_Z 1.
Definition five : number := Eval vm_compute in number_of_Z 5.
Definition hundred : number := Eval vm_compute in number_of_Z 100.

(** [nonneg x]: [0 <= x] holds, that is, [x] is a zero of either sign, a
    positive finite number or +infinity. *)
Definition nonneg (x : number) : Prop :=
  match x with
  | S754_zero _ => True
  | S754_finite s _ _ | S754_infinity s => s = false
  | S754_nan => False
  end.

(** A nonzero finite number. *)
Definition finite_number (x : number) : Prop :=
  match x with S754_finite _ _ _ => True | _ => False end.

End Float64.

Import Float64.

(** ** The program *)

(** *** Types *)

Inductive MuscleKey :=
  | Chest | Back | Shoulders | Biceps | Triceps | Quads
  | Hamstrings | Glutes | Calves | Core | Cardio.

#[global] Instance MuscleKey_eq_dec : EqDecision MuscleKey.
Proof. solve_decision. Defined.

Definition MuscleKey_index (k : MuscleKey) : nat :=
  match k with
  | Chest => 0 | Back => 1 | Shoulders => 2 | Biceps => 3 | Triceps => 4
  | Quads => 5 | Hamstrings => 6 | Glutes => 7 | Calves => 8 | Core => 9
  | Cardio => 10
  end%nat.

Definition MuscleKey_of_index (n : nat) : option MuscleKey :=
  match n with
  | 0 => Some Chest | 1 => Some Back | 2 => Some Shoulders | 3 => Some Biceps
  | 4 => Some Triceps | 5 => Some Quads | 6 => Some Hamstrings
  | 7 => Some Glutes | 8 => Some Calves | 9 => Some Core | 10 => Some Cardio
  | _ => None
  end%nat.

#[global] Instance MuscleKey_countable : Countable MuscleKey.
Proof.
  apply (inj_countable MuscleKey_index MuscleKey_of_index).
  intros []; reflexivity.
Defined.

Record Muscle := { key : MuscleKey; label : string }.

Record Session := {
  id : string;
  date : string;
  muscle : MuscleKey;
  minutes : number;
  load : number;
  notes : option string;
}.

(** [Record<MuscleKey, number>]: an object with one property per key.  A
    property that is absent reads as [undefined], which arithmetic converts
    to NaN. *)
Abbreviation FatigueMap := (gmap MuscleKey number).

Definition get (m : FatigueMap) (k : MuscleKey) : number :=
  match m !! k with Some v => v | None => NaN end.

(** *** Constants *)

Definition MUSCLES : list Muscle := [
  {| key := Chest; label := "Pectorales" |};
  {| key := Back; label := "Espalda" |};
  {| key := Shoulders; label := "Hombros" |};
  {| key := Biceps; label := "Bíceps" |};
  {| key := Triceps; label := "Tríceps" |};
  {| key := Quads; label := "Cuádriceps" |};
  {| key := Hamstrings; label := "Isquiotibiales" |};
  {| key := Glutes; label := "Glúteos" |};
  {| key := Calves; label := "Gemelos" |};
  {| key := Core; label := "Core" |};
  {| key := Cardio; label := "Cardio" |}
].

Definition DECAY_PER_DAY : number := Eval vm_compute in number_of_Z 18.
Definition LOAD_FACTOR : number := Eval vm_compute in decimal 7 10.
Definition SESSION_BASE : number := Eval vm_compute in number_of_Z 4.

(** The literal [0.1] of the spillover. *)
Definition tenth : number := Eval vm_compute in decimal 1 10.

(** *** The fatigue model *)

Definition initFatigue : FatigueMap :=
  foldl (fun acc m => <[key m := zero]> acc) ∅ MUSCLES.

(** The updater passed to [setFatigue] on mount: every muscle of [MUSCLES]
    loses [rate * days] points, not below 0.  [prev] is read, a copy is
    written.  The program's rate is the constant [DECAY_PER_DAY] (see
    [decay]); it is a parameter here so that statements can range over
    rates. *)
Definition decayBy (rate days : number) (prev : FatigueMap) : FatigueMap :=
  let next := prev in
  foldl (fun next m =>
           <[key m := Math_max zero (fsub (get prev (key m)) (fmul rate days))]> next)
        next MUSCLES.

(** The effect runs the updater only [if (days > 0)]. *)
Definition decayIfDue (rate days : number) (fatigue : FatigueMap) : FatigueMap :=
  if gtb days zero then decayBy rate days fatigue else fatigue.

Definition decay : number -> FatigueMap -> FatigueMap := decayIfDue DECAY_PER_DAY.

(** The table [neighbors] of [addSession]; it is a
    [Partial<Record<MuscleKey, MuscleKey[]>>], read with [|| []]. *)
Definition neighbors (k : MuscleKey) : option (list MuscleKey) :=
  match k with
  | Chest => Some [Triceps; Shoulders]
  | Back => Some [Biceps; Shoulders]
  | Shoulders => Some [Chest; Back]
  | Biceps => Some [Back]
  | Triceps => Some [Chest]
  | Quads => Some [Glutes; Hamstrings]
  | Hamstrings => Some [Glutes; Quads]
  | Glutes => Some [Quads; Hamstrings]
  | Calves => Some [Quads]
  | Core => Some [Back; Chest]
  | Cardio => Some [Calves; Quads]
  end.

Definition synergists (k : MuscleKey) : list MuscleKey :=
  match neighbors k with Some l => l | None => [] end.

Definition sessionDelta (session : Session) : number :=
  fadd SESSION_BASE (fmul (fmul LOAD_FACTOR (load session)) (minutes session)).

Definition sessionSpill (session : Session) : number :=
  Math_round (fmul (sessionDelta session) tenth).

(** The updater passed to [setFatigue] by [addSession]. *)
Definition applySession (session : Session) (prev : FatigueMap) : FatigueMap :=
  let next := prev in
  let delta := sessionDelta session in
  let next :=
    <[muscle session := Math_min hundred (fadd (get next (muscle session)) delta)]> next in
  let spill := sessionSpill session in
  foldl (fun next n => <[n := Math_min hundred (fadd (get next n) spill)]> next)
        next (synergists (muscle session)).

(** *** The component state and its handlers *)

Record AppState := {
  fatigue : FatigueMap;
  history : list Session;
  lastOpenISO : option string;
}.

Module Form.
Record t := {
  muscle : MuscleKey;
  minutes : number;
  load : number;
  notes : string;
}.
End Form.

(** A string holds the UTF-8 encoding of the JavaScript string (as the
    labels of [MUSCLES] do), so a character is one to four bytes. *)

(** The code points [String.prototype.trim] strips: the WhiteSpace code
    points (TAB, VT, FF, SP, NBSP, ZWNBSP and the space separators) and the
    LineTerminator code points (LF, CR, LS, PS) of ECMAScript. *)
Definition is_space (cp : N) : bool :=
  match cp with
  | 9 | 10 | 11 | 12 | 13 | 32 | 160 | 5760
  | 8232 | 8233 | 8239 | 8287 | 12288 | 65279 => true
  | _ => (8192 <=? cp) && (cp <=? 8202)
  end%N.

Definition continuation (b : Ascii.ascii) : bool :=
  ((128 <=? Ascii.N_of_ascii b) && (Ascii.N_of_ascii b <? 192))%N.

(** A white-space code point encoded in one, two or three bytes. *)
Definition space1 (a : Ascii.ascii) : bool :=
  ((Ascii.N_of_ascii a <? 128) && is_space (Ascii.N_of_ascii a))%N.

Definition space2 (a b : Ascii.ascii) : bool :=
  ((192 <=? Ascii.N_of_ascii a) && (Ascii.N_of_ascii a <? 224) && continuation b
   && is_space ((Ascii.N_of_ascii a - 192) * 64 + (Ascii.N_of_ascii b - 128)))%N.

Definition space3 (a b c : Ascii.ascii) : bool :=
  ((224 <=? Ascii.N_of_ascii a) && (Ascii.N_of_ascii a <? 240)
   && continuation b && continuation c
   && is_space ((Ascii.N_of_ascii a - 224) * 4096 + (Ascii.N_of_ascii b - 128) * 64
                + (Ascii.N_of_ascii c - 128)))%N.

(** The rest of a string after a leading white-space character, if it
    begins with one. *)
Definition space_prefix (s : string) : option string :=
  match s with
  | String a r1 =>
      if space1 a then Some r1
      else match r1 with
           | String b r2 =>
               if space2 a b then Some r2
               else match r2 with
                    | String c r3 => if space3 a b c then Some r3 else None
                    | EmptyString => None
                    end
           | EmptyString => None
           end
  | EmptyString => None
  end.

Fixpoint trim_start (s : string) : string :=
  match s with
  | String a r1 =>
      if space1 a then trim_start r1
      else match r1 with
           | String b r2 =>
               if space2 a b then trim_start r2
               else match r2 with
                    | String c r3 => if space3 a b c then trim_start r3 else s
                    | EmptyString => s
                    end
           | EmptyString => s
           end
  | EmptyString => EmptyString
  end.

(** Strings made of white space only. *)
Fixpoint all_space (s : string) : bool :=
  match s with
  | String a r1 =>
      if space1 a then all_space r1
      else match r1 with
           | String b r2 =>
               if space2 a b then all_space r2
               else match r2 with
                    | String c r3 => space3 a b c && all_space r3
                    | EmptyString => false
                    end
           | EmptyString => false
           end
  | EmptyString => true
  end.

Fixpoint trim_end (s : string) : string :=
  match s with
  | String a r => if all_space s then EmptyString else String a (trim_end r)
  | EmptyString => EmptyString
  end.

(** [String.prototype.trim] *)
Definition trim (s : string) : string := trim_end (trim_start s).

(** [notes.trim() || undefined] *)
Definition notes_of (s : string) : option string :=
  let t := trim s in if String.eqb t "" then None else Some t.

(** The session object [addSession] builds from the form; [uid] and [now]
    stand for the results of [uid()] and [new Date().toISOString()]. *)
Definition newSession (uid now : string) (form : Form.t) : Session :=
  {| id := uid;
     date := now;
     muscle := Form.muscle form;
     minutes := Math_max one (Math_round (Form.minutes form));
     load := Math_min five (Math_max one (Math_round (Form.load form)));
     notes := notes_of (Form.notes form) |}.

Definition addSession (uid now : string) (form : Form.t) (st : AppState) : AppState :=
  let session := newSession uid now form in
  {| fatigue := applySession session (fatigue st);
     history := session :: history st;
     lastOpenISO := lastOpenISO st |}.

(** [confirmed] is the answer to the confirmation dialog. *)
Definition resetAll (confirmed : bool) (st : AppState) : AppState :=
  if confirmed then
    {| fatigue := initFatigue; history := []; lastOpenISO := lastOpenISO st |}
  else st.

(** The updater [removeSession] passes to [setHistory]. *)
Definition withoutSession (i : string) (prev : list Session) : list Session :=
  filter (fun h => id h <> i) prev.

Definition removeSession (i : string) (st : AppState) : AppState :=
  {| fatigue := fatigue st;
     history := withoutSession i (history st);
     lastOpenISO := lastOpenISO st |}.

(** The mount effect; [days] stands for the whole days between
    [lastOpenISO] and [nowISO]. *)
Definition onOpen (nowISO : string) (days : number) (st : AppState) : AppState :=
  match lastOpenISO st with
  | None =>
      {| fatigue := fatigue st; history := history st; lastOpenISO := Some nowISO |}
  | Some _ =>
      {| fatigue := decay days (fatigue st);
         history := history st;
         lastOpenISO := Some nowISO |}
  end.

(** [totals]: the number of sessions and the sum of their minutes. *)
Definition totals (st : AppState) : nat * number :=
  (length (history st), foldl (fun s h => fadd s (minutes h)) zero (history st)).

(** *** Helpers and rendering *)

Definition clamp01 (x : number) : number := Math_min one (Math_max zero x).

Definition thirty_four : number := Eval vm_compute in number_of_Z 34.
Definition sixty_seven : number := Eval vm_compute in number_of_Z 67.

(** 0..100 to green, amber, red, as utility class names. *)
Definition pctToColor (pct : number) : string :=
  if SFltb pct thirty_four then "bg-green-500"
  else if SFltb pct sixty_seven then "bg-amber-500"
  else "bg-red-500".

(** [const pct = Math.round(fatigue[m.key])] of the fatigue board; the bar
    is [pct] per cent wide and has the colour [pctToColor(pct)]. *)
Definition boardPct (fatigue : FatigueMap) (k : MuscleKey) : number :=
  Math_round (get fatigue k).

Definition boardColor (fatigue : FatigueMap) (k : MuscleKey) : string :=
  pctToColor (boardPct fatigue k).

(** [MUSCLES.find((m) => m.key === k)?.label] of the history list. *)
Definition findMuscle (k : MuscleKey) : option Muscle :=
  List.find (fun m => bool_decide (key m = k)) MUSCLES.

Definition labelOf (k : MuscleKey) : option string :=
  option_map label (findMuscle k).

(** *** The days since the last opening *)

Definition fdiv : number -> number -> number := SFdiv prec emax.

(** [Math.floor]: the largest integer not above [x]; NaN, the infinities
    and the zeros are returned as they are. *)
Definition Math_floor (x : number) : number :=
  match x with
  | S754_finite s m e =>
      if 0 <=? e then x
      else binary_normalize prec emax (cond_Zopp s (Z.pos m) / 2 ^ (- e)) 0 s
  | _ => x
  end.

(** [1000 * 60 * 60 * 24] *)
Definition msPerDay : number :=
  Eval vm_compute in
    fmul (fmul (fmul (number_of_Z 1000) (number_of_Z 60)) (number_of_Z 60))
         (number_of_Z 24).

(** The mantissa of [msPerDay], which is [86400000 * 2 ^ 26] at exponent
    [-26]. *)
Definition msPerDay_mantissa : Z := 5798205849600000.

(** [Math.floor((now.getTime() - then.getTime()) / (1000 * 60 * 60 * 24))];
    [nowMs] and [thenMs] stand for the two time values. *)
Definition daysSince (nowMs thenMs : number) : number :=
  Math_floor (fdiv (fsub nowMs thenMs) msPerDay).

(** The mount effect together with its computation of [days]; [thenMs] is
    the time value of [new Date(lastOpenISO)], NaN for a string that is not
    a date. *)
Definition mountEffect (nowISO : string) (nowMs thenMs : number)
    (st : AppState) : AppState :=
  onOpen nowISO (daysSince nowMs thenMs) st.

(** *** Invariants *)

(** A score is a canonical binary64 value between 0 and 100. *)
Definition score_ok (v : number) : Prop :=
  valid64 v = true /\ SFleb zero v = true /\ SFleb v hundred = true.

(** A fatigue state has a score for each of the eleven groups, all of them
    in range. *)
Definition well_formed (s : FatigueMap) : Prop :=
  forall g : MuscleKey, exists v, s !! g = Some v /\ score_ok v.

(** The comparisons alone: every score reads between 0 and 100. *)
Definition in_range (s : FatigueMap) : Prop :=
  forall g : MuscleKey,
    SFleb zero (get s g) = true /\ SFleb (get s g) hundred = true.

(** A stored session: [minutes] is a whole number from 1 on, [load] one of
    1, 2, 3, 4, 5. *)
Definition valid_session (session : Session) : Prop :=
  (exists n : Z, 1 <= n /\ minutes session = number_of_Z n) /\
  (exists l : Z, 1 <= l <= 5 /\ load session = number_of_Z l).

(** Fatigue states the component can hold: the initial one (also the one
    after [resetAll]), and those obtained by the decay on mount for any whole
    number of elapsed days, or by logging a valid session. *)
Inductive reachable : FatigueMap -> Prop :=
  | reach_init : reachable initFatigue
  | reach_decay (n : Z) (s : FatigueMap) :
      reachable s -> reachable (decay (number_of_Z n) s)
  | reach_session (session : Session) (s : FatigueMap) :
      reachable s -> valid_session session -> reachable (applySession session s).

(** States of the component: from the initial state by the mount effect
    (any whole number of days), by logging from a form whose numeric fields
    hold whole numbers, by deleting a session and by resetting. *)
Inductive app_reachable : AppState -> Prop :=
  | app_init :
      app_reachable {| fatigue := initFatigue; history := []; lastOpenISO := None |}
  | app_open (nowISO : string) (n : Z) (st : AppState) :
      app_reachable st -> app_reachable (onOpen nowISO (number_of_Z n) st)
  | app_add (uid now : string) (form : Form.t) (a b : Z) (st : AppState) :
      app_reachable st ->
      - 2 ^ 53 < a < 2 ^ 53 -> - 2 ^ 53 < b < 2 ^ 53 ->
      Form.minutes form = number_of_Z a -> Form.load form = number_of_Z b ->
      app_reachable (addSession uid now form st)
  | app_remove (i : string) (st : AppState) :
      app_reachable st -> app_reachable (removeSession i st)
  | app_reset (confirmed : bool) (st : AppState) :
      app_reachable st -> app_reachable (resetAll confirmed st).

(** *** Sample inputs *)

Definition chest45 : Session :=
  {| id := "k3x9";
     date := "2024-05-01T08:00:00.000Z";
     muscle := Chest;
     minutes := number_of_Z 45;
     load := number_of_Z 3;
     notes := None |}.

(** A state with Chest at 50 and every other group at 0. *)
Definition chest50 : FatigueMap := <[Chest := number_of_Z 50]> initFatigue.

Definition back20 : Session :=
  {| id := "p7q2";
     date := "2024-05-02T18:30:00.000Z";
     muscle := Back;
     minutes := number_of_Z 20;
     load := number_of_Z 2;
     notes := Some "remo"%string |}.

(** The form after [.5] is typed into the minutes field: [onChange] stores
    [parseInt(".5", 10)], which is NaN. *)
Definition nanMinutesForm : Form.t :=
  {| Form.muscle := Chest;
     Form.minutes := NaN;
     Form.load := number_of_Z 3;
     Form.notes := "" |}.

Definition chest310 : Session :=
  {| id := "m4t1";
     date := "2024-05-03T07:00:00.000Z";
     muscle := Chest;
     minutes := number_of_Z 310;
     load := number_of_Z 3;
     notes := None |}.

Definition quads10 : Session :=
  {| id := "q1a0";
     date := "2024-05-04T07:00:00.000Z";
     muscle := Quads;
     minutes := number_of_Z 10;
     load := number_of_Z 3;
     notes := None |}.

Definition glutes45 : Session :=
  {| id := "g4s5";
     date := "2024-05-04T08:00:00.000Z";
     muscle := Glutes;
     minutes := number_of_Z 45;
     load := number_of_Z 3;
     notes := None |}.

(** The spillover as the specification words it, in exact arithmetic:
    [round(0.1 * (4 + 0.7 * load * minutes))] for whole [load] and
    [minutes], a half rounded upwards.  The value before rounding is
    [(40 + 7 * load * minutes) / 100]. *)
Definition spill_in_reals (load minutes : Z) : Z :=
  (2 * (40 + 7 * load * minutes) + 100) / 200.

(** * Facts about binary64 arithmetic *)

Module Float64Facts.

Lemma fexp_fexp64 e : fexp prec emax e = fexp64 e.
Proof. reflexivity. Qed.

(** *** Number of binary digits *)

Lemma digits2_pos_size p : digits2_pos p = Pos.size p.
Proof. induction p; simpl; congruence. Qed.

Lemma digits2_log2 p : Z.pos (digits2_pos p) = Z.log2 (Z.pos p) + 1.
Proof.
  rewrite digits2_pos_size.
  destruct p as [p|p|]; simpl; try reflexivity; lia.
Qed.

Lemma Zdigits2_log2 m : 0 < m -> Zdigits2 m = Z.log2 m + 1.
Proof. destruct m; try lia. intros _. apply digits2_log2. Qed.

Lemma digits_bounds m :
  0 < m -> 2 ^ (Zdigits2 m - 1) <= m < 2 ^ Zdigits2 m.
Proof.
  intros Hm. rewrite Zdigits2_log2 by assumption.
  replace (Z.log2 m + 1 - 1) with (Z.log2 m) by lia.
  replace (Z.log2 m + 1) with (Z.succ (Z.log2 m)) by lia.
  apply Z.log2_spec; assumption.
Qed.

Lemma digits_unique m d :
  0 < m -> 2 ^ (d - 1) <= m < 2 ^ d -> Zdigits2 m = d.
Proof.
  intros Hm [Hlo Hhi]. rewrite Zdigits2_log2 by assumption.
  assert (0 < d).
  { destruct (Z_lt_le_dec 0 d) as [?|Hd]; [assumption|].
    destruct (Z.eq_dec d 0) as [->|Hne].
    - simpl in Hhi. lia.
    - rewrite (Z.pow_neg_r 2 d) in Hhi by lia. lia. }
  assert (Z.log2 m = d - 1); [|lia].
  apply Z.log2_unique; [lia|].
  replace (Z.succ (d - 1)) with d by lia. split; assumption.
Qed.

Lemma digits_pos m : 0 < m -> 0 < Zdigits2 m.
Proof.
  intros Hm. rewrite Zdigits2_log2 by assumption.
  pose proof (Z.log2_nonneg m). lia.
Qed.

Lemma digits_le m n : 0 < m -> m <= n -> Zdigits2 m <= Zdigits2 n.
Proof.
  intros Hm Hmn. rewrite !Zdigits2_log2 by lia.
  pose proof (Z.log2_le_mono m n Hmn). lia.
Qed.

Lemma digits_shift m k :
  0 < m -> 0 <= k -> Zdigits2 (m * 2 ^ k) = Zdigits2 m + k.
Proof.
  intros Hm Hk.
  assert (0 < 2 ^ k) by (apply Z.pow_pos_nonneg; lia).
  apply digits_unique; [nia|].
  destruct (digits_bounds m Hm) as [Hlo Hhi].
  pose proof (digits_pos m Hm).
  replace (Zdigits2 m + k - 1) with ((Zdigits2 m - 1) + k) by lia.
  rewrite !Z.pow_add_r by lia. split; nia.
Qed.

(** *** Shifting right *)

Lemma shr_1_m mrs : 0 <= shr_m mrs -> shr_m (shr_1 mrs) = shr_m mrs / 2.
Proof.
  destruct mrs as [m r s]. simpl. intros Hm.
  destruct m as [|p|p]; [reflexivity| |lia].
  destruct p as [p|p|]; simpl shr_m.
  - rewrite (Pos2Z.inj_xI p).
    apply Z.div_unique with (r := 1); lia.
  - rewrite (Pos2Z.inj_xO p).
    apply Z.div_unique with (r := 0); lia.
  - reflexivity.
Qed.

Lemma pow2_xO p : 2 ^ Z.pos p~0 = 2 ^ Z.pos p * 2 ^ Z.pos p.
Proof.
  rewrite (Pos2Z.inj_xO p).
  replace (2 * Z.pos p) with (Z.pos p + Z.pos p) by lia.
  apply Z.pow_add_r; lia.
Qed.

Lemma pow2_xI p : 2 ^ Z.pos p~1 = 2 * (2 ^ Z.pos p * 2 ^ Z.pos p).
Proof.
  rewrite (Pos2Z.inj_xI p).
  replace (2 * Z.pos p + 1) with (1 + (Z.pos p + Z.pos p)) by lia.
  rewrite (Z.pow_add_r 2 1) by lia.
  rewrite (Z.pow_add_r 2 (Z.pos p)) by lia. reflexivity.
Qed.

Lemma pow2_pos k : 0 <= k -> 0 < 2 ^ k.
Proof. intros. apply Z.pow_pos_nonneg; lia. Qed.

Lemma iter_shr_m p : forall mrs,
  0 <= shr_m mrs ->
  shr_m (SpecFloat.iter_pos shr_1 p mrs) = shr_m mrs / 2 ^ Z.pos p.
Proof.
  assert (Hnn : forall mrs, 0 <= shr_m mrs -> 0 <= shr_m (shr_1 mrs)).
  { intros mrs H. rewrite shr_1_m by assumption. apply Z.div_pos; lia. }
  induction p as [p IH|p IH|]; intros mrs Hm; cbn [SpecFloat.iter_pos].
  - pose proof (pow2_pos (Z.pos p) ltac:(lia)).
    rewrite IH.
    2:{ rewrite IH by auto. apply Z.div_pos; auto. }
    rewrite IH by auto. rewrite shr_1_m by assumption.
    rewrite pow2_xI, !Z.div_div by lia. reflexivity.
  - pose proof (pow2_pos (Z.pos p) ltac:(lia)).
    rewrite IH.
    2:{ rewrite IH by auto. apply Z.div_pos; auto. }
    rewrite IH by auto.
    rewrite pow2_xO, !Z.div_div by lia. reflexivity.
  - rewrite shr_1_m by assumption. reflexivity.
Qed.

Lemma shr_1_even m :
  0 <= m -> (2 | m) ->
  shr_1 (Build_shr_record m false false) = Build_shr_record (m / 2) false false.
Proof.
  intros Hm [q Hq]. subst m. rewrite Z.div_mul by lia.
  rewrite (Z.mul_comm q 2) in *.
  destruct q as [|q|q]; simpl; try reflexivity; lia.
Qed.

Lemma iter_shr_exact p : forall m,
  0 <= m -> (2 ^ Z.pos p | m) ->
  SpecFloat.iter_pos shr_1 p (Build_shr_record m false false)
  = Build_shr_record (m / 2 ^ Z.pos p) false false.
Proof.
  induction p as [p IH|p IH|]; intros m Hm [q Hq]; cbn [SpecFloat.iter_pos].
  - pose proof (pow2_pos (Z.pos p) ltac:(lia)) as Hp.
    rewrite pow2_xI in *. subst m.
    assert (0 <= q) by nia.
    rewrite shr_1_even; [| nia | exists (q * (2 ^ Z.pos p * 2 ^ Z.pos p)); lia].
    replace (q * (2 * (2 ^ Z.pos p * 2 ^ Z.pos p)) / 2)
      with (q * 2 ^ Z.pos p * 2 ^ Z.pos p).
    2:{ apply Z.div_unique with (r := 0); lia. }
    rewrite IH; [| nia | exists (q * 2 ^ Z.pos p); lia].
    rewrite Z.div_mul by lia.
    rewrite IH; [| nia | exists q; lia].
    rewrite Z.div_mul by lia.
    f_equal. apply Z.div_unique with (r := 0); nia.
  - pose proof (pow2_pos (Z.pos p) ltac:(lia)) as Hp.
    rewrite pow2_xO in *. subst m.
    assert (0 <= q) by nia.
    replace (q * (2 ^ Z.pos p * 2 ^ Z.pos p))
      with (q * 2 ^ Z.pos p * 2 ^ Z.pos p) by lia.
    rewrite IH; [| nia | exists (q * 2 ^ Z.pos p); lia].
    rewrite Z.div_mul by lia.
    rewrite IH; [| nia | exists q; lia].
    rewrite Z.div_mul by lia.
    f_equal. apply Z.div_unique with (r := 0); nia.
  - change (2 ^ 1) with 2 in *.
    apply shr_1_even; [assumption | exists q; assumption].
Qed.

(** *** Rounding to nearest, ties to even *)

Lemma round_nearest_even_bounds m l :
  m <= round_nearest_even m l <= m + 1.
Proof.
  destruct l as [|[ | | ]]; simpl; try lia.
  destruct (Z.even m); lia.
Qed.

Lemma shr_record_of_loc_m m l : shr_m (shr_record_of_loc m l) = m.
Proof. destruct l as [|[ | | ]]; reflexivity. Qed.

Lemma digits_below m d : 0 < m -> 0 <= d -> m < 2 ^ d -> Zdigits2 m <= d.
Proof.
  intros Hm Hd Hlt.
  destruct (digits_bounds m Hm) as [Hlo _].
  destruct (Z_le_gt_dec (Zdigits2 m) d) as [?|Hgt]; [assumption|exfalso].
  assert (2 ^ d <= 2 ^ (Zdigits2 m - 1)) by (apply Z.pow_le_mono_r; lia).
  lia.
Qed.

Lemma shr_fexp_second m e :
  0 <= m <= 2 ^ 53 -> - ebias <= e -> (e = - ebias \/ 2 ^ 52 <= m) ->
  shr_fexp prec emax m e loc_Exact
  = if m =? 2 ^ 53 then (Build_shr_record (2 ^ 52) false false, e + 1)
    else (Build_shr_record m false false, e).
Proof.
  intros [Hlo Hhi] He Hn. unfold shr_fexp. rewrite fexp_fexp64.
  destruct (Z.eqb_spec m (2 ^ 53)) as [->|Hne].
  - replace (Zdigits2 (2 ^ 53)) with 54 by reflexivity.
    assert (E : fexp64 (54 + e) - e = 1) by (unfold fexp64, ebias in *; lia).
    rewrite E. reflexivity.
  - destruct (Z.eq_dec m 0) as [->|Hm0].
    + simpl Zdigits2.
      assert (E : fexp64 (0 + e) - e <= 0) by (unfold fexp64, ebias in *; lia).
      unfold shr. simpl shr_record_of_loc.
      destruct (fexp64 (0 + e) - e); try reflexivity; lia.
    + assert (Hd : Zdigits2 m <= 53) by (apply digits_below; lia).
      assert (Hz : fexp64 (Zdigits2 m + e) - e = 0).
      { unfold fexp64, ebias in *. destruct Hn as [->|Hn]; [lia|].
        assert (Zdigits2 m = 53) by (apply digits_unique; simpl; lia).
        lia. }
      rewrite Hz. reflexivity.
Qed.

(** Shape of every result of [binary_round_aux]: the mantissa is shifted
    right onto the canonical exponent, rounded up by at most one unit, and
    the result is [finalize]d.  When the shifted-out bits are all zero the
    rounding is the identity. *)
Lemma binary_round_aux_shape s m e l :
  0 < m -> e <= fexp64 (Zdigits2 m + e) ->
  let e1 := fexp64 (Zdigits2 m + e) in
  exists m2,
    m / 2 ^ (e1 - e) <= m2 <= m / 2 ^ (e1 - e) + 1 /\
    (l = loc_Exact -> (2 ^ (e1 - e) | m) -> m2 = m / 2 ^ (e1 - e)) /\
    m2 <= 2 ^ 53 /\ (e1 = - ebias \/ 2 ^ 52 <= m2) /\
    (- ebias <= Zdigits2 m + e - 53 -> 2 ^ 52 <= m2) /\
    binary_round_aux prec emax s m e l = finalize s m2 e1.
Proof.
  intros Hm He e1.
  set (k := e1 - e). assert (Hk : 0 <= k) by (unfold k, e1; lia).
  pose proof (pow2_pos k Hk) as Hpk.
  set (m1 := m / 2 ^ k).
  assert (Hm1 : 0 <= m1) by (apply Z.div_pos; lia).
  (* the first shift *)
  assert (Hshr : exists mrs, shr_fexp prec emax m e l = (mrs, e1) /\
            shr_m mrs = m1 /\
            (l = loc_Exact -> (2 ^ k | m) -> loc_of_shr_record mrs = loc_Exact)).
  { unfold shr_fexp. rewrite fexp_fexp64. fold e1. fold k.
    destruct k as [|p|p] eqn:Ek; [| |lia].
    - exists (shr_record_of_loc m l). split; [|split].
      + simpl. f_equal. unfold e1 in *. lia.
      + rewrite shr_record_of_loc_m. unfold m1. simpl. now rewrite Z.div_1_r.
      + intros -> _. reflexivity.
    - exists (SpecFloat.iter_pos shr_1 p (shr_record_of_loc m l)). split; [|split].
      + simpl. f_equal. lia.
      + rewrite iter_shr_m; rewrite shr_record_of_loc_m; [reflexivity | lia].
      + intros -> Hdiv. simpl shr_record_of_loc.
        rewrite iter_shr_exact by (assumption || lia). reflexivity. }
  destruct Hshr as (mrs & Hshr & Hmrs & Hexact).
  (* size of the shifted mantissa *)
  destruct (digits_bounds m Hm) as [Hdlo Hdhi].
  pose proof (digits_pos m Hm) as Hdpos.
  assert (Hsz : m1 < 2 ^ 53 /\ (e1 = - ebias \/ 2 ^ 52 <= m1) /\
                (- ebias <= Zdigits2 m + e - 53 -> 2 ^ 52 <= m1)).
  { unfold m1.
    destruct (Z_le_gt_dec (- ebias) (Zdigits2 m + e - 53)) as [Hnorm|Hsub].
    - assert (Hk' : k = Zdigits2 m - 53) by (unfold k, e1, fexp64; lia).
      assert (2 ^ 52 <= m / 2 ^ k).
      { apply Z.div_le_lower_bound; [lia|].
        rewrite <- Z.pow_add_r by lia.
        replace (k + 52) with (Zdigits2 m - 1) by lia. assumption. }
      split; [|split; [right|]; auto].
      apply Z.div_lt_upper_bound; [lia|].
      rewrite <- Z.pow_add_r by lia.
      replace (k + 53) with (Zdigits2 m) by lia. assumption.
    - assert (He1 : e1 = - ebias) by (unfold e1, fexp64; lia).
      split; [|split; [left; assumption | lia]].
      apply Z.div_lt_upper_bound; [lia|].
      rewrite <- Z.pow_add_r by lia.
      apply Z.lt_le_trans with (1 := Hdhi).
      apply Z.pow_le_mono_r; lia. }
  destruct Hsz as (Hlt & Hnorm & Hnorm').
  set (m2 := round_nearest_even m1 (loc_of_shr_record mrs)).
  pose proof (round_nearest_even_bounds m1 (loc_of_shr_record mrs)) as Hrne.
  fold m2 in Hrne.
  exists m2. split; [|split; [|split; [|split; [|split]]]].
  - exact Hrne.
  - intros Hl Hdiv. unfold m2. rewrite (Hexact Hl Hdiv). reflexivity.
  - lia.
  - destruct Hnorm; [left; assumption | right; lia].
  - intros Hn. specialize (Hnorm' Hn). lia.
  - unfold binary_round_aux. rewrite Hshr, Hmrs. fold m2.
    rewrite shr_fexp_second;
      [ | lia | unfold e1, fexp64; lia | destruct Hnorm; [left; assumption | right; lia] ].
    unfold finalize.
    destruct (Z.eqb_spec m2 (2 ^ 53)) as [E|E].
    + rewrite E. reflexivity.
    + destruct (Z.eqb_spec m2 0) as [->|E0]; [reflexivity|].
      simpl shr_m. destruct m2 as [|p2|p2]; try lia. reflexivity.
Qed.

(** *** Values and canonical representations *)

Lemma valid_finite_iff s m e :
  valid64 (S754_finite s m e) = true <->
  fexp64 (Zdigits2 (Z.pos m) + e) = e /\ e <= 971.
Proof.
  unfold valid64, valid_binary, bounded, canonical_mantissa.
  rewrite andb_true_iff, Z.eqb_eq, Z.leb_le, fexp_fexp64. reflexivity.
Qed.

Lemma valid_finite_bounds s m e :
  valid64 (S754_finite s m e) = true ->
  - ebias <= e <= 971 /\ Z.pos m < 2 ^ 53 /\
  (e = - ebias \/ 2 ^ 52 <= Z.pos m).
Proof.
  rewrite valid_finite_iff. intros [Hc He].
  destruct (digits_bounds (Z.pos m) ltac:(lia)) as [Hlo Hhi].
  pose proof (digits_pos (Z.pos m) ltac:(lia)) as Hd.
  unfold fexp64 in Hc.
  assert (Hd53 : Zdigits2 (Z.pos m) <= 53) by lia.
  split; [lia|]. split.
  - apply Z.lt_le_trans with (1 := Hhi). apply Z.pow_le_mono_r; lia.
  - destruct (Z.eq_dec e (- ebias)) as [?|Hne]; [left; assumption|right].
    assert (Zdigits2 (Z.pos m) = 53) by lia.
    replace 52 with (Zdigits2 (Z.pos m) - 1) by lia. assumption.
Qed.

Lemma finalize_cases s m e :
  0 <= m ->
  finalize s m e = S754_zero s \/ finalize s m e = S754_infinity s \/
  exists m' e', finalize s m e = S754_finite s m' e'.
Proof.
  intros Hm. unfold finalize.
  destruct (m =? 0); [left; reflexivity|].
  destruct (m =? 2 ^ 53).
  - destruct (e + 1 <=? 971); [right; right; eauto | right; left; reflexivity].
  - destruct (e <=? 971); [right; right; eauto | right; left; reflexivity].
Qed.

Lemma finalize_valid s m e :
  0 <= m <= 2 ^ 53 -> - ebias <= e -> (e = - ebias \/ 2 ^ 52 <= m) ->
  valid64 (finalize s m e) = true.
Proof.
  intros [Hlo Hhi] He Hn. unfold finalize.
  destruct (Z.eqb_spec m 0) as [|Hm0]; [reflexivity|].
  destruct (Z.eqb_spec m (2 ^ 53)) as [->|Hne].
  - destruct (Z.leb_spec (e + 1) 971) as [Hle|]; [|reflexivity].
    apply valid_finite_iff. split; [|assumption].
    replace (Zdigits2 (Z.pos (Z.to_pos (2 ^ 52)))) with 53 by reflexivity.
    unfold fexp64, ebias in *. lia.
  - destruct (Z.leb_spec e 971) as [Hle|]; [|reflexivity].
    apply valid_finite_iff. split; [|assumption].
    rewrite Z2Pos.id by lia.
    assert (Hd : Zdigits2 m <= 53) by (apply digits_below; lia).
    unfold fexp64, ebias in *. destruct Hn as [->|Hn]; [lia|].
    assert (Zdigits2 m = 53) by (apply digits_unique; simpl; lia).
    lia.
Qed.

Lemma finalize_ulps s m e :
  0 <= m <= 2 ^ 53 -> - ebias <= e ->
  finalize s m e = S754_infinity s \/
  ulps (finalize s m e) = cond_Zopp s (m * 2 ^ (e + ebias)).
Proof.
  intros [Hlo Hhi] He. unfold finalize.
  destruct (Z.eqb_spec m 0) as [->|Hm0].
  - right. simpl. destruct s; reflexivity.
  - destruct (Z.eqb_spec m (2 ^ 53)) as [->|Hne].
    + destruct (e + 1 <=? 971); [right|left; reflexivity].
      unfold ulps. f_equal.
      replace (e + 1 + ebias) with (1 + (e + ebias)) by lia.
      rewrite Z.pow_add_r by (unfold ebias in *; lia).
      change (Z.pos (Z.to_pos (2 ^ 52))) with (2 ^ 52).
      change (2 ^ 53) with (2 ^ 52 * 2 ^ 1). lia.
    + destruct (e <=? 971); [right|left; reflexivity].
      unfold ulps. rewrite Z2Pos.id by lia. reflexivity.
Qed.

(** *** Aligning mantissas to a smaller exponent *)

Lemma iter_xO m d : Z.pos (Pos.iter xO m d) = Z.pos m * 2 ^ Z.pos d.
Proof.
  induction d as [|d IH] using Pos.peano_ind.
  - simpl. lia.
  - rewrite Pos.iter_succ, Pos2Z.inj_xO, IH, Pos2Z.inj_succ.
    rewrite Z.pow_succ_r by lia. lia.
Qed.

Lemma shl_align_spec m e e' :
  let '(m', e'') := shl_align m e e' in
  e'' = Z.min e e' /\ Z.pos m' = Z.pos m * 2 ^ (e - e'').
Proof.
  unfold shl_align.
  destruct (e' - e) as [|d|d] eqn:E.
  - split; [lia|]. replace (e - e) with 0 by lia. simpl. lia.
  - split; [lia|]. replace (e - e) with 0 by lia. simpl. lia.
  - split; [lia|]. rewrite iter_xO. f_equal. f_equal. lia.
Qed.

Lemma shl_align_fst m e e' :
  e' <= e -> Z.pos (fst (shl_align m e e')) = Z.pos m * 2 ^ (e - e').
Proof.
  intros H. pose proof (shl_align_spec m e e') as Hs.
  destruct (shl_align m e e') as [m' e'']. simpl.
  destruct Hs as [-> ->]. f_equal. f_equal. lia.
Qed.

(** *** Rounding an integer mantissa: [binary_round] *)

Lemma binary_round_shape s m e :
  let d := Zdigits2 (Z.pos m) in
  let e1 := fexp64 (d + e) in
  exists m2,
    0 <= m2 <= 2 ^ 53 /\ (e1 = - ebias \/ 2 ^ 52 <= m2) /\
    (- ebias <= d + e - 53 -> 2 ^ 52 <= m2) /\
    (e1 <= e -> m2 = Z.pos m * 2 ^ (e - e1)) /\
    (e <= e1 -> (2 ^ (e1 - e) | Z.pos m) -> m2 = Z.pos m / 2 ^ (e1 - e)) /\
    binary_round prec emax s m e = finalize s m2 e1.
Proof.
  intros d e1. unfold binary_round. rewrite fexp_fexp64.
  change (Z.pos (digits2_pos m)) with (Zdigits2 (Z.pos m)). fold d. fold e1.
  pose proof (shl_align_spec m e e1) as Hal.
  destruct (shl_align m e e1) as [mz ez]. destruct Hal as [Hez Hmz].
  assert (Hdz : Zdigits2 (Z.pos mz) + ez = d + e).
  { rewrite Hmz, digits_shift by lia. fold d. lia. }
  destruct (binary_round_aux_shape s (Z.pos mz) ez loc_Exact) as
    (m2 & Hb & Hex & Hhi & Hn & Hn' & Hr); [lia | rewrite Hdz; fold e1; lia |].
  rewrite Hdz in *. fold e1 in Hb, Hex, Hn, Hr.
  pose proof (pow2_pos (e1 - ez) ltac:(lia)) as Hp.
  assert (0 <= Z.pos mz / 2 ^ (e1 - ez)) by (apply Z.div_pos; lia).
  exists m2. split; [lia|]. split; [assumption|]. split; [assumption|].
  split; [|split; [|assumption]].
  - intros Hle. assert (Hz : e1 - ez = 0) by lia.
    rewrite Hz in *. change (2 ^ 0) with 1 in *. rewrite Z.div_1_r in *.
    rewrite Hex; [| reflexivity | exists (Z.pos mz); lia].
    rewrite Hmz. f_equal. f_equal. lia.
  - intros Hle Hdiv. assert (Hz : e - ez = 0) by lia.
    rewrite Hz in *. change (2 ^ 0) with 1 in *. rewrite Z.mul_1_r in *.
    assert (Hee : ez = e) by lia. rewrite Hee, Hmz in *.
    apply Hex; [reflexivity | assumption].
Qed.

Lemma pow2_lt_inv a b : 0 <= b -> 2 ^ a < 2 ^ b -> a < b.
Proof.
  intros Hb H. destruct (Z_lt_le_dec a b) as [|Hle]; [assumption|exfalso].
  assert (2 ^ b <= 2 ^ a) by (apply Z.pow_le_mono_r; lia). lia.
Qed.

Lemma pow2_split a b : 0 <= a -> 0 <= b -> 2 ^ (a + b) = 2 ^ a * 2 ^ b.
Proof. intros. apply Z.pow_add_r; assumption. Qed.

Lemma pow2_divide a b : 0 <= a <= b -> (2 ^ a | 2 ^ b).
Proof.
  intros H. exists (2 ^ (b - a)). rewrite <- Z.pow_add_r by lia.
  f_equal. lia.
Qed.

(** Mantissa [m] at exponent [e] stands for [m * 2 ^ (e + ebias)] units. *)
Lemma digits_of_units m e :
  0 < m -> - ebias <= e ->
  Zdigits2 (m * 2 ^ (e + ebias)) = Zdigits2 m + e + ebias.
Proof. intros. rewrite digits_shift by lia. lia. Qed.

(** An integer mantissa whose value lies on a grid of step [2 ^ g] and is
    below [2 ^ (53 + g)] is represented without rounding. *)
Lemma exact_mantissa m e g m2 :
  0 < m -> - ebias <= e -> - ebias <= g ->
  (2 ^ (g + ebias) | m * 2 ^ (e + ebias)) ->
  m * 2 ^ (e + ebias) < 2 ^ (53 + g + ebias) ->
  let e1 := fexp64 (Zdigits2 m + e) in
  (e1 <= e -> m2 = m * 2 ^ (e - e1)) ->
  (e <= e1 -> (2 ^ (e1 - e) | m) -> m2 = m / 2 ^ (e1 - e)) ->
  m2 * 2 ^ (e1 + ebias) = m * 2 ^ (e + ebias).
Proof.
  intros Hm He Hg Hgrid Hlt e1 Hshl Hshr.
  assert (He1 : - ebias <= e1 <= g).
  { unfold e1, fexp64. split; [lia|].
    apply Z.max_lub; [|lia].
    destruct (digits_bounds (m * 2 ^ (e + ebias))) as [Hlo _].
    { pose proof (pow2_pos (e + ebias)). nia. }
    rewrite digits_of_units in Hlo by assumption.
    assert (Zdigits2 m + e + ebias - 1 < 53 + g + ebias); [|lia].
    apply pow2_lt_inv; [unfold ebias in *; lia | lia]. }
  destruct (Z_le_gt_dec e1 e) as [Hle|Hgt].
  - rewrite Hshl by assumption. rewrite <- Z.mul_assoc, <- Z.pow_add_r by lia.
    f_equal. f_equal. lia.
  - assert (Hdiv : (2 ^ (e1 - e) | m)).
    { destruct Hgrid as [q Hq].
      exists (q * 2 ^ (g - e1)).
      assert (Hpe : 0 < 2 ^ (e + ebias)) by (apply pow2_pos; lia).
      apply Z.mul_cancel_r with (p := 2 ^ (e + ebias)); [lia|].
      rewrite Hq. rewrite <- !Z.mul_assoc. f_equal.
      rewrite <- !Z.pow_add_r by lia. f_equal. lia. }
    rewrite Hshr by (assumption || lia).
    destruct Hdiv as [q Hq]. rewrite Hq.
    rewrite Z.div_mul by (pose proof (pow2_pos (e1 - e)); lia).
    rewrite <- !Z.mul_assoc, <- Z.pow_add_r by lia.
    f_equal. f_equal. lia.
Qed.

Lemma finalize_finite s m2 e1 :
  0 <= m2 <= 2 ^ 53 -> - ebias <= e1 -> (e1 = - ebias \/ 2 ^ 52 <= m2) ->
  m2 * 2 ^ (e1 + ebias) < 2 ^ (1024 + ebias) ->
  ulps (finalize s m2 e1) = cond_Zopp s (m2 * 2 ^ (e1 + ebias)).
Proof.
  intros Hb He Hn Hlt.
  destruct (finalize_ulps s m2 e1 Hb He) as [Hinf|Hu]; [exfalso|assumption].
  assert (Hover : e1 <= 971 /\ (m2 = 2 ^ 53 -> e1 + 1 <= 971)).
  { split.
    - destruct Hn as [->|Hn]; [unfold ebias; lia|].
      assert (2 ^ (52 + (e1 + ebias)) < 2 ^ (1024 + ebias)).
      { rewrite pow2_split by lia. nia. }
      apply pow2_lt_inv in H; unfold ebias in *; lia.
    - intros ->. rewrite <- Z.pow_add_r in Hlt by lia.
      apply pow2_lt_inv in Hlt; unfold ebias in *; lia. }
  destruct Hover as [H1 H2]. unfold finalize in Hinf.
  destruct (Z.eqb_spec m2 0); [discriminate|].
  destruct (Z.eqb_spec m2 (2 ^ 53)) as [E|E].
  - specialize (H2 E). destruct (Z.leb_spec (e1 + 1) 971); [discriminate|lia].
  - destruct (Z.leb_spec e1 971); [discriminate|lia].
Qed.

(** Exact case of [binary_round]. *)
Lemma binary_round_exact s m e g :
  - ebias <= e -> - ebias <= g ->
  (2 ^ (g + ebias) | Z.pos m * 2 ^ (e + ebias)) ->
  Z.pos m * 2 ^ (e + ebias) < 2 ^ (53 + g + ebias) ->
  Z.pos m * 2 ^ (e + ebias) < 2 ^ (1024 + ebias) ->
  valid64 (binary_round prec emax s m e) = true /\
  ulps (binary_round prec emax s m e) = cond_Zopp s (Z.pos m * 2 ^ (e + ebias)).
Proof.
  intros He Hg Hgrid Hlt Hfin.
  destruct (binary_round_shape s m e) as (m2 & Hb & Hn & _ & Hshl & Hshr & ->).
  assert (He1 : - ebias <= fexp64 (Zdigits2 (Z.pos m) + e)) by (unfold fexp64; lia).
  split; [apply finalize_valid; assumption|].
  pose proof (exact_mantissa (Z.pos m) e g m2 ltac:(lia) He Hg Hgrid Hlt Hshl Hshr) as Hv.
  rewrite finalize_finite;
    [rewrite Hv; reflexivity | assumption | assumption | assumption
    | rewrite Hv; assumption].
Qed.

(** Exact case of [binary_round_aux], as used by multiplication. *)
Lemma binary_round_aux_exact s m e g :
  0 < m -> - ebias <= e -> e <= fexp64 (Zdigits2 m + e) -> - ebias <= g ->
  (2 ^ (g + ebias) | m * 2 ^ (e + ebias)) ->
  m * 2 ^ (e + ebias) < 2 ^ (53 + g + ebias) ->
  m * 2 ^ (e + ebias) < 2 ^ (1024 + ebias) ->
  valid64 (binary_round_aux prec emax s m e loc_Exact) = true /\
  ulps (binary_round_aux prec emax s m e loc_Exact) = cond_Zopp s (m * 2 ^ (e + ebias)).
Proof.
  intros Hm He Hpre Hg Hgrid Hlt Hfin.
  destruct (binary_round_aux_shape s m e loc_Exact Hm Hpre)
    as (m2 & Hb & Hex & Hhi & Hn & _ & ->).
  set (e1 := fexp64 (Zdigits2 m + e)) in *.
  pose proof (pow2_pos (e1 - e) ltac:(lia)) as Hp.
  assert (0 <= m / 2 ^ (e1 - e)) by (apply Z.div_pos; lia).
  assert (He1 : - ebias <= e1) by (unfold e1, fexp64; lia).
  split; [apply finalize_valid; try assumption; lia|].
  assert (Hv : m2 * 2 ^ (e1 + ebias) = m * 2 ^ (e + ebias)).
  { apply (exact_mantissa m e g m2); try assumption; fold e1.
    - intros Hle. assert (Hz : e1 - e = 0) by lia. rewrite Hz in *.
      change (2 ^ 0) with 1 in *. rewrite Z.div_1_r in *.
      rewrite Hex; [| reflexivity | exists m; lia].
      replace (e - e1) with 0 by lia. simpl. lia.
    - intros _ Hdiv. apply Hex; [reflexivity | assumption]. }
  rewrite finalize_finite;
    [rewrite Hv; reflexivity | lia | assumption | assumption | rewrite Hv; assumption].
Qed.

(** *** Signs and canonicity of rounded results *)

Lemma finalize_signed s m e : 0 <= m -> signed s (finalize s m e).
Proof.
  intros Hm. destruct (finalize_cases s m e Hm) as [->|[->|(m' & e' & ->)]];
    reflexivity.
Qed.

Lemma binary_round_valid s m e : valid64 (binary_round prec emax s m e) = true.
Proof.
  destruct (binary_round_shape s m e) as (m2 & Hb & Hn & _ & _ & _ & ->).
  apply finalize_valid; [assumption | unfold fexp64; lia | assumption].
Qed.

Lemma binary_round_signed s m e : signed s (binary_round prec emax s m e).
Proof.
  destruct (binary_round_shape s m e) as (m2 & Hb & _ & _ & _ & _ & ->).
  apply finalize_signed. lia.
Qed.

Lemma binary_normalize_valid m e sz :
  valid64 (binary_normalize prec emax m e sz) = true.
Proof. destruct m; [reflexivity | apply binary_round_valid ..]. Qed.

Lemma binary_normalize_signed m e sz :
  signed (if m =? 0 then sz else m <? 0) (binary_normalize prec emax m e sz).
Proof. destruct m; [reflexivity | apply binary_round_signed ..]. Qed.

Lemma binary_normalize_pos m e sz :
  0 < m -> signed false (binary_normalize prec emax m e sz).
Proof. destruct m; try lia. intros _. apply binary_round_signed. Qed.

Lemma binary_normalize_neg m e sz :
  m < 0 -> signed true (binary_normalize prec emax m e sz).
Proof. destruct m; try lia. intros _. apply binary_round_signed. Qed.

(** The product of two canonical mantissas never needs a left shift. *)
Lemma mul_canonical_exponent sx mx ex sy my ey :
  valid64 (S754_finite sx mx ex) = true ->
  valid64 (S754_finite sy my ey) = true ->
  ex + ey <= fexp64 (Zdigits2 (Z.pos (mx * my)) + (ex + ey)).
Proof.
  intros Hx Hy.
  destruct (valid_finite_bounds _ _ _ Hx) as (Hex & Hmx & Hnx).
  destruct (valid_finite_bounds _ _ _ Hy) as (Hey & Hmy & Hny).
  rewrite Pos2Z.inj_mul.
  destruct (Z_le_gt_dec (2 ^ 52) (Z.pos mx * Z.pos my)) as [Hbig|Hsmall].
  - assert (53 <= Zdigits2 (Z.pos mx * Z.pos my)).
    { replace 53 with (Zdigits2 (2 ^ 52)) by reflexivity.
      apply digits_le; [reflexivity | assumption]. }
    unfold fexp64. lia.
  - assert (ex = - ebias) by (destruct Hnx; [assumption | nia]).
    assert (ey = - ebias) by (destruct Hny; [assumption | nia]).
    unfold fexp64, ebias in *. lia.
Qed.

(** *** Comparison of canonical non-negative numbers *)

Lemma compare_finite_ulps m1 e1 m2 e2 :
  valid64 (S754_finite false m1 e1) = true ->
  valid64 (S754_finite false m2 e2) = true ->
  SFcompare (S754_finite false m1 e1) (S754_finite false m2 e2)
  = Some (ulps (S754_finite false m1 e1) ?= ulps (S754_finite false m2 e2)).
Proof.
  intros H1 H2.
  destruct (valid_finite_bounds _ _ _ H1) as (He1 & Hm1 & Hn1).
  destruct (valid_finite_bounds _ _ _ H2) as (He2 & Hm2 & Hn2).
  simpl. f_equal.
  destruct (Z.compare_spec e1 e2) as [->|Hlt|Hgt].
  - rewrite Pos.compare_cont_spec.
    replace (Pos.switch_Eq Eq (m1 ?= m2)%positive) with (Z.pos m1 ?= Z.pos m2)
      by (cbn [Z.compare]; destruct (m1 ?= m2)%positive; reflexivity).
    pose proof (pow2_pos (e2 + ebias) ltac:(lia)) as Hp.
    destruct (Z.compare_spec (Z.pos m1) (Z.pos m2)); symmetry;
      [apply Z.compare_eq_iff | apply Z.compare_lt_iff | apply Z.compare_gt_iff]; nia.
  - symmetry. apply Z.compare_lt_iff.
    assert (Hm2' : 2 ^ 52 <= Z.pos m2) by (destruct Hn2; [lia | assumption]).
    replace (e2 + ebias) with ((e2 - e1 - 1) + (1 + (e1 + ebias))) by lia.
    rewrite (pow2_split (e2 - e1 - 1)), (pow2_split 1) by lia.
    pose proof (pow2_pos (e2 - e1 - 1) ltac:(lia)).
    pose proof (pow2_pos (e1 + ebias) ltac:(lia)).
    change (2 ^ 1) with 2. change (2 ^ 53) with (2 ^ 52 * 2) in Hm1.
    assert (Z.pos m1 < Z.pos m2 * 2 ^ (e2 - e1 - 1) * 2) by nia.
    replace (Z.pos m2 * (2 ^ (e2 - e1 - 1) * (2 * 2 ^ (e1 + ebias))))
      with (Z.pos m2 * 2 ^ (e2 - e1 - 1) * 2 * 2 ^ (e1 + ebias)) by ring.
    apply Z.mul_lt_mono_pos_r; assumption.
  - symmetry. apply Z.compare_gt_iff.
    assert (Hm1' : 2 ^ 52 <= Z.pos m1) by (destruct Hn1; [lia | assumption]).
    replace (e1 + ebias) with ((e1 - e2 - 1) + (1 + (e2 + ebias))) by lia.
    rewrite (pow2_split (e1 - e2 - 1)), (pow2_split 1) by lia.
    pose proof (pow2_pos (e1 - e2 - 1) ltac:(lia)).
    pose proof (pow2_pos (e2 + ebias) ltac:(lia)).
    change (2 ^ 1) with 2. change (2 ^ 53) with (2 ^ 52 * 2) in Hm2.
    assert (Z.pos m2 < Z.pos m1 * 2 ^ (e1 - e2 - 1) * 2) by nia.
    replace (Z.pos m1 * (2 ^ (e1 - e2 - 1) * (2 * 2 ^ (e2 + ebias))))
      with (Z.pos m1 * 2 ^ (e1 - e2 - 1) * 2 * 2 ^ (e2 + ebias)) by ring.
    apply Z.mul_lt_mono_pos_r; assumption.
Qed.

Lemma ulps_finite_nonneg x : finite_nonneg x -> 0 <= ulps x.
Proof.
  destruct x as [| | |[|] m e]; simpl; try lia; tauto.
Qed.

Lemma ulps_finite_pos m e :
  - ebias <= e -> 0 < ulps (S754_finite false m e).
Proof. intros. simpl. pose proof (pow2_pos (e + ebias)). nia. Qed.

Lemma compare_ulps x y :
  valid64 x = true -> valid64 y = true ->
  finite_nonneg x -> finite_nonneg y ->
  SFcompare x y = Some (ulps x ?= ulps y).
Proof.
  intros Hx Hy Fx Fy.
  destruct x as [sx| | |[|] mx ex]; try contradiction;
  destruct y as [sy| | |[|] my ey]; try contradiction.
  - reflexivity.
  - destruct (valid_finite_bounds _ _ _ Hy) as (He & _).
    pose proof (ulps_finite_pos my ey ltac:(lia)) as Hp.
    cbn [SFcompare]. f_equal. symmetry. apply Z.compare_lt_iff. exact Hp.
  - destruct (valid_finite_bounds _ _ _ Hx) as (He & _).
    pose proof (ulps_finite_pos mx ex ltac:(lia)) as Hp.
    cbn [SFcompare]. f_equal. symmetry. apply Z.compare_gt_iff. exact Hp.
  - apply compare_finite_ulps; assumption.
Qed.

Lemma leb_ulps x y :
  valid64 x = true -> valid64 y = true ->
  finite_nonneg x -> finite_nonneg y ->
  SFleb x y = true <-> ulps x <= ulps y.
Proof.
  intros Hx Hy Fx Fy. unfold SFleb. rewrite compare_ulps by assumption.
  destruct (Z.compare_spec (ulps x) (ulps y)); split; intros; try lia; try reflexivity; discriminate.
Qed.

(** *** Literals *)

Lemma leb_zero_nonneg x : SFleb zero x = true <-> nonneg x.
Proof.
  destruct x as [s|[|]| |[|] m e]; simpl; split; intros; try tauto; try discriminate; reflexivity.
Qed.

Lemma signed_false_nonneg x : signed false x -> nonneg x.
Proof. destruct x; simpl; tauto. Qed.

Lemma number_of_Z_valid n : valid64 (number_of_Z n) = true.
Proof. apply binary_normalize_valid. Qed.

Lemma number_of_Z_nonneg n : 0 <= n -> nonneg (number_of_Z n).
Proof.
  intros Hn. destruct (Z.eq_dec n 0) as [->|Hne]; [exact I|].
  apply signed_false_nonneg, binary_normalize_pos. lia.
Qed.

(** Integers below [2 ^ 53] are represented exactly. *)
Lemma number_of_Z_exact n :
  0 < n < 2 ^ 53 ->
  exists m e, number_of_Z n = S754_finite false m e /\
              valid64 (number_of_Z n) = true /\ ulps (number_of_Z n) = units n.
Proof.
  intros [Hlo Hhi]. destruct n as [|p|p]; try lia.
  unfold number_of_Z, binary_normalize.
  assert (Heb : 0 < 2 ^ ebias) by (apply pow2_pos; unfold ebias; lia).
  destruct (binary_round_exact false p 0 0) as [Hv Hu].
  - unfold ebias; lia.
  - unfold ebias; lia.
  - apply Z.divide_factor_r.
  - replace (0 + ebias) with ebias by lia.
    replace (53 + 0 + ebias) with (53 + ebias) by lia.
    rewrite (pow2_split 53 ebias) by (unfold ebias; lia).
    apply Z.mul_lt_mono_pos_r; assumption.
  - replace (0 + ebias) with ebias by lia.
    rewrite (pow2_split 1024 ebias) by (unfold ebias; lia).
    apply Z.lt_trans with (2 ^ 53 * 2 ^ ebias).
    + apply Z.mul_lt_mono_pos_r; assumption.
    + apply Z.mul_lt_mono_pos_r; [assumption | reflexivity].
  - replace (0 + ebias) with ebias in Hu by lia.
    cbn [cond_Zopp] in Hu. fold (units (Z.pos p)) in Hu.
    pose proof (binary_round_signed false p 0) as Hs.
    destruct (binary_round prec emax false p 0) as [s| s| |s m e] eqn:E;
      simpl in Hs; try contradiction; subst s.
    + simpl in Hu. unfold units in Hu. nia.
    + simpl in Hu. unfold units in Hu. nia.
    + exists m, e. auto.
Qed.

(** *** Addition and multiplication of non-negative numbers *)

Lemma fadd_valid x y :
  valid64 x = true -> valid64 y = true -> valid64 (fadd x y) = true.
Proof.
  intros Hx Hy.
  destruct x as [sx|sx| |sx mx ex]; destruct y as [sy|sy| |sy my ey];
    try assumption; try reflexivity;
    try (destruct sx, sy; reflexivity).
  apply binary_normalize_valid.
Qed.

Lemma fadd_nonneg x y : nonneg x -> nonneg y -> nonneg (fadd x y).
Proof.
  intros Nx Ny.
  destruct x as [sx|sx| |sx mx ex]; simpl in Nx; try contradiction;
  destruct y as [sy|sy| |sy my ey]; simpl in Ny; try contradiction;
    subst; try (exact I || reflexivity).
  - destruct sx, sy; exact I.
  - unfold fadd, SFadd. cbn [cond_Zopp].
    apply signed_false_nonneg, binary_normalize_pos. lia.
Qed.

Lemma fmul_nonneg x y :
  valid64 x = true -> valid64 y = true -> nonneg x -> nonneg y ->
  finite_number x \/ finite_number y ->
  valid64 (fmul x y) = true /\ nonneg (fmul x y).
Proof.
  intros Hx Hy Nx Ny Hfin.
  destruct x as [sx|sx| |sx mx ex]; simpl in Nx; try contradiction;
  destruct y as [sy|sy| |sy my ey]; simpl in Ny; try contradiction;
    subst; try (split; [reflexivity | exact I || reflexivity]);
    try (solve [destruct Hfin as [[]|[]]]).
  unfold fmul, SFmul. cbn [xorb].
  pose proof (mul_canonical_exponent _ _ _ _ _ _ Hx Hy) as Hpre.
  destruct (binary_round_aux_shape false (Z.pos (mx * my)) (ex + ey) loc_Exact
              ltac:(lia) Hpre) as (m2 & Hb & _ & Hhi & Hn & _ & ->).
  assert (0 <= m2).
  { apply Z.le_trans with (2 := proj1 Hb). apply Z.div_pos; [lia|].
    apply pow2_pos. lia. }
  split.
  - apply finalize_valid; [lia | unfold fexp64; lia | assumption].
  - apply signed_false_nonneg, finalize_signed. assumption.
Qed.

(** *** Clamping *)

Lemma hundred_facts :
  valid64 hundred = true /\ finite_nonneg hundred /\ ulps hundred = units 100.
Proof. repeat split; vm_compute; reflexivity. Qed.

Lemma SFcompare_antisym x y :
  SFcompare y x = option_map CompOpp (SFcompare x y).
Proof.
  destruct x as [sx|sx| |sx mx ex]; destruct y as [sy|sy| |sy my ey];
    try (destruct sx); try (destruct sy); try reflexivity;
    cbn [SFcompare option_map]; f_equal;
    rewrite (Z.compare_antisym ex ey);
    destruct (ex ?= ey); cbn [CompOpp]; try reflexivity;
    rewrite (Pos.compare_cont_antisym mx my Eq); cbn [CompOpp];
    destruct (Pos.compare_cont Eq mx my); reflexivity.
Qed.

Lemma SFcompare_none x y : SFcompare x y = None -> x = NaN \/ y = NaN.
Proof.
  destruct x as [sx|sx| |sx mx ex]; destruct y as [sy|sy| |sy my ey];
    cbn [SFcompare]; intros H; try discriminate; auto.
Qed.

Lemma compare_finite_eq m1 e1 m2 e2 :
  SFcompare (S754_finite false m1 e1) (S754_finite false m2 e2) = Some Eq ->
  m1 = m2 /\ e1 = e2.
Proof.
  cbn [SFcompare]. intros H. injection H as H.
  destruct (Z.compare_spec e1 e2); try discriminate.
  split; [|assumption]. apply Pos.compare_eq. rewrite Pos.compare_cont_spec in H.
  destruct (m1 ?= m2)%positive; try discriminate; reflexivity.
Qed.

(** [Math.min(100, z)] for a number [z] (not NaN): the result is at most
    100, and it is [z] itself whenever [z <= 100]. *)
Lemma Math_min_hundred_le z :
  z <> NaN -> SFleb (Math_min hundred z) hundred = true.
Proof.
  intros Hz. unfold Math_min.
  pose proof (SFcompare_antisym hundred z) as Ha.
  destruct (SFcompare hundred z) as [[ | | ]|] eqn:E.
  - destruct z; reflexivity.
  - reflexivity.
  - unfold SFleb. rewrite Ha. reflexivity.
  - destruct (SFcompare_none _ _ E); [discriminate | contradiction].
Qed.

Lemma Math_min_hundred_id z :
  SFleb z hundred = true -> Math_min hundred z = z.
Proof.
  unfold SFleb, Math_min. rewrite (SFcompare_antisym hundred z).
  destruct (SFcompare hundred z) as [[ | | ]|] eqn:E; cbn [option_map CompOpp];
    try discriminate; intros _.
  - destruct z as [sz|sz| |[|] mz ez]; try discriminate; try (destruct sz; discriminate).
    apply compare_finite_eq in E. destruct E as [<- <-]. reflexivity.
  - reflexivity.
Qed.

Lemma Math_min_hundred_cases z :
  z <> NaN -> Math_min hundred z = hundred \/ Math_min hundred z = z.
Proof.
  intros Hz. unfold Math_min.
  destruct (SFcompare hundred z) as [[ | | ]|] eqn:E; auto.
  destruct (SFcompare_none _ _ E); [discriminate | contradiction].
Qed.

Lemma nonneg_not_nan z : nonneg z -> z <> NaN.
Proof. destruct z; simpl; try discriminate. contradiction. Qed.

(** The clamp keeps a non-negative canonical number within [0, 100]. *)
Lemma Math_min_hundred_range z :
  valid64 z = true -> nonneg z ->
  valid64 (Math_min hundred z) = true /\
  nonneg (Math_min hundred z) /\
  SFleb (Math_min hundred z) hundred = true.
Proof.
  intros Hv Hn. pose proof (nonneg_not_nan z Hn) as Hz.
  split; [|split].
  - destruct (Math_min_hundred_cases z Hz) as [->| ->]; [reflexivity | assumption].
  - destruct (Math_min_hundred_cases z Hz) as [->| ->]; [reflexivity | assumption].
  - apply Math_min_hundred_le; assumption.
Qed.

Lemma Math_max_zero_nonneg z : z <> NaN -> nonneg (Math_max zero z).
Proof.
  intros Hz. destruct z as [sz|[|]| |[|] m e]; try reflexivity; try exact I.
  contradiction.
Qed.

Lemma Math_max_zero_neg z : signed true z -> Math_max zero z = zero.
Proof. destruct z as [sz|sz| |sz m e]; simpl; intros; subst; try reflexivity; contradiction. Qed.

Lemma Math_max_zero_pos m e :
  Math_max zero (S754_finite false m e) = S754_finite false m e.
Proof. reflexivity. Qed.

(** *** Rounding to an integer *)

Lemma Math_round_valid x : valid64 x = true -> valid64 (Math_round x) = true.
Proof.
  intros Hv. destruct x as [s|s| |s m e]; try assumption.
  unfold Math_round. destruct (0 <=? e); [assumption|].
  apply binary_normalize_valid.
Qed.

Lemma Math_round_nonneg x : nonneg x -> nonneg (Math_round x).
Proof.
  intros Hn. destruct x as [s|s| |s m e]; try assumption.
  simpl in Hn. subst s. unfold Math_round.
  destruct (Z.leb_spec 0 e) as [|He]; [reflexivity|].
  cbn [cond_Zopp].
  set (n := (2 * Z.pos m + 2 ^ (- e)) / 2 ^ (- e + 1)).
  assert (0 <= n).
  { apply Z.div_pos.
    - pose proof (Z.pow_nonneg 2 (- e) ltac:(lia)). lia.
    - apply pow2_pos. lia. }
  destruct (Z.eq_dec n 0) as [->|]; [exact I|].
  apply signed_false_nonneg, binary_normalize_pos. lia.
Qed.

(** *** Units *)

Lemma ebias_pow_pos : 0 < 2 ^ ebias.
Proof. reflexivity. Qed.

Lemma units_lt a b : a < b <-> units a < units b.
Proof. unfold units. pose proof ebias_pow_pos. split; intros; nia. Qed.

Lemma units_le a b : a <= b <-> units a <= units b.
Proof. unfold units. pose proof ebias_pow_pos. split; intros; nia. Qed.

Lemma units_pow k : 0 <= k -> units (2 ^ k) = 2 ^ (k + ebias).
Proof. intros. unfold units. rewrite pow2_split; [reflexivity | assumption | unfold ebias; lia]. Qed.

Lemma signed_false_ulps_pos x :
  signed false x -> 0 < ulps x -> exists m e, x = S754_finite false m e.
Proof.
  destruct x as [s|s| |s m e]; simpl; intros Hs Hu; try lia; try contradiction.
  subst s. eauto.
Qed.

(** A canonical number of at most 100 has a non-positive exponent. *)
Lemma exponent_le_100 m e :
  valid64 (S754_finite false m e) = true ->
  ulps (S754_finite false m e) <= units 100 -> e <= 0.
Proof.
  intros Hv Hu. destruct (valid_finite_bounds _ _ _ Hv) as (He & Hm & Hn).
  destruct Hn as [->|Hn]; [unfold ebias; lia|].
  simpl in Hu.
  assert (2 ^ (52 + (e + ebias)) < 2 ^ (7 + ebias)).
  { rewrite (pow2_split 52), (pow2_split 7) by (unfold ebias in *; lia).
    unfold units in Hu. pose proof ebias_pow_pos.
    pose proof (pow2_pos (e + ebias) ltac:(lia)).
    change (2 ^ 7) with 128. nia. }
  apply pow2_lt_inv in H; unfold ebias in *; lia.
Qed.

(** *** Subtraction *)

Lemma fsub_aligned mx ex my ey :
  - ebias <= ex -> - ebias <= ey ->
  exists M,
    fsub (S754_finite false mx ex) (S754_finite false my ey)
    = binary_normalize prec emax M (Z.min ex ey) false /\
    M * 2 ^ (Z.min ex ey + ebias)
    = ulps (S754_finite false mx ex) - ulps (S754_finite false my ey).
Proof.
  intros Hex Hey. set (ez := Z.min ex ey).
  exists (Z.pos (fst (shl_align mx ex ez)) - Z.pos (fst (shl_align my ey ez))).
  split; [reflexivity|].
  rewrite !shl_align_fst by (unfold ez; lia).
  cbn [ulps cond_Zopp]. rewrite Z.mul_sub_distr_r.
  rewrite <- !Z.mul_assoc, <- !Z.pow_add_r by (unfold ez; lia).
  f_equal; f_equal; f_equal; lia.
Qed.

(** Subtracting at least as much as there is leaves nothing after the clamp
    at zero. *)
Lemma decay_step_zero v y :
  valid64 v = true -> finite_nonneg v ->
  (y = S754_infinity false \/
   exists my ey, y = S754_finite false my ey /\ valid64 y = true /\ ulps v <= ulps y) ->
  Math_max zero (fsub v y) = zero.
Proof.
  intros Hv Fv [->|(my & ey & -> & Hy & Hle)].
  - destruct v as [s| | |[|] m e]; try contradiction; reflexivity.
  - destruct v as [s| | |[|] mx ex]; try contradiction; [reflexivity|].
    destruct (valid_finite_bounds _ _ _ Hv) as (Hex & _).
    destruct (valid_finite_bounds _ _ _ Hy) as (Hey & _).
    destruct (fsub_aligned mx ex my ey) as (M & -> & HM); try lia.
    assert (HM0 : M <= 0).
    { pose proof (pow2_pos (Z.min ex ey + ebias) ltac:(lia)). nia. }
    destruct (Z.eq_dec M 0) as [->|Hne]; [reflexivity|].
    apply Math_max_zero_neg, binary_normalize_neg. lia.
Qed.

(** Subtracting an integer from a larger canonical number of at most 100
    is exact. *)
Lemma decay_step_exact mx ex my ey b :
  let v := S754_finite false mx ex in
  let y := S754_finite false my ey in
  valid64 v = true -> valid64 y = true ->
  ulps v <= units 100 -> ulps y = units b -> ulps y < ulps v ->
  exists m e, fsub v y = S754_finite false m e /\
              valid64 (fsub v y) = true /\ ulps (fsub v y) = ulps v - ulps y.
Proof.
  intros v y Hv Hy H100 Hb Hlt.
  destruct (valid_finite_bounds _ _ _ Hv) as (Hex & Hmx & _).
  destruct (valid_finite_bounds _ _ _ Hy) as (Hey & _).
  pose proof (exponent_le_100 mx ex Hv H100) as Hex0.
  destruct (fsub_aligned mx ex my ey) as (M & HE & HM); try lia.
  fold v y in HE, HM.
  set (ez := Z.min ex ey) in *.
  assert (Hez : - ebias <= ez) by (unfold ez; lia).
  pose proof (pow2_pos (ez + ebias) ltac:(lia)) as Hpz.
  assert (HMpos : 0 < M) by nia.
  destruct M as [|p|p]; try lia.
  cbn [binary_normalize] in HE.
  destruct (binary_round_exact false p ez ex) as [Hval Hu]; try lia.
  - rewrite HM, Hb. apply Z.divide_sub_r.
    + exists (Z.pos mx). reflexivity.
    + unfold units. apply Z.divide_mul_r. apply pow2_divide. unfold ebias in *; lia.
  - rewrite HM. apply Z.lt_trans with (ulps v).
    + pose proof (ulps_finite_pos my ey ltac:(lia)). fold y in H. lia.
    + unfold v. cbn [ulps cond_Zopp].
      replace (53 + ex + ebias) with (53 + (ex + ebias)) by lia.
      rewrite (pow2_split 53) by lia.
      apply Z.mul_lt_mono_pos_r; [apply pow2_pos; lia | assumption].
  - rewrite HM. apply Z.lt_trans with (ulps v).
    + pose proof (ulps_finite_pos my ey ltac:(lia)). fold y in H. lia.
    + apply Z.le_lt_trans with (1 := H100). rewrite <- (units_pow 1024) by lia.
      apply (proj1 (units_lt _ _)). vm_compute. reflexivity.
  - rewrite HE. cbn [cond_Zopp] in Hu. rewrite HM in Hu.
    destruct (signed_false_ulps_pos _ (binary_round_signed false p ez)) as (m & e & E);
      [lia|].
    exists m, e. rewrite <- E. auto.
Qed.

(** *** Multiplication by the decay rate *)

(** A canonical number of at least [2 ^ k] units has exponent above
    [k - 53]. *)
Lemma exponent_lower m e k :
  valid64 (S754_finite false m e) = true -> 0 <= k ->
  units (2 ^ k) <= ulps (S754_finite false m e) ->
  k - 53 < e /\ 2 ^ 52 <= Z.pos m.
Proof.
  intros Hv Hk Hu. destruct (valid_finite_bounds _ _ _ Hv) as (He & Hm & Hn).
  rewrite units_pow in Hu by assumption. cbn [ulps cond_Zopp] in Hu.
  assert (Hlt : 2 ^ (k + ebias) < 2 ^ (53 + (e + ebias))).
  { rewrite (pow2_split 53) by lia.
    pose proof (pow2_pos (e + ebias) ltac:(lia)). nia. }
  apply pow2_lt_inv in Hlt; [|lia].
  split; [lia|]. destruct Hn as [->|Hn]; [unfold ebias in *; lia | assumption].
Qed.

(** Products of small integers are exact. *)
Lemma fmul_exact_units mx ex my ey a b :
  let x := S754_finite false mx ex in
  let y := S754_finite false my ey in
  valid64 x = true -> valid64 y = true ->
  ulps x = units a -> ulps y = units b -> 0 < a -> 0 < b -> a * b < 2 ^ 53 ->
  exists m e, fmul x y = S754_finite false m e /\
              valid64 (fmul x y) = true /\ ulps (fmul x y) = units (a * b).
Proof.
  intros x y Hx Hy Ha Hb Ha0 Hb0 Hab.
  destruct (valid_finite_bounds _ _ _ Hx) as (Hex & Hmx & _).
  destruct (valid_finite_bounds _ _ _ Hy) as (Hey & Hmy & _).
  destruct (exponent_lower mx ex 0 Hx ltac:(lia)) as [Hex' _].
  { fold x. rewrite Ha. apply (proj1 (units_le _ _)). simpl. lia. }
  destruct (exponent_lower my ey 0 Hy ltac:(lia)) as [Hey' _].
  { fold y. rewrite Hb. apply (proj1 (units_le _ _)). simpl. lia. }
  pose proof ebias_pow_pos as Hp.
  assert (HP : Z.pos (mx * my) * 2 ^ (ex + ey + ebias) = units (a * b)).
  { unfold x, y in Ha, Hb. cbn [ulps cond_Zopp] in Ha, Hb. unfold units in *.
    apply Z.mul_cancel_r with (p := 2 ^ ebias); [lia|].
    rewrite Pos2Z.inj_mul.
    replace (Z.pos mx * Z.pos my * 2 ^ (ex + ey + ebias) * 2 ^ ebias)
      with (Z.pos mx * Z.pos my * (2 ^ (ex + ey + ebias) * 2 ^ ebias)) by ring.
    rewrite <- Z.pow_add_r by (unfold ebias in *; lia).
    replace (ex + ey + ebias + ebias) with ((ex + ebias) + (ey + ebias)) by lia.
    rewrite Z.pow_add_r by lia.
    replace (Z.pos mx * Z.pos my * (2 ^ (ex + ebias) * 2 ^ (ey + ebias)))
      with ((Z.pos mx * 2 ^ (ex + ebias)) * (Z.pos my * 2 ^ (ey + ebias))) by ring.
    rewrite Ha, Hb. ring. }
  unfold fmul, x, y, SFmul. cbn [xorb].
  destruct (binary_round_aux_exact false (Z.pos (mx * my)) (ex + ey) 0) as [Hval Hu].
  - lia.
  - unfold ebias in *; lia.
  - apply (mul_canonical_exponent false mx ex false my ey); assumption.
  - unfold ebias; lia.
  - rewrite HP. apply Z.divide_factor_r.
  - rewrite HP. replace (53 + 0 + ebias) with (53 + ebias) by lia.
    rewrite <- (units_pow 53) by lia. apply (proj1 (units_lt _ _)). assumption.
  - rewrite HP. rewrite <- (units_pow 1024) by lia. apply (proj1 (units_lt _ _)).
    apply Z.lt_trans with (1 := Hab). vm_compute. reflexivity.
  - cbn [cond_Zopp] in Hu. rewrite HP in Hu.
    assert (Hsg : signed false
              (binary_round_aux prec emax false (Z.pos (mx * my)) (ex + ey) loc_Exact)).
    { destruct (binary_round_aux_shape false (Z.pos (mx * my)) (ex + ey) loc_Exact)
        as (m2 & Hb2 & _ & _ & _ & _ & ->); [lia| |].
      - apply (mul_canonical_exponent false mx ex false my ey); assumption.
      - apply finalize_signed. apply Z.le_trans with (2 := proj1 Hb2).
        apply Z.div_pos; [lia|]. apply pow2_pos.
        pose proof (mul_canonical_exponent false mx ex false my ey Hx Hy). lia. }
    destruct (signed_false_ulps_pos _ Hsg) as (m & e & E).
    { rewrite Hu. unfold units. nia. }
    exists m, e. rewrite <- E. auto.
Qed.

(** A product with the rate 18 whose other factor is at least [2 ^ 48] is
    at least [2 ^ 52], or overflows. *)
Lemma fmul_rate_large mx ex :
  let x := S754_finite false mx ex in
  valid64 x = true -> units (2 ^ 48) <= ulps x ->
  fmul (number_of_Z 18) x = S754_infinity false \/
  exists m e, fmul (number_of_Z 18) x = S754_finite false m e /\
              valid64 (fmul (number_of_Z 18) x) = true /\
              units (2 ^ 52) <= ulps (fmul (number_of_Z 18) x).
Proof.
  intros x Hx Hu.
  destruct (exponent_lower mx ex 48 Hx ltac:(lia) Hu) as [Hex Hmx].
  change (number_of_Z 18) with (S754_finite false 5066549580791808 (-48)).
  set (r := S754_finite false 5066549580791808 (-48)).
  assert (Hr : valid64 r = true) by reflexivity.
  pose proof (mul_canonical_exponent false _ _ false mx ex Hr Hx) as Hpre.
  unfold fmul, r, x, SFmul. cbn [xorb].
  set (P := Z.pos (5066549580791808 * mx)) in *.
  set (e := -48 + ex) in *.
  assert (HP : 2 ^ 104 <= P).
  { unfold P. rewrite Pos2Z.inj_mul.
    change (2 ^ 104) with (2 ^ 52 * 2 ^ 52).
    apply Z.mul_le_mono_nonneg; lia. }
  assert (Hd : 105 <= Zdigits2 P).
  { replace 105 with (Zdigits2 (2 ^ 104)) by reflexivity.
    apply digits_le; [reflexivity | assumption]. }
  destruct (binary_round_aux_shape false P e loc_Exact ltac:(lia) Hpre)
    as (m2 & Hb2 & _ & Hhi & Hn & Hnorm & ->).
  assert (Hm2 : 2 ^ 52 <= m2) by (apply Hnorm; unfold ebias, e; lia).
  set (e1 := fexp64 (Zdigits2 P + e)) in *.
  assert (He1 : 0 <= e1) by (unfold e1, fexp64, e; lia).
  destruct (finalize_ulps false m2 e1) as [Hinf|Hul];
    [lia | unfold ebias; lia | left; assumption | right].
  cbn [cond_Zopp] in Hul.
  assert (Hge : units (2 ^ 52) <= ulps (finalize false m2 e1)).
  { rewrite Hul. unfold units.
    apply Z.mul_le_mono_nonneg; try lia.
    apply Z.pow_le_mono_r; unfold ebias; lia. }
  destruct (signed_false_ulps_pos (finalize false m2 e1)) as (m & e' & E).
  - apply finalize_signed. lia.
  - apply Z.lt_le_trans with (2 := Hge). unfold units. pose proof ebias_pow_pos. lia.
  - exists m, e'. rewrite <- E. repeat split; try assumption.
    apply finalize_valid; [lia | unfold ebias in *; lia | right; assumption].
Qed.

(** Integers from [2 ^ 53] on are rounded, to at least [2 ^ 53]. *)
Lemma number_of_Z_large n :
  2 ^ 53 <= n ->
  number_of_Z n = S754_infinity false \/
  exists m e, number_of_Z n = S754_finite false m e /\
              valid64 (number_of_Z n) = true /\
              units (2 ^ 53) <= ulps (number_of_Z n).
Proof.
  intros Hn. destruct n as [|p|p]; try (vm_compute in Hn; congruence).
  unfold number_of_Z. cbn [binary_normalize].
  assert (Hd : 54 <= Zdigits2 (Z.pos p)).
  { replace 54 with (Zdigits2 (2 ^ 53)) by reflexivity.
    apply digits_le; [reflexivity | assumption]. }
  destruct (binary_round_shape false p 0) as (m2 & Hb & Hn2 & Hnorm & _ & _ & ->).
  assert (Hm2 : 2 ^ 52 <= m2) by (apply Hnorm; unfold ebias; lia).
  set (e1 := fexp64 (Zdigits2 (Z.pos p) + 0)) in *.
  assert (He1 : 1 <= e1) by (unfold e1, fexp64; lia).
  destruct (finalize_ulps false m2 e1) as [Hinf|Hul];
    [lia | unfold ebias; lia | left; assumption | right].
  cbn [cond_Zopp] in Hul.
  assert (Hge : units (2 ^ 53) <= ulps (finalize false m2 e1)).
  { rewrite Hul. unfold units. change (2 ^ 53) with (2 ^ 52 * 2 ^ 1).
    rewrite <- Z.mul_assoc, <- Z.pow_add_r by (unfold ebias; lia).
    apply Z.mul_le_mono_nonneg; try lia.
    apply Z.pow_le_mono_r; unfold ebias; lia. }
  destruct (signed_false_ulps_pos (finalize false m2 e1)) as (m & e' & E).
  - apply finalize_signed. lia.
  - apply Z.lt_le_trans with (2 := Hge). unfold units. pose proof ebias_pow_pos. lia.
  - exists m, e'. rewrite <- E. repeat split; try assumption.
    apply finalize_valid; [lia | unfold ebias in *; lia | right; assumption].
Qed.

(** The amount [18 * days] for a positive whole number of days: the exact
    product, or (past [2 ^ 53]) some number above 100, possibly +infinity. *)
Lemma rate_times_days n :
  1 <= n ->
  let y := fmul (number_of_Z 18) (number_of_Z n) in
  (y = S754_infinity false /\ 100 < 18 * n) \/
  exists m e, y = S754_finite false m e /\ valid64 y = true /\
              (ulps y = units (18 * n) \/ (units 100 < ulps y /\ 100 < 18 * n)).
Proof.
  intros Hn. cbv zeta.
  assert (Hx : (number_of_Z n = S754_infinity false /\ 2 ^ 48 <= n) \/
               exists mx ex, number_of_Z n = S754_finite false mx ex /\
                 valid64 (S754_finite false mx ex) = true /\
                 ((ulps (S754_finite false mx ex) = units n /\ n < 2 ^ 48) \/
                  (units (2 ^ 48) <= ulps (S754_finite false mx ex) /\ 2 ^ 48 <= n))).
  { destruct (Z_lt_le_dec n (2 ^ 53)) as [Hlt|Hge].
    - destruct (number_of_Z_exact n ltac:(lia)) as (mx & ex & E & Hv & Hu).
      right. exists mx, ex. rewrite E in Hv, Hu. repeat split; try assumption.
      destruct (Z_lt_le_dec n (2 ^ 48)) as [Hsmall|Hn48]; [left; auto | right].
      split; [|assumption]. rewrite Hu. apply (proj1 (units_le _ _)). assumption.
    - assert (2 ^ 48 <= n)
        by (apply Z.le_trans with (2 := Hge); vm_compute; discriminate).
      destruct (number_of_Z_large n Hge) as [Hinf|(mx & ex & E & Hv & Hu)];
        [left; auto | right].
      exists mx, ex. rewrite E in Hv, Hu. repeat split; try assumption.
      right. split; [|assumption].
      apply Z.le_trans with (2 := Hu). apply (proj1 (units_le _ _)).
      vm_compute. discriminate. }
  assert (Hbig : 2 ^ 48 <= n -> 100 < 18 * n).
  { intros H. apply Z.lt_le_trans with (18 * 2 ^ 48); [reflexivity | lia]. }
  destruct Hx as [[-> Hn48]|(mx & ex & -> & Hv & [[Hu Hsmall]|[Hu Hn48]])].
  - left. split; [reflexivity | auto].
  - right.
    change (number_of_Z 18) with (S754_finite false 5066549580791808 (-48)).
    destruct (fmul_exact_units 5066549580791808 (-48) mx ex 18 n)
      as (m & e & E' & Hv' & Hu'); try assumption; try reflexivity; try lia.
    exists m, e. auto.
  - destruct (fmul_rate_large mx ex Hv Hu) as [?|(m & e & E' & Hv' & Hge)];
      [left; auto | right].
    exists m, e. split; [assumption|]. split; [assumption|]. right. split; [|auto].
    apply Z.lt_le_trans with (2 := Hge). apply (proj1 (units_lt _ _)). reflexivity.
Qed.

(** [days > 0] for a whole number of days. *)
Lemma number_of_Z_gtb n : gtb (number_of_Z n) zero = (0 <? n).
Proof.
  unfold gtb. destruct (Z.ltb_spec 0 n) as [Hpos|Hle].
  - destruct (Z_lt_le_dec n (2 ^ 53)) as [Hlt|Hge].
    + destruct (number_of_Z_exact n ltac:(lia)) as (m & e & -> & _). reflexivity.
    + destruct (number_of_Z_large n Hge) as [->|(m & e & -> & _)]; reflexivity.
  - destruct (Z.eq_dec n 0) as [->|Hne]; [reflexivity|].
    pose proof (binary_normalize_neg n 0 false ltac:(lia)) as Hs.
    fold (number_of_Z n) in Hs.
    destruct (number_of_Z n) as [s|s| |s m e]; simpl in Hs; try contradiction;
      subst; reflexivity.
Qed.

(** *** Whole numbers through [Math.round], [Math.max] and [Math.min] *)

(** The representation of a nonzero integer below [2 ^ 53]: its digits
    shifted up to 53 bits. *)
Lemma number_of_Z_small p :
  Z.pos p < 2 ^ 53 ->
  let k := 53 - Zdigits2 (Z.pos p) in
  0 <= k /\
  forall s, binary_round prec emax s p 0
            = S754_finite s (Z.to_pos (Z.pos p * 2 ^ k)) (- k).
Proof.
  intros Hp k.
  assert (Hd : Zdigits2 (Z.pos p) <= 53) by (apply digits_below; lia).
  pose proof (digits_pos (Z.pos p) ltac:(lia)) as Hd0.
  split; [unfold k; lia|]. intros s.
  destruct (binary_round_shape s p 0) as (m2 & Hb & _ & _ & Hshl & _ & ->).
  assert (He1 : fexp64 (Zdigits2 (Z.pos p) + 0) = - k)
    by (unfold fexp64, ebias, k; lia).
  rewrite He1 in *.
  rewrite Hshl by (unfold k; lia).
  replace (0 - - k) with k by lia.
  pose proof (pow2_pos k ltac:(unfold k; lia)) as Hpk.
  assert (Hlt : Z.pos p * 2 ^ k < 2 ^ 53).
  { destruct (digits_bounds (Z.pos p) ltac:(lia)) as [_ Hhi].
    replace 53 with (Zdigits2 (Z.pos p) + k) by (unfold k; lia).
    rewrite Z.pow_add_r by (unfold k; lia). nia. }
  unfold finalize.
  destruct (Z.eqb_spec (Z.pos p * 2 ^ k) 0); [nia|].
  destruct (Z.eqb_spec (Z.pos p * 2 ^ k) (2 ^ 53)); [lia|].
  destruct (Z.leb_spec (- k) 971); [reflexivity | unfold k in *; lia].
Qed.

Lemma Math_round_whole a :
  - 2 ^ 53 < a < 2 ^ 53 -> Math_round (number_of_Z a) = number_of_Z a.
Proof.
  intros Ha. destruct a as [|p|p]; [reflexivity| |].
  - unfold number_of_Z. cbn [binary_normalize].
    destruct (number_of_Z_small p ltac:(lia)) as [Hk Hs]. rewrite Hs.
    set (k := 53 - Zdigits2 (Z.pos p)) in *.
    pose proof (pow2_pos k Hk) as Hpk.
    unfold Math_round. destruct (Z.leb_spec 0 (- k)) as [|Hneg]; [reflexivity|].
    cbn [cond_Zopp]. rewrite Z2Pos.id by nia.
    replace (- - k) with k by lia.
    replace ((2 * (Z.pos p * 2 ^ k) + 2 ^ k) / 2 ^ (k + 1)) with (Z.pos p).
    + cbn [binary_normalize]. apply Hs.
    + apply Z.div_unique with (r := 2 ^ k); [|rewrite Z.pow_add_r by lia; simpl (2 ^ 1); ring].
      left. rewrite Z.pow_add_r by lia. simpl (2 ^ 1). lia.
  - unfold number_of_Z. cbn [binary_normalize].
    assert (Hp : Z.pos p < 2 ^ 53) by lia.
    destruct (number_of_Z_small p Hp) as [Hk Hs]. rewrite Hs.
    set (k := 53 - Zdigits2 (Z.pos p)) in *.
    pose proof (pow2_pos k Hk) as Hpk.
    unfold Math_round. destruct (Z.leb_spec 0 (- k)) as [|Hneg]; [reflexivity|].
    cbn [cond_Zopp]. rewrite Z2Pos.id by nia.
    replace (- - k) with k by lia.
    replace ((- (2 * (Z.pos p * 2 ^ k)) + 2 ^ k) / 2 ^ (k + 1)) with (Z.neg p).
    + cbn [binary_normalize]. apply Hs.
    + apply Z.div_unique with (r := 2 ^ k); [|rewrite Z.pow_add_r by lia; simpl (2 ^ 1); lia].
      left. rewrite Z.pow_add_r by lia. simpl (2 ^ 1). lia.
Qed.

Lemma number_of_Z_neg_signed a : a < 0 -> signed true (number_of_Z a).
Proof. intros. apply binary_normalize_neg. assumption. Qed.

Lemma Math_max_one_whole a :
  a < 2 ^ 53 -> Math_max one (number_of_Z a) = number_of_Z (Z.max 1 a).
Proof.
  intros Ha. destruct (Z_lt_le_dec a 1) as [Hlt|Hge].
  - replace (Z.max 1 a) with 1 by lia.
    destruct (Z.eq_dec a 0) as [->|Hne]; [reflexivity|].
    pose proof (number_of_Z_neg_signed a ltac:(lia)) as Hs.
    destruct (number_of_Z a) as [s|s| |s m e]; simpl in Hs; try contradiction;
      subst; reflexivity.
  - replace (Z.max 1 a) with a by lia.
    destruct (number_of_Z_exact a ltac:(lia)) as (m & e & E & Hv & Hu).
    rewrite E in *. unfold Math_max.
    rewrite (compare_ulps one (S754_finite false m e) eq_refl Hv I I), Hu.
    change (ulps one) with (units 1).
    destruct (Z.compare_spec (units 1) (units a)) as [Heq|Hlt|Hgt].
    + assert (a = 1).
      { pose proof (proj2 (units_le a 1) ltac:(lia)). lia. }
      subst a. rewrite <- E. reflexivity.
    + reflexivity.
    + apply (proj2 (units_lt _ _)) in Hgt. lia.
Qed.

Lemma Math_min_five_whole b :
  1 <= b < 2 ^ 53 -> Math_min five (number_of_Z b) = number_of_Z (Z.min 5 b).
Proof.
  intros Hb.
  destruct (number_of_Z_exact b ltac:(lia)) as (m & e & E & Hv & Hu).
  rewrite E in *. unfold Math_min.
  rewrite (compare_ulps five (S754_finite false m e) eq_refl Hv I I), Hu.
  change (ulps five) with (units 5).
  destruct (Z.compare_spec (units 5) (units b)) as [Heq|Hlt|Hgt].
  - assert (5 <= b) by (apply (proj2 (units_le _ _)); lia).
    replace (Z.min 5 b) with 5 by lia. reflexivity.
  - apply (proj2 (units_lt _ _)) in Hlt.
    replace (Z.min 5 b) with 5 by lia. reflexivity.
  - apply (proj2 (units_lt _ _)) in Hgt.
    replace (Z.min 5 b) with b by lia. symmetry. exact E.
Qed.

(** *** Comparison, minimum and maximum in general *)

Lemma SFcompare_refl x : x <> NaN -> SFcompare x x = Some Eq.
Proof.
  destruct x as [s|[|]| |[|] m e]; intros H; try reflexivity; try contradiction;
    cbn [SFcompare]; rewrite Z.compare_refl, Pos.compare_cont_refl; reflexivity.
Qed.

Lemma SFleb_refl x : x <> NaN -> SFleb x x = true.
Proof. intros H. unfold SFleb. rewrite SFcompare_refl by assumption. reflexivity. Qed.

Lemma Math_min_cases c y :
  c <> NaN -> y <> NaN ->
  Math_min c y = c \/ Math_min c y = y \/
  exists sc sy s, c = S754_zero sc /\ y = S754_zero sy /\ Math_min c y = S754_zero s.
Proof.
  intros Hc Hy. unfold Math_min.
  destruct (SFcompare c y) as [[ | | ]|] eqn:E; auto.
  - destruct c as [sc|sc| |sc mc ec]; destruct y as [sy|sy| |sy my ey];
      first [ left; reflexivity
            | right; right; do 3 eexists; repeat split; reflexivity ].
  - destruct (SFcompare_none _ _ E); contradiction.
Qed.

Lemma Math_max_cases c y :
  c <> NaN -> y <> NaN ->
  Math_max c y = c \/ Math_max c y = y \/
  exists sc sy s, c = S754_zero sc /\ y = S754_zero sy /\ Math_max c y = S754_zero s.
Proof.
  intros Hc Hy. unfold Math_max.
  destruct (SFcompare c y) as [[ | | ]|] eqn:E; auto.
  - destruct c as [sc|sc| |sc mc ec]; destruct y as [sy|sy| |sy my ey];
      first [ left; reflexivity
            | right; right; do 3 eexists; repeat split; reflexivity ].
  - destruct (SFcompare_none _ _ E); contradiction.
Qed.

Lemma Math_min_not_nan c y : c <> NaN -> y <> NaN -> Math_min c y <> NaN.
Proof.
  intros Hc Hy.
  destruct (Math_min_cases c y Hc Hy) as [->|[->|(sc & sy & s & _ & _ & ->)]];
    auto; discriminate.
Qed.

Lemma Math_max_not_nan c y : c <> NaN -> y <> NaN -> Math_max c y <> NaN.
Proof.
  intros Hc Hy.
  destruct (Math_max_cases c y Hc Hy) as [->|[->|(sc & sy & s & _ & _ & ->)]];
    auto; discriminate.
Qed.

(** [Math.min(c, y) <= c] and [Math.min(c, y) <= y]. *)
Lemma Math_min_le c y :
  c <> NaN -> y <> NaN ->
  SFleb (Math_min c y) c = true /\ SFleb (Math_min c y) y = true.
Proof.
  intros Hc Hy. unfold Math_min.
  pose proof (SFcompare_antisym c y) as Ha.
  destruct (SFcompare c y) as [[ | | ]|] eqn:E.
  - destruct c as [sc|sc| |sc mc ec]; destruct y as [sy|sy| |sy my ey];
      try contradiction;
      first [ split; reflexivity
            | split; [apply SFleb_refl; discriminate
                     | unfold SFleb; rewrite E; reflexivity] ].
  - split; [apply SFleb_refl; assumption | unfold SFleb; rewrite E; reflexivity].
  - split; [unfold SFleb; rewrite Ha; reflexivity | apply SFleb_refl; assumption].
  - destruct (SFcompare_none _ _ E); contradiction.
Qed.

(** [c <= Math.max(c, y)] and [y <= Math.max(c, y)]. *)
Lemma Math_max_ge c y :
  c <> NaN -> y <> NaN ->
  SFleb c (Math_max c y) = true /\ SFleb y (Math_max c y) = true.
Proof.
  intros Hc Hy. unfold Math_max.
  pose proof (SFcompare_antisym c y) as Ha.
  destruct (SFcompare c y) as [[ | | ]|] eqn:E.
  - destruct c as [sc|sc| |sc mc ec]; destruct y as [sy|sy| |sy my ey];
      try contradiction;
      first [ split; reflexivity
            | split; [apply SFleb_refl; discriminate
                     | unfold SFleb; rewrite Ha; reflexivity] ].
  - split; [unfold SFleb; rewrite E; reflexivity | apply SFleb_refl; assumption].
  - split; [apply SFleb_refl; assumption | unfold SFleb; rewrite Ha; reflexivity].
  - destruct (SFcompare_none _ _ E); contradiction.
Qed.

Lemma Math_round_not_nan x : x <> NaN -> Math_round x <> NaN.
Proof.
  intros Hx. destruct x as [s|s| |s m e]; try assumption.
  unfold Math_round. destruct (0 <=? e); [discriminate|].
  set (n := (cond_Zopp s (2 * Z.pos m) + 2 ^ (- e)) / 2 ^ (- e + 1)).
  pose proof (binary_normalize_signed n 0 s) as Hs.
  destruct (binary_normalize prec emax n 0 s); try discriminate. contradiction.
Qed.

(** *** Canonical representations are unique *)

Lemma ulps_inj x y :
  valid64 x = true -> valid64 y = true -> finite_nonneg x -> finite_nonneg y ->
  ulps x = ulps y ->
  x = y \/ exists sx sy, x = S754_zero sx /\ y = S754_zero sy.
Proof.
  intros Hx Hy Fx Fy Hu.
  pose proof (compare_ulps x y Hx Hy Fx Fy) as Hc.
  rewrite Hu, Z.compare_refl in Hc.
  destruct x as [sx| | |[|] mx ex]; try contradiction;
  destruct y as [sy| | |[|] my ey]; try contradiction; try discriminate.
  - right. eauto.
  - left. apply compare_finite_eq in Hc. destruct Hc as [-> ->]. reflexivity.
Qed.

(** *** Whole numbers *)

Lemma number_of_Z_whole n :
  0 <= n < 2 ^ 53 ->
  valid64 (number_of_Z n) = true /\ finite_nonneg (number_of_Z n) /\
  ulps (number_of_Z n) = units n.
Proof.
  intros Hn. destruct (Z.eq_dec n 0) as [->|Hne]; [repeat split|].
  destruct (number_of_Z_exact n ltac:(lia)) as (m & e & E & Hv & Hu).
  split; [assumption|]. split; [rewrite E; exact I | assumption].
Qed.

Lemma units_compare a b : (units a ?= units b) = (a ?= b).
Proof.
  destruct (Z.compare_spec a b) as [->|H|H].
  - apply Z.compare_refl.
  - apply Z.compare_lt_iff. apply (proj1 (units_lt _ _)). assumption.
  - apply Z.compare_gt_iff. apply (proj1 (units_lt _ _)). assumption.
Qed.

Lemma compare_whole a b :
  0 <= a < 2 ^ 53 -> 0 <= b < 2 ^ 53 ->
  SFcompare (number_of_Z a) (number_of_Z b) = Some (a ?= b).
Proof.
  intros Ha Hb.
  destruct (number_of_Z_whole a Ha) as (Hva & Hfa & Hua).
  destruct (number_of_Z_whole b Hb) as (Hvb & Hfb & Hub).
  rewrite compare_ulps by assumption. rewrite Hua, Hub, units_compare. reflexivity.
Qed.

(** A canonical non-negative number worth [n] units is the literal [n]. *)
Lemma whole_is_literal x n :
  valid64 x = true -> finite_nonneg x -> x <> S754_zero true ->
  0 <= n < 2 ^ 53 -> ulps x = units n -> x = number_of_Z n.
Proof.
  intros Hv Hf Hz Hn Hu.
  destruct (number_of_Z_whole n Hn) as (Hvn & Hfn & Hun).
  destruct (ulps_inj x (number_of_Z n) Hv Hvn Hf Hfn ltac:(congruence))
    as [?|(sx & sy & -> & E)]; [assumption|].
  destruct (Z.eq_dec n 0) as [->|Hne].
  - destruct sx; [contradiction | reflexivity].
  - destruct (number_of_Z_exact n ltac:(lia)) as (m & e & E' & _). congruence.
Qed.

(** *** Addition: exact sums and a lower bound *)

Lemma fadd_aligned mx ex my ey :
  - ebias <= ex -> - ebias <= ey ->
  exists M : positive,
    fadd (S754_finite false mx ex) (S754_finite false my ey)
    = binary_round prec emax false M (Z.min ex ey) /\
    Z.pos M * 2 ^ (Z.min ex ey + ebias)
    = ulps (S754_finite false mx ex) + ulps (S754_finite false my ey).
Proof.
  intros Hex Hey. set (ez := Z.min ex ey).
  exists (fst (shl_align mx ex ez) + fst (shl_align my ey ez))%positive.
  split; [reflexivity|].
  rewrite Pos2Z.inj_add, !shl_align_fst by (unfold ez; lia).
  cbn [ulps cond_Zopp]. rewrite Z.mul_add_distr_r.
  rewrite <- !Z.mul_assoc, <- !Z.pow_add_r by (unfold ez; lia).
  f_equal; f_equal; f_equal; lia.
Qed.

(** Sums of whole numbers below [2 ^ 53] are exact. *)
Lemma fadd_whole a b :
  0 <= a -> 0 <= b -> a + b < 2 ^ 53 ->
  fadd (number_of_Z a) (number_of_Z b) = number_of_Z (a + b).
Proof.
  intros Ha Hb Hab.
  destruct (Z.eq_dec a 0) as [->|Ha0].
  { rewrite Z.add_0_l. destruct (Z.eq_dec b 0) as [->|Hb0]; [reflexivity|].
    destruct (number_of_Z_exact b ltac:(lia)) as (my & ey & -> & _). reflexivity. }
  destruct (Z.eq_dec b 0) as [->|Hb0].
  { rewrite Z.add_0_r.
    destruct (number_of_Z_exact a ltac:(lia)) as (mx & ex & -> & _). reflexivity. }
  destruct (number_of_Z_exact a ltac:(lia)) as (mx & ex & Ea & Hva & Hua).
  destruct (number_of_Z_exact b ltac:(lia)) as (my & ey & Eb & Hvb & Hub).
  rewrite Ea, Eb in *.
  destruct (valid_finite_bounds _ _ _ Hva) as (Hex & _).
  destruct (valid_finite_bounds _ _ _ Hvb) as (Hey & _).
  destruct (fadd_aligned mx ex my ey) as (M & -> & HM); try lia.
  rewrite Hua, Hub in HM.
  assert (HMu : Z.pos M * 2 ^ (Z.min ex ey + ebias) = units (a + b))
    by (rewrite HM; unfold units; ring).
  destruct (binary_round_exact false M (Z.min ex ey) 0) as [Hv Hu].
  - lia.
  - unfold ebias; lia.
  - rewrite HMu. apply Z.divide_factor_r.
  - rewrite HMu. replace (53 + 0 + ebias) with (53 + ebias) by lia.
    rewrite <- (units_pow 53) by lia. apply (proj1 (units_lt _ _)). assumption.
  - rewrite HMu. rewrite <- (units_pow 1024) by lia. apply (proj1 (units_lt _ _)).
    apply Z.lt_trans with (1 := Hab). vm_compute. reflexivity.
  - cbn [cond_Zopp] in Hu. rewrite HMu in Hu.
    pose proof (binary_round_signed false M (Z.min ex ey)) as Hs.
    destruct (signed_false_ulps_pos _ Hs) as (m & e & E).
    { rewrite Hu. unfold units. pose proof ebias_pow_pos. nia. }
    rewrite E in *.
    apply whole_is_literal; try assumption; try exact I; try discriminate; lia.
Qed.

(** What [binary_round] keeps of a mantissa that is shifted right: at least
    the integer part. *)
Lemma binary_round_floor s m e :
  let e1 := fexp64 (Zdigits2 (Z.pos m) + e) in
  exists m2,
    0 <= m2 <= 2 ^ 53 /\
    (e1 <= e -> m2 = Z.pos m * 2 ^ (e - e1)) /\
    (e <= e1 -> Z.pos m / 2 ^ (e1 - e) <= m2) /\
    binary_round prec emax s m e = finalize s m2 e1.
Proof.
  intros e1. unfold binary_round. rewrite fexp_fexp64.
  change (Z.pos (digits2_pos m)) with (Zdigits2 (Z.pos m)). fold e1.
  pose proof (shl_align_spec m e e1) as Hal.
  destruct (shl_align m e e1) as [mz ez]. destruct Hal as [Hez Hmz].
  assert (Hdz : Zdigits2 (Z.pos mz) + ez = Zdigits2 (Z.pos m) + e).
  { rewrite Hmz, digits_shift by lia. lia. }
  destruct (binary_round_aux_shape s (Z.pos mz) ez loc_Exact) as
    (m2 & Hb & Hex & Hhi & _ & _ & Hr); [lia | rewrite Hdz; fold e1; lia |].
  rewrite Hdz in *. fold e1 in Hb, Hex, Hr.
  pose proof (pow2_pos (e1 - ez) ltac:(lia)) as Hp.
  assert (0 <= Z.pos mz / 2 ^ (e1 - ez)) by (apply Z.div_pos; lia).
  exists m2. split; [lia|]. split; [|split; [|assumption]].
  - intros Hle. assert (Hz : e1 - ez = 0) by lia.
    rewrite Hz in *. change (2 ^ 0) with 1 in *. rewrite Z.div_1_r in *.
    rewrite Hex; [| reflexivity | exists (Z.pos mz); lia].
    rewrite Hmz. f_equal. f_equal. lia.
  - intros Hle. assert (Hz : e - ez = 0) by lia.
    rewrite Hz in *. change (2 ^ 0) with 1 in *. rewrite Z.mul_1_r in *.
    assert (Hee : ez = e) by lia. rewrite Hee, Hmz in *. lia.
Qed.

(** Rounding a mantissa never goes below a canonical number that the exact
    value reaches. *)
Lemma binary_round_ge mx ex M e :
  valid64 (S754_finite false mx ex) = true -> - ebias <= e ->
  Z.pos mx * 2 ^ (ex + ebias) <= Z.pos M * 2 ^ (e + ebias) ->
  SFleb (S754_finite false mx ex) (binary_round prec emax false M e) = true.
Proof.
  intros Hv He Hle.
  destruct (valid_finite_iff false mx ex) as [Hcan _]. destruct (Hcan Hv) as [Hfx Hex971].
  destruct (valid_finite_bounds _ _ _ Hv) as (Hex & Hmx & _).
  destruct (binary_round_floor false M e) as (m2 & Hb & Hshl & Hshr & Hr).
  set (e1 := fexp64 (Zdigits2 (Z.pos M) + e)) in *.
  pose proof (binary_round_valid false M e) as Hval.
  pose proof (binary_round_signed false M e) as Hsg.
  assert (Hdig : Zdigits2 (Z.pos mx) + ex <= Zdigits2 (Z.pos M) + e).
  { assert (H1 : Zdigits2 (Z.pos mx * 2 ^ (ex + ebias))
                 <= Zdigits2 (Z.pos M * 2 ^ (e + ebias))).
    { apply digits_le; [|assumption].
      pose proof (pow2_pos (ex + ebias) ltac:(lia)). nia. }
    rewrite !digits_of_units in H1 by lia. lia. }
  assert (He1 : ex <= e1 /\ - ebias <= e1).
  { unfold e1, fexp64 in *. lia. }
  assert (Hkey : Z.pos mx * 2 ^ (ex + ebias) <= m2 * 2 ^ (e1 + ebias)).
  { destruct (Z_le_gt_dec e1 e) as [Hcase|Hcase].
    - rewrite Hshl by assumption.
      rewrite <- Z.mul_assoc, <- Z.pow_add_r by lia.
      replace (e - e1 + (e1 + ebias)) with (e + ebias) by lia. assumption.
    - specialize (Hshr ltac:(lia)).
      pose proof (pow2_pos (e1 - e) ltac:(lia)) as Hpk.
      pose proof (pow2_pos (e1 + ebias) ltac:(lia)) as Hp1.
      pose proof (pow2_pos (e + ebias) ltac:(lia)) as Hpe.
      apply Z.le_trans with (Z.pos M / 2 ^ (e1 - e) * 2 ^ (e1 + ebias)); [|nia].
      assert (Hgrid : 2 ^ (e1 + ebias) = 2 ^ (e1 - e) * 2 ^ (e + ebias)).
      { rewrite <- Z.pow_add_r by lia. f_equal. lia. }
      destruct (Z.eq_dec e1 ex) as [Heq|Hne].
      + (* same exponent: the number is on the grid *)
        assert (Hx : Z.pos mx * 2 ^ (e1 - e) <= Z.pos M).
        { apply Z.mul_le_mono_pos_r with (p := 2 ^ (e + ebias)); [lia|].
          rewrite <- Z.mul_assoc, <- Hgrid, Heq. assumption. }
        assert (Z.pos mx <= Z.pos M / 2 ^ (e1 - e))
          by (apply Z.div_le_lower_bound; lia).
        rewrite <- Heq. apply Z.mul_le_mono_nonneg_r; lia.
      + (* larger exponent: the number is below the binade of the value *)
        assert (Hnorm : e1 = Zdigits2 (Z.pos M) + e - 53)
          by (unfold e1, fexp64 in *; lia).
        destruct (digits_bounds (Z.pos M) ltac:(lia)) as [HMlo _].
        destruct (digits_bounds (Z.pos mx) ltac:(lia)) as [_ Hxhi].
        assert (Hd53 : Zdigits2 (Z.pos mx) + ex < Zdigits2 (Z.pos M) + e)
          by (unfold fexp64 in Hfx; lia).
        pose proof (digits_pos (Z.pos M) ltac:(lia)) as HdM.
        pose proof (digits_pos (Z.pos mx) ltac:(lia)) as Hdx.
        assert (Hfloor : 2 ^ 52 <= Z.pos M / 2 ^ (e1 - e)).
        { apply Z.div_le_lower_bound; [lia|].
          rewrite <- Z.pow_add_r by lia.
          replace (e1 - e + 52) with (Zdigits2 (Z.pos M) - 1) by lia. assumption. }
        apply Z.le_trans with (2 ^ 52 * 2 ^ (e1 + ebias)); [|nia].
        rewrite <- Z.pow_add_r by lia.
        apply Z.le_trans with (2 ^ (Zdigits2 (Z.pos mx) + (ex + ebias))).
        * rewrite (Z.pow_add_r 2 (Zdigits2 (Z.pos mx)) (ex + ebias)) by lia.
          apply Z.mul_le_mono_nonneg_r; lia.
        * apply Z.pow_le_mono_r; lia. }
  rewrite Hr in *.
  destruct (finalize_ulps false m2 e1 Hb ltac:(lia)) as [Hinf|Hul].
  - rewrite Hinf. reflexivity.
  - cbn [cond_Zopp] in Hul.
    assert (Hpos : 0 < ulps (finalize false m2 e1)).
    { rewrite Hul. apply Z.lt_le_trans with (2 := Hkey).
      pose proof (pow2_pos (ex + ebias) ltac:(lia)). nia. }
    destruct (signed_false_ulps_pos _ Hsg Hpos) as (m' & e' & E).
    rewrite E in *.
    apply (proj2 (leb_ulps _ _ Hv Hval I I)).
    rewrite Hul. exact Hkey.
Qed.

(** Adding a non-negative number never gives less. *)
Lemma fadd_ge_left v a :
  valid64 v = true -> valid64 a = true -> finite_nonneg v -> nonneg a ->
  SFleb v (fadd v a) = true.
Proof.
  intros Hv Ha Fv Na.
  destruct v as [sv| | |[|] mx ex]; try contradiction;
  destruct a as [sa|sa| |sa my ey]; simpl in Na; try contradiction; subst;
    try reflexivity.
  - destruct sv, sa; reflexivity.
  - apply SFleb_refl. discriminate.
  - destruct (valid_finite_bounds _ _ _ Hv) as (Hex & _).
    destruct (valid_finite_bounds _ _ _ Ha) as (Hey & _).
    destruct (fadd_aligned mx ex my ey) as (M & -> & HM); try lia.
    apply binary_round_ge; [assumption | lia |].
    rewrite HM. pose proof (ulps_finite_pos my ey ltac:(lia)).
    cbn [ulps cond_Zopp] in *. lia.
Qed.

(** *** Rounding a score to a whole percentage *)

(** [Math.round] of a canonical number [v] in [0, 100]: the whole number
    [n] with [n - 1/2 <= v < n + 1/2], between 0 and 100. *)
Lemma Math_round_score v :
  valid64 v = true -> finite_nonneg v -> ulps v <= units 100 ->
  exists n : Z,
    0 <= n <= 100 /\
    (Math_round v = number_of_Z n \/ (n = 0 /\ Math_round v = S754_zero true)) /\
    units (2 * n - 1) <= 2 * ulps v < units (2 * n + 1).
Proof.
  intros Hv Hf H100. pose proof ebias_pow_pos as Hpe.
  destruct v as [[|]| | |[|] m e]; try contradiction.
  - exists 0. split; [lia|]. split; [right; auto|]. unfold units. simpl ulps. lia.
  - exists 0. split; [lia|]. split; [left; reflexivity|]. unfold units. simpl ulps. lia.
  - destruct (valid_finite_bounds _ _ _ Hv) as (He & Hm & Hn).
    pose proof (exponent_le_100 m e Hv H100) as He0.
    assert (Hneg : e < 0).
    { destruct (Z.eq_dec e 0) as [->|]; [exfalso|lia].
      destruct Hn as [Hn|Hn]; [unfold ebias in Hn; lia|].
      cbn [ulps cond_Zopp] in H100. unfold units in H100.
      replace (0 + ebias) with ebias in H100 by lia.
      assert (2 ^ 52 * 2 ^ ebias <= 100 * 2 ^ ebias) by nia.
      assert (2 ^ 52 <= 100) by nia. vm_compute in H0. apply H0. reflexivity. }
    set (k := - e). assert (Hk : 0 < k <= ebias) by (unfold k; lia).
    set (A := 2 ^ k). set (P := 2 ^ (ebias - k)).
    assert (HA : 0 < A) by (apply pow2_pos; lia).
    assert (HP : 0 < P) by (apply pow2_pos; lia).
    assert (HAP : 2 ^ ebias = A * P).
    { unfold A, P. rewrite <- Z.pow_add_r by lia. f_equal. lia. }
    assert (Hu : ulps (S754_finite false m e) = Z.pos m * P).
    { cbn [ulps cond_Zopp]. unfold P. f_equal. f_equal. unfold k. lia. }
    set (n := (2 * Z.pos m + A) / (2 * A)).
    assert (Hround : Math_round (S754_finite false m e) = number_of_Z n).
    { unfold Math_round. destruct (Z.leb_spec 0 e); [lia|].
      cbn [cond_Zopp]. unfold number_of_Z, n, A. fold k.
      replace (2 ^ (k + 1)) with (2 * 2 ^ k); [reflexivity|].
      rewrite Z.pow_add_r by lia. simpl (2 ^ 1). ring. }
    assert (Hlo : (2 * A) * n <= 2 * Z.pos m + A)
      by (apply Z.mul_div_le; lia).
    assert (Hhi : 2 * Z.pos m + A < (2 * A) * Z.succ n)
      by (apply Z.mul_succ_div_gt; lia).
    assert (Hn0 : 0 <= n) by (apply Z.div_pos; lia).
    assert (H1 : units (2 * n - 1) <= 2 * ulps (S754_finite false m e)).
    { rewrite Hu. unfold units. rewrite HAP.
      replace ((2 * n - 1) * (A * P)) with (((2 * A) * n - A) * P) by ring.
      replace (2 * (Z.pos m * P)) with ((2 * Z.pos m) * P) by ring.
      apply Z.mul_le_mono_nonneg_r; lia. }
    assert (H2 : 2 * ulps (S754_finite false m e) < units (2 * n + 1)).
    { rewrite Hu. unfold units. rewrite HAP.
      replace ((2 * n + 1) * (A * P)) with (((2 * A) * Z.succ n - A) * P) by ring.
      replace (2 * (Z.pos m * P)) with ((2 * Z.pos m) * P) by ring.
      apply Z.mul_lt_mono_pos_r; lia. }
    exists n. split; [|split; [left; assumption | split; assumption]].
    split; [assumption|].
    assert (units (2 * n - 1) <= units 200).
    { apply Z.le_trans with (1 := H1). unfold units in *. lia. }
    apply (proj2 (units_le _ _)) in H. lia.
Qed.

(** *** Whole numbers, signs and nearly exact sums *)

Lemma literal_of_integer m e :
  valid64 (S754_finite false m e) = true -> 0 <= e ->
  number_of_Z (Z.pos m * 2 ^ e) = S754_finite false m e.
Proof.
  intros Hv He. pose proof ebias_pow_pos as Hpe.
  destruct (valid_finite_bounds _ _ _ Hv) as (Hex & Hm & _).
  assert (Hp : 0 < 2 ^ e) by (apply pow2_pos; lia).
  assert (Hpos : 0 < Z.pos m * 2 ^ e) by lia.
  destruct (Z.pos m * 2 ^ e) as [|p|p] eqn:Ep; try lia.
  change (number_of_Z (Z.pos p)) with (binary_round prec emax false p 0).
  assert (Hval : Z.pos p * 2 ^ (0 + ebias) = Z.pos m * 2 ^ (e + ebias)).
  { rewrite <- Ep, Z.add_0_l, (Z.pow_add_r 2 e ebias) by (unfold ebias; lia). ring. }
  destruct (binary_round_exact false p 0 e) as [Hv' Hu'].
  - unfold ebias; lia.
  - lia.
  - rewrite Hval. exists (Z.pos m). reflexivity.
  - rewrite Hval. replace (53 + e + ebias) with (53 + (e + ebias)) by lia. rewrite (Z.pow_add_r 2 53 (e + ebias)) by lia.
    apply Z.mul_lt_mono_pos_r; [apply pow2_pos; lia | assumption].
  - rewrite Hval. apply Z.lt_le_trans with (2 ^ 53 * 2 ^ (e + ebias)).
    + apply Z.mul_lt_mono_pos_r; [apply pow2_pos; lia | assumption].
    + rewrite <- Z.pow_add_r by lia. apply Z.pow_le_mono_r; lia.
  - cbn [cond_Zopp] in Hu'. rewrite Hval in Hu'.
    pose proof (binary_round_signed false p 0) as Hs.
    destruct (signed_false_ulps_pos _ Hs) as (m' & e' & E).
    { rewrite Hu'. apply Z.mul_pos_pos; [lia | apply pow2_pos; lia]. }
    rewrite E in *.
    destruct (ulps_inj (S754_finite false m' e') (S754_finite false m e)
                Hv' Hv I I Hu') as [?|(sx & sy & Ex & _)];
      [assumption | discriminate Ex].
Qed.

Lemma infinity_is_literal : number_of_Z (2 ^ 1024) = S754_infinity false.
Proof. vm_compute. reflexivity. Qed.

Lemma Math_round_is_whole x :
  valid64 x = true -> signed false x ->
  exists j : Z, 0 <= j /\ Math_round x = number_of_Z j.
Proof.
  intros Hv Hs.
  destruct x as [s|s| |s m e]; cbn [signed] in Hs; try contradiction; subst s.
  - exists 0. split; [lia | reflexivity].
  - exists (2 ^ 1024). split; [apply Z.pow_nonneg; lia|].
    rewrite infinity_is_literal. reflexivity.
  - cbn [Math_round]. destruct (Z.leb_spec 0 e) as [He|He].
    + exists (Z.pos m * 2 ^ e). split.
      * apply Z.mul_nonneg_nonneg; [lia | apply Z.pow_nonneg; lia].
      * symmetry. apply literal_of_integer; assumption.
    + cbn [cond_Zopp].
      exists ((2 * Z.pos m + 2 ^ (- e)) / 2 ^ (- e + 1)). split; [|reflexivity].
      apply Z.div_pos.
      * pose proof (Z.pow_nonneg 2 (- e) ltac:(lia)). lia.
      * apply pow2_pos. lia.
Qed.

Lemma fmul_signed x y :
  valid64 x = true -> valid64 y = true -> signed false x -> signed false y ->
  finite_number x \/ finite_number y ->
  signed false (fmul x y).
Proof.
  intros Hx Hy Sx Sy Hfin.
  destruct x as [sx|sx| |sx mx ex]; cbn [signed] in Sx; try contradiction;
  destruct y as [sy|sy| |sy my ey]; cbn [signed] in Sy; try contradiction;
    subst; try reflexivity;
    try (solve [destruct Hfin as [[]|[]]]).
  unfold fmul, SFmul. cbn [xorb].
  pose proof (mul_canonical_exponent _ _ _ _ _ _ Hx Hy) as Hpre.
  destruct (binary_round_aux_shape false (Z.pos (mx * my)) (ex + ey) loc_Exact
              ltac:(lia) Hpre) as (m2 & Hb & _ & Hhi & Hn & _ & ->).
  apply finalize_signed.
  apply Z.le_trans with (2 := proj1 Hb). apply Z.div_pos; [lia|].
  apply pow2_pos. lia.
Qed.

Lemma fadd_signed x y :
  signed false x -> signed false y -> signed false (fadd x y).
Proof.
  intros Sx Sy.
  destruct x as [sx|sx| |sx mx ex]; cbn [signed] in Sx; try contradiction;
  destruct y as [sy|sy| |sy my ey]; cbn [signed] in Sy; try contradiction;
    subst; try reflexivity.
  unfold fadd, SFadd. cbn [cond_Zopp].
  apply binary_normalize_pos. lia.
Qed.

Lemma number_of_Z_signed n : 0 <= n -> signed false (number_of_Z n).
Proof.
  intros Hn. destruct n as [|p|p]; try lia; [reflexivity|].
  apply binary_normalize_pos. lia.
Qed.

(** What [binary_round] makes of the value [M * 2 ^ e]: a mantissa [m2] on
    the grid of the result's exponent, next to the value on either side, and
    the value itself when it is on the grid. *)
Lemma binary_round_between s M e :
  - ebias <= e ->
  let e1 := fexp64 (Zdigits2 (Z.pos M) + e) in
  exists q m2,
    q * 2 ^ (e1 + ebias) <= Z.pos M * 2 ^ (e + ebias) < (q + 1) * 2 ^ (e1 + ebias) /\
    q <= m2 <= q + 1 /\
    (Z.pos M * 2 ^ (e + ebias) = q * 2 ^ (e1 + ebias) -> m2 = q) /\
    0 <= m2 <= 2 ^ 53 /\ (e1 = - ebias \/ 2 ^ 52 <= m2) /\
    binary_round prec emax s M e = finalize s m2 e1.
Proof.
  intros He e1. unfold binary_round. rewrite fexp_fexp64.
  change (Z.pos (digits2_pos M)) with (Zdigits2 (Z.pos M)). fold e1.
  pose proof (shl_align_spec M e e1) as Hal.
  destruct (shl_align M e e1) as [mz ez]. destruct Hal as [Hez Hmz].
  assert (Hdz : Zdigits2 (Z.pos mz) + ez = Zdigits2 (Z.pos M) + e).
  { rewrite Hmz, digits_shift by lia. lia. }
  assert (He1 : - ebias <= e1) by (unfold e1, fexp64; lia).
  destruct (binary_round_aux_shape s (Z.pos mz) ez loc_Exact) as
    (m2 & Hb & Hex & Hhi & Hn & _ & Hr); [lia | rewrite Hdz; fold e1; lia |].
  rewrite Hdz in *. fold e1 in Hb, Hex, Hr, Hn.
  pose proof (pow2_pos (e1 - ez) ltac:(lia)) as Hp.
  pose proof (pow2_pos (ez + ebias) ltac:(lia)) as Hpz.
  set (q := Z.pos mz / 2 ^ (e1 - ez)) in *.
  assert (Hq0 : 0 <= q) by (apply Z.div_pos; lia).
  assert (Hval : Z.pos M * 2 ^ (e + ebias) = Z.pos mz * 2 ^ (ez + ebias)).
  { rewrite Hmz, <- Z.mul_assoc, <- Z.pow_add_r by lia. f_equal. f_equal. lia. }
  assert (Hstep : 2 ^ (e1 + ebias) = 2 ^ (e1 - ez) * 2 ^ (ez + ebias)).
  { rewrite <- Z.pow_add_r by lia. f_equal. lia. }
  pose proof (Z.mul_div_le (Z.pos mz) (2 ^ (e1 - ez)) Hp) as Hd1.
  pose proof (Z.mul_succ_div_gt (Z.pos mz) (2 ^ (e1 - ez)) Hp) as Hd2.
  fold q in Hd1, Hd2.
  exists q, m2. rewrite Hval, Hstep.
  split; [|split; [assumption|split; [|split; [lia|split; assumption]]]].
  - rewrite !Z.mul_assoc. split.
    + apply Z.mul_le_mono_nonneg_r; lia.
    + apply Z.mul_lt_mono_pos_r; lia.
  - intros E. rewrite Z.mul_assoc in E.
    apply Z.mul_cancel_r in E; [|lia].
    apply Hex; [reflexivity|]. exists q. lia.
Qed.

(** Adding a whole number to a score, when the exact sum is at most 100:
    the binary64 sum is at most 100 and within [2 ^ -46] of the exact sum. *)
Lemma fadd_score_near v j :
  valid64 v = true -> finite_nonneg v -> 0 <= j ->
  ulps v + units j <= units 100 ->
  valid64 (fadd v (number_of_Z j)) = true /\
  finite_nonneg (fadd v (number_of_Z j)) /\
  SFleb (fadd v (number_of_Z j)) hundred = true /\
  Z.abs (ulps (fadd v (number_of_Z j)) - (ulps v + units j)) <= 2 ^ (ebias - 46).
Proof.
  intros Hv Hf Hj Hsum. pose proof ebias_pow_pos as Hpe.
  pose proof (ulps_finite_nonneg v Hf) as Hv0.
  destruct hundred_facts as (Hvh & Hfh & Huh).
  assert (Hj100 : j <= 100) by (apply (proj2 (units_le _ _)); lia).
  assert (Hj53 : 0 <= j < 2 ^ 53).
  { split; [lia|]. apply Z.le_lt_trans with 100; [lia | reflexivity]. }
  destruct (number_of_Z_whole j Hj53) as (Hva & Hfa & Hua).
  assert (Hpow : 0 <= 2 ^ (ebias - 46)) by (apply Z.pow_nonneg; lia).
  assert (Hexact : forall z, valid64 z = true -> finite_nonneg z ->
                     ulps z = ulps v + units j ->
                     valid64 z = true /\ finite_nonneg z /\
                     SFleb z hundred = true /\
                     Z.abs (ulps z - (ulps v + units j)) <= 2 ^ (ebias - 46)).
  { intros z Hvz Hfz Huz. split; [assumption|]. split; [assumption|]. split.
    - apply (proj2 (leb_ulps _ _ Hvz Hvh Hfz Hfh)). lia.
    - rewrite Huz, Z.sub_diag. cbn [Z.abs]. lia. }
  destruct v as [sv| | |[|] mx ex]; try contradiction;
    destruct (number_of_Z j) as [sa|sa| |[|] my ey] eqn:Ea; try contradiction.
  - (* both zero *)
    apply Hexact.
    + destruct sv, sa; reflexivity.
    + destruct sv, sa; exact I.
    + rewrite <- Hua. destruct sv, sa; reflexivity.
  - apply (Hexact (S754_finite false my ey)); [assumption | exact I |].
    rewrite <- Hua. cbn [ulps]. lia.
  - apply (Hexact (S754_finite false mx ex)); [assumption | exact I |].
    rewrite <- Hua. cbn [ulps]. lia.
  - destruct (valid_finite_bounds _ _ _ Hv) as (Hex & _).
    destruct (valid_finite_bounds _ _ _ Hva) as (Hey & _).
    destruct (fadd_aligned mx ex my ey) as (M & -> & HM); try lia.
    rewrite Hua in HM.
    set (S := ulps (S754_finite false mx ex) + units j) in *.
    set (e := Z.min ex ey) in *.
    destruct (binary_round_between false M e ltac:(unfold e; lia))
      as (q & m2 & Hq & Hm2 & Hon & Hb & Hn & ->).
    set (e1 := fexp64 (Zdigits2 (Z.pos M) + e)) in *.
    rewrite HM in Hq, Hon.
    (* the exponent of the result *)
    assert (Hdig : Zdigits2 (Z.pos M) + e <= 7).
    { assert (H1 : Zdigits2 (Z.pos M * 2 ^ (e + ebias)) <= Zdigits2 (2 ^ (7 + ebias) - 1)).
      { apply digits_le.
        - apply Z.mul_pos_pos; [lia | apply pow2_pos; unfold e; lia].
        - rewrite HM. apply Z.le_trans with (units 100); [assumption|].
          vm_compute. discriminate. }
      rewrite digits_of_units in H1 by (unfold e; lia).
      replace (Zdigits2 (2 ^ (7 + ebias) - 1)) with (7 + ebias) in H1
        by (vm_compute; reflexivity).
      lia. }
    assert (He1 : - ebias <= e1 <= - 46) by (unfold e1, fexp64, ebias in *; lia).
    set (step := 2 ^ (e1 + ebias)) in *.
    assert (Hstep : 0 < step) by (apply pow2_pos; lia).
    assert (Hgrid : units 100 = (100 * 2 ^ (- e1)) * step).
    { unfold units, step. rewrite <- Z.mul_assoc, <- Z.pow_add_r by lia.
      f_equal. f_equal. lia. }
    assert (Hle : m2 * step <= units 100).
    { rewrite Hgrid. apply Z.mul_le_mono_nonneg_r; [lia|].
      destruct (Z.eq_dec S (q * step)) as [Eq|Hne].
      - rewrite (Hon Eq).
        apply Z.mul_le_mono_pos_r with (p := step); [assumption|].
        rewrite <- Hgrid, <- Eq. assumption.
      - assert (q * step < 100 * 2 ^ (- e1) * step) by (rewrite <- Hgrid; lia).
        apply Z.mul_lt_mono_pos_r in H; lia. }
    assert (Hstep46 : step <= 2 ^ (ebias - 46)).
    { unfold step. apply Z.pow_le_mono_r; lia. }
    assert (Hu : ulps (finalize false m2 e1) = m2 * step).
    { rewrite finalize_finite; try lia; [reflexivity|].
      apply Z.le_lt_trans with (units 100); [assumption|]. vm_compute. reflexivity. }
    assert (Hfin : finite_nonneg (finalize false m2 e1)).
    { unfold finalize.
      destruct (Z.eqb_spec m2 0); [exact I|].
      destruct (Z.eqb_spec m2 (2 ^ 53)).
      - destruct (Z.leb_spec (e1 + 1) 971); [exact I | lia].
      - destruct (Z.leb_spec e1 971); [exact I | lia]. }
    assert (Hval : valid64 (finalize false m2 e1) = true)
      by (apply finalize_valid; lia).
    split; [assumption|]. split; [assumption|]. split.
    + apply (proj2 (leb_ulps _ _ Hval Hvh Hfin Hfh)). lia.
    + rewrite Hu. apply Z.abs_le. nia.
Qed.

End Float64Facts.

Import Float64Facts.

(** * Properties of the program *)

(** *** Scores and states *)

Lemma well_formed_get s g : well_formed s -> score_ok (get s g).
Proof. intros H. destruct (H g) as (v & E & Hv). unfold get. rewrite E. exact Hv. Qed.

Lemma well_formed_in_range s : well_formed s -> in_range s.
Proof. intros H g. destruct (well_formed_get s g H) as (_ & ? & ?). auto. Qed.

Lemma score_ok_shape v :
  score_ok v ->
  valid64 v = true /\ finite_nonneg v /\ ulps v <= units 100.
Proof.
  intros (Hv & H0 & H100).
  destruct hundred_facts as (Hvh & Hfh & Huh).
  assert (Hf : finite_nonneg v).
  { apply leb_zero_nonneg in H0.
    destruct v as [s|[|]| |[|] m e]; simpl in H0; try discriminate;
      try contradiction; exact I. }
  split; [assumption|]. split; [assumption|].
  rewrite <- Huh. apply leb_ulps; assumption.
Qed.

(** *** Reading the results of the two updaters *)

(** Membership in one of the literal lists of the table. *)
Ltac absurd_member H :=
  exfalso;
  repeat (apply elem_of_cons in H as [H|H]; [discriminate H|]);
  apply elem_of_nil in H; exact H.

Ltac listed :=
  first [ apply list_elem_of_here
        | apply list_elem_of_further; listed ].

Ltac map_simpl :=
  unfold get;
  repeat first [ rewrite lookup_insert_eq
               | rewrite lookup_insert_ne by discriminate ].

Lemma decayBy_lookup rate days prev g :
  decayBy rate days prev !! g
  = Some (Math_max zero (fsub (get prev g) (fmul rate days))).
Proof.
  unfold decayBy, MUSCLES. cbn [foldl key].
  destruct g; map_simpl; reflexivity.
Qed.

Lemma applySession_target session prev :
  applySession session prev !! muscle session
  = Some (Math_min hundred (fadd (get prev (muscle session)) (sessionDelta session))).
Proof.
  unfold applySession, synergists.
  destruct (muscle session); cbn [neighbors foldl]; map_simpl; reflexivity.
Qed.

Lemma applySession_synergist session prev n :
  n ∈ synergists (muscle session) ->
  applySession session prev !! n
  = Some (Math_min hundred (fadd (get prev n) (sessionSpill session))).
Proof.
  unfold applySession, synergists.
  destruct (muscle session); cbn [neighbors foldl]; intros Hn;
    destruct n; try (absurd_member Hn); map_simpl; reflexivity.
Qed.

Lemma applySession_other session prev g :
  g <> muscle session -> g ∉ synergists (muscle session) ->
  applySession session prev !! g = prev !! g.
Proof.
  unfold applySession, synergists.
  destruct (muscle session); cbn [neighbors foldl]; intros Hg Hn;
    destruct g; try congruence; try (exfalso; apply Hn; listed); map_simpl; reflexivity.
Qed.

Lemma synergists_not_self k : k ∉ synergists k.
Proof. destruct k; unfold synergists; cbn [neighbors]; intros H; absurd_member H. Qed.

(** *** Preservation of the invariant *)

Lemma initFatigue_lookup g : initFatigue !! g = Some zero.
Proof. destruct g; reflexivity. Qed.

Lemma zero_score_ok : score_ok zero.
Proof. repeat split. Qed.

Lemma initFatigue_well_formed : well_formed initFatigue.
Proof. intros g. exists zero. split; [apply initFatigue_lookup | apply zero_score_ok]. Qed.

(** One score after [n >= 1] days: still a score, and exactly
    [max 0 (v - 18 n)] as a real number. *)
Lemma decay_score v n :
  score_ok v -> 1 <= n ->
  let v' := Math_max zero (fsub v (fmul DECAY_PER_DAY (number_of_Z n))) in
  score_ok v' /\ ulps v' = Z.max 0 (ulps v - units (18 * n)).
Proof.
  intros Hok Hn v'.
  destruct (score_ok_shape v Hok) as (Hv & Hf & H100).
  pose proof (ulps_finite_nonneg v Hf) as Hv0.
  assert (Hzero : forall y,
            (y = S754_infinity false \/
             exists my ey, y = S754_finite false my ey /\ valid64 y = true /\
                           ulps v <= ulps y) ->
            ulps v <= units (18 * n) ->
            score_ok (Math_max zero (fsub v y)) /\
            ulps (Math_max zero (fsub v y)) = Z.max 0 (ulps v - units (18 * n))).
  { intros y Hy Hle. rewrite (decay_step_zero v y Hv Hf Hy).
    split; [apply zero_score_ok | simpl; lia]. }
  assert (H18 : 100 < 18 * n -> ulps v <= units (18 * n)).
  { intros H. apply Z.le_trans with (1 := H100).
    apply (proj1 (units_le _ _)). lia. }
  unfold v'. change DECAY_PER_DAY with (number_of_Z 18).
  destruct (rate_times_days n Hn) as [[-> Hbig]|(my & ey & Ey & Hy & Hu)].
  - apply Hzero; auto.
  - rewrite Ey in *.
    destruct Hu as [Hu|[Hu Hbig]].
    + destruct (Z_lt_le_dec (ulps (S754_finite false my ey)) (ulps v)) as [Hlt|Hle].
      * destruct (valid_finite_bounds _ _ _ Hy) as (Hey & _).
        pose proof (ulps_finite_pos my ey ltac:(lia)) as Hypos.
        destruct v as [s| | |[|] mx ex]; try contradiction; try (simpl in Hlt; lia).
        destruct (decay_step_exact mx ex my ey (18 * n) Hv Hy H100 Hu Hlt)
          as (m & e & E & Hvr & Hur).
        rewrite E in *. rewrite Math_max_zero_pos.
        split.
        -- split; [assumption|]. split; [reflexivity|].
           destruct hundred_facts as (Hvh & Hfh & Huh).
           apply (proj2 (leb_ulps _ _ Hvr Hvh I Hfh)). lia.
        -- rewrite Hur, Hu. lia.
      * apply Hzero; [right; exists my, ey; auto | lia].
    + apply Hzero; [right; exists my, ey; repeat split; auto; lia | auto].
Qed.

Lemma decay_lookup n s g :
  decay (number_of_Z n) s !! g =
  if 0 <? n
  then Some (Math_max zero (fsub (get s g) (fmul DECAY_PER_DAY (number_of_Z n))))
  else s !! g.
Proof.
  unfold decay, decayIfDue. rewrite number_of_Z_gtb.
  destruct (0 <? n); [apply decayBy_lookup | reflexivity].
Qed.

Lemma decay_well_formed n s : well_formed s -> well_formed (decay (number_of_Z n) s).
Proof.
  intros Hs g. rewrite decay_lookup.
  destruct (Z.ltb_spec 0 n) as [Hn|Hn]; [|apply Hs].
  eexists. split; [reflexivity|].
  apply decay_score; [apply well_formed_get; assumption | lia].
Qed.

(** The two amounts of a valid session are canonical and not negative
    (they may be +infinity for an absurdly long session). *)
Lemma session_amounts session :
  valid_session session ->
  (valid64 (sessionDelta session) = true /\ nonneg (sessionDelta session)) /\
  (valid64 (sessionSpill session) = true /\ nonneg (sessionSpill session)).
Proof.
  intros [(n & Hn & Em) (l & Hl & El)].
  unfold sessionSpill, sessionDelta. rewrite Em, El.
  assert (Hc : valid64 (fmul LOAD_FACTOR (number_of_Z l)) = true /\
               nonneg (fmul LOAD_FACTOR (number_of_Z l)) /\
               finite_number (fmul LOAD_FACTOR (number_of_Z l))).
  { assert (Hcases : l = 1 \/ l = 2 \/ l = 3 \/ l = 4 \/ l = 5) by lia.
    destruct Hcases as [->|[->|[->|[->| ->]]]]; vm_compute; auto. }
  destruct Hc as (Hcv & Hcn & Hcf).
  set (c := fmul LOAD_FACTOR (number_of_Z l)) in *. clearbody c.
  destruct (fmul_nonneg c (number_of_Z n) Hcv (number_of_Z_valid n) Hcn
              (number_of_Z_nonneg n ltac:(lia)) (or_introl Hcf)) as [Hxv Hxn].
  set (x := fmul c (number_of_Z n)) in *. clearbody x.
  assert (Hdv : valid64 (fadd SESSION_BASE x) = true)
    by (apply fadd_valid; [reflexivity | assumption]).
  assert (Hdn : nonneg (fadd SESSION_BASE x))
    by (apply fadd_nonneg; [reflexivity | assumption]).
  split; [split; assumption|].
  set (delta := fadd SESSION_BASE x) in *. clearbody delta.
  destruct (fmul_nonneg delta tenth Hdv eq_refl Hdn eq_refl (or_intror I)) as [Hyv Hyn].
  split; [apply Math_round_valid | apply Math_round_nonneg]; assumption.
Qed.

(** Adding a canonical non-negative amount to a score and clamping gives a
    score. *)
Lemma clamped_sum_ok v a :
  score_ok v -> valid64 a = true -> nonneg a ->
  score_ok (Math_min hundred (fadd v a)).
Proof.
  intros (Hv & H0 & _) Ha Na.
  apply leb_zero_nonneg in H0.
  destruct (Math_min_hundred_range (fadd v a)) as (H1 & H2 & H3).
  - apply fadd_valid; assumption.
  - apply fadd_nonneg; assumption.
  - split; [assumption|]. split; [apply leb_zero_nonneg|]; assumption.
Qed.

Lemma applySession_well_formed session s :
  well_formed s -> valid_session session -> well_formed (applySession session s).
Proof.
  intros Hs Hvalid g.
  destruct (session_amounts session Hvalid) as [[Hdv Hdn] [Hsv Hsn]].
  pose proof (well_formed_get s g Hs) as Hg.
  destruct (decide (g = muscle session)) as [->|Hne].
  - rewrite applySession_target. eexists. split; [reflexivity|].
    apply clamped_sum_ok; assumption.
  - destruct (decide (g ∈ synergists (muscle session))) as [Hin|Hout].
    + rewrite applySession_synergist by assumption. eexists. split; [reflexivity|].
      apply clamped_sum_ok; assumption.
    + rewrite applySession_other by assumption. apply Hs.
Qed.

(** *** C1: the state invariant *)

(** The invariant holds as long as the logged sessions are valid: every
    fatigue state reached from [initFatigue] (all zeros) by the decay on
    mount (any whole number of days) and by valid sessions has a score for
    each of the eleven muscle groups, and each score is a binary64 value [v]
    with [0 <= v <= 100]. *)
Theorem fatigue_invariant (s : FatigueMap) :
  reachable s ->
  forall g : MuscleKey,
    exists v, s !! g = Some v /\
              valid64 v = true /\ SFleb zero v = true /\ SFleb v hundred = true.
Proof.
  intros Hr.
  assert (Hwf : well_formed s).
  { induction Hr as [|n s _ IH|session s _ IH Hvalid].
    - apply initFatigue_well_formed.
    - apply decay_well_formed; assumption.
    - apply applySession_well_formed; assumption. }
  exact Hwf.
Qed.

(** C1. The invariant does not hold for every session the component
    applies.  With [.5] typed into the minutes field the form holds NaN,
    which the clamp [Math.max(1, Math.round(minutes))] lets through: logging
    that form in the initial state stores NaN for Chest, Triceps and
    Shoulders, and NaN is neither at least 0 nor at most 100. *)
Theorem nan_form_leaves_range :
  let st0 := {| fatigue := initFatigue; history := []; lastOpenISO := None |} in
  let st := addSession "k3x9" "2024-05-01T08:00:00.000Z" nanMinutesForm st0 in
  minutes (newSession "k3x9" "2024-05-01T08:00:00.000Z" nanMinutesForm) = NaN /\
  load (newSession "k3x9" "2024-05-01T08:00:00.000Z" nanMinutesForm) = number_of_Z 3 /\
  fatigue st !! Chest = Some NaN /\
  fatigue st !! Triceps = Some NaN /\
  fatigue st !! Shoulders = Some NaN /\
  SFleb zero (get (fatigue st) Chest) = false /\
  SFleb (get (fatigue st) Chest) hundred = false /\
  ~ (forall g : MuscleKey,
       exists v, fatigue st !! g = Some v /\
                 valid64 v = true /\ SFleb zero v = true /\ SFleb v hundred = true).
Proof.
  intros st0 st.
  assert (E : fatigue st !! Chest = Some NaN) by (vm_compute; reflexivity).
  repeat (split; [vm_compute; reflexivity|]).
  intros H. destruct (H Chest) as (v & Hv & _ & H0 & _).
  rewrite E in Hv. inversion Hv; subst v. discriminate H0.
Qed.

(** *** C2: decay *)

Lemma decay_get n s g :
  get (decay (number_of_Z n) s) g =
  if 0 <? n
  then Math_max zero (fsub (get s g) (fmul DECAY_PER_DAY (number_of_Z n)))
  else get s g.
Proof.
  unfold get at 1. rewrite decay_lookup. destruct (0 <? n); reflexivity.
Qed.

Lemma decay_get_score n s g :
  well_formed s -> 0 <= n ->
  score_ok (get (decay (number_of_Z n) s) g) /\
  ulps (get (decay (number_of_Z n) s) g) = Z.max 0 (ulps (get s g) - units (18 * n)).
Proof.
  intros Hs Hn. pose proof (well_formed_get s g Hs) as Hok.
  rewrite decay_get. destruct (Z.ltb_spec 0 n) as [Hpos|Hle].
  - apply decay_score; [assumption | lia].
  - split; [assumption|]. assert (n = 0) by lia. subst n.
    destruct (score_ok_shape _ Hok) as (_ & Hf & _).
    pose proof (ulps_finite_nonneg _ Hf). unfold units. lia.
Qed.

(** C2. For a well-formed state and a whole number [n >= 0] of elapsed days
    the decay leaves, for every group, the score
    [Math.max(0, old - 18 * n)]; the subtraction is exact, so the new score
    is [max 0 (old - 18 n)] as a real number (both sides counted in units of
    [2 ^ -1074]).  Hence no score falls below 0 and each group's score does
    not increase when [n] increases. *)
Theorem decay_max_zero (s : FatigueMap) (g : MuscleKey) (n : Z) :
  well_formed s -> 0 <= n ->
  DECAY_PER_DAY = number_of_Z 18 /\
  (0 < n ->
   get (decay (number_of_Z n) s) g
   = Math_max zero (fsub (get s g) (fmul DECAY_PER_DAY (number_of_Z n)))) /\
  ulps (get (decay (number_of_Z n) s) g) = Z.max 0 (ulps (get s g) - units (18 * n)) /\
  SFleb zero (get (decay (number_of_Z n) s) g) = true /\
  (forall n' : Z, n <= n' ->
     SFleb (get (decay (number_of_Z n') s) g) (get (decay (number_of_Z n) s) g) = true).
Proof.
  intros Hs Hn.
  destruct (decay_get_score n s g Hs Hn) as [Hok Hu].
  split; [reflexivity|]. split; [|split; [exact Hu|split]].
  - intros Hpos. rewrite decay_get.
    destruct (Z.ltb_spec 0 n); [reflexivity | lia].
  - apply Hok.
  - intros n' Hle.
    destruct (decay_get_score n' s g Hs ltac:(lia)) as [Hok' Hu'].
    destruct (score_ok_shape _ Hok) as (Hv & Hf & _).
    destruct (score_ok_shape _ Hok') as (Hv' & Hf' & _).
    apply (proj2 (leb_ulps _ _ Hv' Hv Hf' Hf)).
    rewrite Hu, Hu'.
    assert (units (18 * n) <= units (18 * n')) by (apply (proj1 (units_le _ _)); lia).
    lia.
Qed.

Lemma Math_max_zero_not_below z : SFltb (Math_max zero z) zero = false.
Proof. destruct z as [[|]|[|]| |[|] m e]; reflexivity. Qed.

(** Whatever the state and the positive number of days, no score read after
    the decay is below 0. *)
Lemma decay_never_negative days s g :
  gtb days zero = true -> SFltb (get (decay days s) g) zero = false.
Proof.
  intros Hd. unfold decay, decayIfDue, get. rewrite Hd, decayBy_lookup.
  apply Math_max_zero_not_below.
Qed.

(** *** C3: no elapsed day *)

(** C3. With zero elapsed days the decay returns the very state it was
    given, whatever the rate: the updater is not even run, because of the
    guard [if (days > 0)] of the mount effect. *)
Theorem decay_zero_days (rate : number) (s : FatigueMap) :
  decayIfDue rate (number_of_Z 0) s = s /\
  decay zero s = s /\
  forall (nowISO : string) (st : AppState), fatigue (onOpen nowISO zero st) = fatigue st.
Proof.
  split; [reflexivity|]. split; [reflexivity|].
  intros nowISO st. unfold onOpen. destruct (lastOpenISO st); reflexivity.
Qed.

(** *** C4: the upper clamp *)

Lemma applySession_get_target session s :
  get (applySession session s) (muscle session)
  = Math_min hundred (fadd (get s (muscle session)) (sessionDelta session)).
Proof. unfold get at 1. rewrite applySession_target. reflexivity. Qed.

Lemma applySession_get_synergist session s n :
  n ∈ synergists (muscle session) ->
  get (applySession session s) n
  = Math_min hundred (fadd (get s n) (sessionSpill session)).
Proof. intros Hn. unfold get at 1. rewrite applySession_synergist by assumption. reflexivity. Qed.

Lemma applySession_get_other session s g :
  g <> muscle session -> g ∉ synergists (muscle session) ->
  get (applySession session s) g = get s g.
Proof. intros Hg Hn. unfold get. rewrite applySession_other by assumption. reflexivity. Qed.


(** *** C5: the Chest scenario *)

Lemma chest45_valid : valid_session chest45.
Proof. split; [exists 45 | exists 3]; split; (lia || reflexivity). Qed.

(** C5 as stated fails: the direct delta of the scenario is not 98.5.
    The literal [0.7] is the number [6305039478318694 * 2 ^ -53].  Three
    times that is [18915118434956082 * 2 ^ -53], which needs the mantissa
    4728779608739020.5 at exponent -51: a tie, rounded to the even mantissa
    4728779608739020, so [0.7 * 3] is 2.0999999999999996.  Times 45 is
    [212795082393255900 * 2 ^ -51], rounded to [6649846324789247 * 2 ^ -46];
    plus 4, which is [281474976710656 * 2 ^ -46], gives
    [6931321301499903 * 2 ^ -46], whereas 98.5 is
    [6931321301499904 * 2 ^ -46]. *)
Lemma chest45_not_98_5 :
  ~ (sessionDelta chest45 = decimal 197 2 /\
     get (applySession chest45 initFatigue) Chest = decimal 197 2 /\
     get (applySession chest45 initFatigue) Triceps = number_of_Z 10 /\
     get (applySession chest45 initFatigue) Shoulders = number_of_Z 10).
Proof. intros [H _]. vm_compute in H. discriminate H. Qed.

(** C5, as the code has it.  From the all-zero state the session
    {Chest, 45 minutes, load 3} has direct delta [4 + 0.7 * 3 * 45]
    evaluated in binary64, which is 98.49999999999999: the number
    [6931321301499903 * 2 ^ -46], one unit in the last place ([2 ^ -46])
    below 98.5.  Chest becomes that number (no clamping), the spill
    [Math.round (9.85)] is 10, Triceps and Shoulders become exactly 10, and
    every other group stays at 0. *)
Theorem chest45_scenario :
  sessionDelta chest45 = S754_finite false 6931321301499903 (-46) /\
  ulps (decimal 197 2) - ulps (sessionDelta chest45) = 2 ^ (ebias - 46) /\
  get (applySession chest45 initFatigue) Chest = sessionDelta chest45 /\
  sessionSpill chest45 = number_of_Z 10 /\
  get (applySession chest45 initFatigue) Triceps = number_of_Z 10 /\
  get (applySession chest45 initFatigue) Shoulders = number_of_Z 10 /\
  (forall g : MuscleKey, g <> Chest -> g <> Triceps -> g <> Shoulders ->
     get (applySession chest45 initFatigue) g = zero).
Proof.
  repeat split; try (vm_compute; reflexivity).
  intros g H1 H2 H3. destruct g; try congruence; vm_compute; reflexivity.
Qed.

(** *** C6: the spillover amount *)

(** The spill of a valid session is a whole number. *)
Lemma sessionSpill_whole session :
  valid_session session ->
  exists j : Z, 0 <= j /\ sessionSpill session = number_of_Z j.
Proof.
  intros [(n & Hn & Em) (l & Hl & El)].
  unfold sessionSpill, sessionDelta. rewrite Em, El.
  assert (Hc : valid64 (fmul LOAD_FACTOR (number_of_Z l)) = true /\
               signed false (fmul LOAD_FACTOR (number_of_Z l)) /\
               finite_number (fmul LOAD_FACTOR (number_of_Z l))).
  { assert (Hcases : l = 1 \/ l = 2 \/ l = 3 \/ l = 4 \/ l = 5) by lia.
    destruct Hcases as [->|[->|[->|[->| ->]]]]; vm_compute; auto. }
  destruct Hc as (Hcv & Hcs & Hcf).
  set (c := fmul LOAD_FACTOR (number_of_Z l)) in *. clearbody c.
  assert (Hxv : valid64 (fmul c (number_of_Z n)) = true).
  { apply fmul_nonneg; auto using number_of_Z_valid.
    - apply signed_false_nonneg. assumption.
    - apply number_of_Z_nonneg. lia. }
  assert (Hxs : signed false (fmul c (number_of_Z n))).
  { apply fmul_signed; auto using number_of_Z_valid. apply number_of_Z_signed. lia. }
  set (x := fmul c (number_of_Z n)) in *. clearbody x.
  assert (Hdv : valid64 (fadd SESSION_BASE x) = true)
    by (apply fadd_valid; [reflexivity | assumption]).
  assert (Hds : signed false (fadd SESSION_BASE x))
    by (apply fadd_signed; [reflexivity | assumption]).
  set (delta := fadd SESSION_BASE x) in *. clearbody delta.
  apply Math_round_is_whole.
  - apply fmul_nonneg; try assumption; try reflexivity.
    + apply signed_false_nonneg. assumption.
    + right. exact I.
  - apply fmul_signed; try assumption; try reflexivity. right. exact I.
Qed.

(** C6, as stated, fails in two ways.  For load 3 and 310 minutes the
    program's spill is 65, while round(0.1 * (4 + 0.7 * 3 * 310)) =
    round(65.5) = 66: the products with 0.7 and 0.1 are rounded binary64
    products.  And after a Quads session of 10 minutes at load 3, a Glutes
    session of 45 minutes at load 3 (spill 10, sum below 100) takes Quads
    from 24.999999999999996 to 35, which is not an increase by exactly
    10. *)
Lemma spill_not_exact :
  (valid_session chest310 /\
   spill_in_reals 3 310 = 66 /\
   sessionSpill chest310 = number_of_Z 65 /\
   sessionSpill chest310 <> number_of_Z (spill_in_reals 3 310)) /\
  (valid_session glutes45 /\
   Quads ∈ synergists (muscle glutes45) /\
   sessionSpill glutes45 = number_of_Z 10 /\
   SFleb (fadd (get (applySession quads10 initFatigue) Quads) (sessionSpill glutes45))
         hundred = true /\
   get (applySession quads10 initFatigue) Quads
   = S754_finite false 7036874417766399 (-48) /\
   get (applySession glutes45 (applySession quads10 initFatigue)) Quads = number_of_Z 35 /\
   ulps (get (applySession glutes45 (applySession quads10 initFatigue)) Quads)
   - ulps (get (applySession quads10 initFatigue) Quads)
   <> ulps (sessionSpill glutes45)).
Proof.
  split.
  - split; [split; [exists 310 | exists 3]; split; (lia || reflexivity)|].
    split; [reflexivity|]. split; [vm_compute; reflexivity|].
    intros E. vm_compute in E. discriminate E.
  - split; [split; [exists 45 | exists 3]; split; (lia || reflexivity)|].
    split; [apply list_elem_of_here|].
    split; [vm_compute; reflexivity|]. split; [vm_compute; reflexivity|].
    split; [vm_compute; reflexivity|]. split; [vm_compute; reflexivity|].
    intros E. vm_compute in E. discriminate E.
Qed.

(** C6, amended.  The spillover of a valid session is
    [Math.round(delta * 0.1)] evaluated in binary64 from the direct delta
    [4 + 0.7 * load * minutes] (itself evaluated in binary64), whatever the
    state and whatever the clamp does to the target: a whole number [j >= 0]
    that depends on the session alone.  A synergist whose binary64 sum
    [old + j] does not exceed 100 gets that sum as its new score.  On a
    well-formed state, when the exact sum [old + j] does not exceed 100, the
    new score is within [2 ^ -46] of it; and when the old score is a whole
    number [k] with [k + j <= 100], the new score is exactly [k + j]. *)
Theorem spill_from_unclamped_delta (session : Session) :
  valid_session session ->
  SESSION_BASE = number_of_Z 4 /\ LOAD_FACTOR = decimal 7 10 /\ tenth = decimal 1 10 /\
  exists j : Z,
    0 <= j /\
    Math_round
      (fmul (fadd SESSION_BASE (fmul (fmul LOAD_FACTOR (load session)) (minutes session)))
            tenth)
    = number_of_Z j /\
    forall (s : FatigueMap) (n : MuscleKey),
      n ∈ synergists (muscle session) ->
      (SFleb (fadd (get s n) (number_of_Z j)) hundred = true ->
       get (applySession session s) n = fadd (get s n) (number_of_Z j)) /\
      (well_formed s -> ulps (get s n) + units j <= units 100 ->
       get (applySession session s) n = fadd (get s n) (number_of_Z j) /\
       Z.abs (ulps (get (applySession session s) n) - (ulps (get s n) + units j))
       <= 2 ^ (ebias - 46)) /\
      (forall k : Z, 0 <= k -> k + j <= 100 -> get s n = number_of_Z k ->
       get (applySession session s) n = number_of_Z (k + j)).
Proof.
  intros Hses. split; [reflexivity|]. split; [reflexivity|]. split; [reflexivity|].
  destruct (sessionSpill_whole session Hses) as (j & Hj & Ej).
  exists j. split; [assumption|]. split; [exact Ej|].
  intros s n Hn. rewrite applySession_get_synergist by assumption. rewrite Ej.
  split; [|split].
  - intros Hle. apply Math_min_hundred_id. assumption.
  - intros Hwf Hsum.
    destruct (score_ok_shape _ (well_formed_get s n Hwf)) as (Hv & Hf & _).
    destruct (fadd_score_near (get s n) j Hv Hf Hj Hsum) as (_ & _ & Hle & Herr).
    rewrite (Math_min_hundred_id _ Hle). split; [reflexivity | assumption].
  - intros k Hk Hkj Ek.
    assert (H53 : k + j < 2 ^ 53).
    { apply Z.le_lt_trans with 100; [assumption | reflexivity]. }
    rewrite Ek, fadd_whole by assumption.
    apply Math_min_hundred_id. unfold SFleb.
    change hundred with (number_of_Z 100).
    rewrite compare_whole by (split; first [lia | assumption | reflexivity]).
    destruct (Z.compare_spec (k + j) 100); try reflexivity. lia.
Qed.

(** *** C7: the table of synergists *)

(** C7. The table lists at most two synergists per muscle, with
    [Chest -> Triceps, Shoulders] and [Triceps -> Chest]; it is not symmetric
    ([Calves -> Quads] but not back).  A session adds the spill once to each
    listed synergist of its muscle and leaves every other group alone, also
    the synergists of its synergists. *)
Theorem synergists_table :
  (forall k : MuscleKey, (length (synergists k) <= 2)%nat) /\
  synergists Chest = [Triceps; Shoulders] /\
  synergists Triceps = [Chest] /\
  (Quads ∈ synergists Calves /\ Calves ∉ synergists Quads) /\
  (forall (session : Session) (s : FatigueMap) (g : MuscleKey),
     g <> muscle session ->
     (g ∈ synergists (muscle session) ->
      applySession session s !! g
      = Some (Math_min hundred (fadd (get s g) (sessionSpill session)))) /\
     (g ∉ synergists (muscle session) -> applySession session s !! g = s !! g)) /\
  (forall (session : Session) (s : FatigueMap),
     muscle session = Triceps ->
     Shoulders ∈ synergists Chest /\ Chest ∈ synergists Triceps /\
     applySession session s !! Shoulders = s !! Shoulders).
Proof.
  split; [intros []; cbn; lia|].
  split; [reflexivity|]. split; [reflexivity|].
  split; [split; [listed | intros H; absurd_member H]|].
  split.
  - intros session s g Hg. split.
    + apply applySession_synergist.
    + apply applySession_other. assumption.
  - intros session s E. split; [listed|]. split; [listed|].
    apply applySession_other; rewrite E; [discriminate | intros H; absurd_member H].
Qed.

(** *** C10: frame of a session *)

(** C10. A session changes at most the target muscle and the synergists
    the table lists for it; any other group keeps its entry, hence its
    score. *)
Theorem apply_frame (session : Session) (s : FatigueMap) (g : MuscleKey) :
  g <> muscle session -> g ∉ synergists (muscle session) ->
  applySession session s !! g = s !! g /\
  get (applySession session s) g = get s g.
Proof.
  intros Hg Hn. split.
  - apply applySession_other; assumption.
  - apply applySession_get_other; assumption.
Qed.

(** *** C8 and C9: deleting a session *)

Lemma withoutSession_cons i h log :
  withoutSession i (h :: log)
  = if decide (id h <> i) then h :: withoutSession i log else withoutSession i log.
Proof. reflexivity. Qed.

Lemma withoutSession_absent i log :
  i ∉ map id log -> withoutSession i log = log.
Proof.
  induction log as [|h log IH]; intros Hni; [reflexivity|].
  rewrite withoutSession_cons. cbn [map] in Hni.
  apply not_elem_of_cons in Hni as [Hh Hlog].
  destruct (decide (id h <> i)) as [_|Heq]; [|exfalso; apply Heq; congruence].
  f_equal. apply IH. assumption.
Qed.

Lemma withoutSession_elem i log h :
  h ∈ withoutSession i log <-> h ∈ log /\ id h <> i.
Proof.
  induction log as [|h' log IH].
  - cbn. rewrite elem_of_nil. tauto.
  - rewrite withoutSession_cons. destruct (decide (id h' <> i)) as [Hne|Heq].
    + rewrite !elem_of_cons, IH. split.
      * intros [->|[? ?]]; auto.
      * intros [[->|?] ?]; auto.
    + rewrite elem_of_cons, IH. split.
      * intros [? ?]; auto.
      * intros [[->|?] ?]; [contradiction | auto].
Qed.

Lemma withoutSession_none_left i log : i ∉ map id (withoutSession i log).
Proof.
  induction log as [|h log IH]; [apply not_elem_of_nil|].
  rewrite withoutSession_cons. destruct (decide (id h <> i)) as [Hne|_]; [|assumption].
  cbn [map]. apply not_elem_of_cons. split; [congruence | assumption].
Qed.

Lemma withoutSession_sublist i log : withoutSession i log `sublist_of` log.
Proof.
  induction log as [|h log IH]; [constructor|].
  rewrite withoutSession_cons. destruct (decide (id h <> i)); constructor; assumption.
Qed.

(** C8. On a log whose identifiers are unique (the log's invariant),
    removing an identifier removes at most one entry; removing an identifier
    that is not in the log returns the log unchanged; and removing twice is
    the same as removing once. *)
Theorem remove_at_most_one (log : list Session) (i : string) :
  (NoDup (map id log) ->
   (length log <= S (length (withoutSession i log)))%nat) /\
  (forall h : Session, h ∈ log -> h ∉ withoutSession i log -> id h = i) /\
  (i ∉ map id log -> withoutSession i log = log) /\
  withoutSession i (withoutSession i log) = withoutSession i log.
Proof.
  split; [|split; [|split]].
  - induction log as [|h log IH]; intros Hnd; [cbn; lia|].
    cbn [map] in Hnd. apply NoDup_cons in Hnd as [Hh Hnd].
    rewrite withoutSession_cons. destruct (decide (id h <> i)) as [Hne|Heq].
    + cbn [length]. specialize (IH Hnd). lia.
    + assert (id h = i) by (destruct (decide (id h = i)); [assumption | contradiction]).
      rewrite withoutSession_absent by congruence. cbn [length]. lia.
  - intros h Hin Hout. destruct (decide (id h = i)) as [|Hne]; [assumption|].
    exfalso. apply Hout. apply withoutSession_elem. auto.
  - apply withoutSession_absent.
  - apply withoutSession_absent, withoutSession_none_left.
Qed.

(** C9. Deleting a session leaves the fatigue state as it is and keeps
    every session with another identifier, in the same order; in particular
    the fatigue a session added stays after the session is deleted. *)
Theorem remove_keeps_fatigue (i : string) (st : AppState) :
  fatigue (removeSession i st) = fatigue st /\
  (forall g : MuscleKey, get (fatigue (removeSession i st)) g = get (fatigue st) g) /\
  (forall h : Session, h ∈ history st -> id h <> i -> h ∈ history (removeSession i st)) /\
  history (removeSession i st) `sublist_of` history st /\
  (forall (now : string) (form : Form.t),
     fatigue (removeSession i (addSession i now form st))
     = applySession (newSession i now form) (fatigue st)).
Proof.
  split; [reflexivity|]. split; [reflexivity|]. split; [|split].
  - intros h Hin Hne. apply withoutSession_elem. auto.
  - apply withoutSession_sublist.
  - reflexivity.
Qed.

(** *** The boundary of [addSession] and the component as a whole *)

(** Form fields holding whole numbers (what [parseInt] returns when it
    succeeds) give a valid session: [minutes] is raised to at least 1 and
    [load] is clamped to 1..5. *)
Lemma newSession_whole uid now form a b :
  - 2 ^ 53 < a < 2 ^ 53 -> - 2 ^ 53 < b < 2 ^ 53 ->
  Form.minutes form = number_of_Z a -> Form.load form = number_of_Z b ->
  minutes (newSession uid now form) = number_of_Z (Z.max 1 a) /\
  load (newSession uid now form) = number_of_Z (Z.min 5 (Z.max 1 b)) /\
  valid_session (newSession uid now form).
Proof.
  intros Ha Hb Ea Eb.
  assert (Hm : minutes (newSession uid now form) = number_of_Z (Z.max 1 a)).
  { cbn [newSession minutes]. rewrite Ea, Math_round_whole by assumption.
    apply Math_max_one_whole. lia. }
  assert (Hl : load (newSession uid now form) = number_of_Z (Z.min 5 (Z.max 1 b))).
  { cbn [newSession load]. rewrite Eb, Math_round_whole by assumption.
    rewrite Math_max_one_whole by lia. apply Math_min_five_whole. lia. }
  split; [assumption|]. split; [assumption|]. split.
  - exists (Z.max 1 a). split; [lia | assumption].
  - exists (Z.min 5 (Z.max 1 b)). split; [lia | assumption].
Qed.

(** The clamps do not catch NaN: a NaN in the minutes field (as [parseInt]
    returns for the input ".5") goes through [Math.round] and [Math.max] and
    ends up as the score of the target muscle. *)
Lemma newSession_nan uid now form s :
  Form.minutes form = NaN ->
  minutes (newSession uid now form) = NaN /\
  get (applySession (newSession uid now form) s) (Form.muscle form) = NaN.
Proof.
  intros E.
  assert (Hm : minutes (newSession uid now form) = NaN)
    by (cbn [newSession minutes]; rewrite E; reflexivity).
  split; [assumption|].
  change (Form.muscle form) with (muscle (newSession uid now form)).
  rewrite applySession_get_target. unfold sessionDelta. rewrite Hm.
  destruct (fmul LOAD_FACTOR (load (newSession uid now form))),
           (get s (muscle (newSession uid now form))); reflexivity.
Qed.

Lemma app_fatigue_reachable st : app_reachable st -> reachable (fatigue st).
Proof.
  induction 1 as [|nowISO n st _ IH|uid now form a b st _ IH Ha Hb Ea Eb
                 |i st _ IH|confirmed st _ IH].
  - apply reach_init.
  - unfold onOpen. destruct (lastOpenISO st); cbn [fatigue];
      [apply reach_decay|]; assumption.
  - cbn [addSession fatigue]. apply reach_session; [assumption|].
    apply (newSession_whole uid now form a b); assumption.
  - exact IH.
  - destruct confirmed; [apply reach_init | exact IH].
Qed.

(** The fatigue of the component is always well formed. *)
Lemma app_fatigue_well_formed st : app_reachable st -> well_formed (fatigue st).
Proof.
  induction 1 as [|nowISO n st _ IH|uid now form a b st _ IH Ha Hb Ea Eb
                 |i st _ IH|confirmed st _ IH].
  - apply initFatigue_well_formed.
  - unfold onOpen. destruct (lastOpenISO st); cbn [fatigue];
      [apply decay_well_formed|]; assumption.
  - cbn [addSession fatigue]. apply applySession_well_formed; [assumption|].
    apply (newSession_whole uid now form a b); assumption.
  - exact IH.
  - destruct confirmed; [apply initFatigue_well_formed | exact IH].
Qed.

(** Every entry of the history is a valid session. *)
Lemma app_history_valid st :
  app_reachable st -> forall h, h ∈ history st -> valid_session h.
Proof.
  induction 1 as [|nowISO n st _ IH|uid now form a b st _ IH Ha Hb Ea Eb
                 |i st _ IH|confirmed st _ IH]; intros h Hh.
  - apply elem_of_nil in Hh. contradiction.
  - apply IH. unfold onOpen in Hh. destruct (lastOpenISO st); exact Hh.
  - cbn [addSession history] in Hh. apply elem_of_cons in Hh as [->|Hh].
    + apply (newSession_whole uid now form a b); assumption.
    + apply IH. assumption.
  - apply IH. cbn [removeSession history] in Hh.
    apply withoutSession_elem in Hh. tauto.
  - destruct confirmed; [|apply IH; assumption].
    apply elem_of_nil in Hh. contradiction.
Qed.

(** *** The arithmetic on known values *)

Example literal_0_7 :
  LOAD_FACTOR = S754_finite false 6305039478318694 (-53) /\
  ulps LOAD_FACTOR * 10 < units 7.
Proof. split; vm_compute; reflexivity. Qed.

(** [0.7 * 3] is 2.0999999999999996, the binary64 value just below the one
    of the literal [2.1]. *)
Example product_0_7_by_3 :
  fmul LOAD_FACTOR (number_of_Z 3) = S754_finite false 4728779608739020 (-51) /\
  decimal 21 10 = S754_finite false 4728779608739021 (-51) /\
  fmul (fmul LOAD_FACTOR (number_of_Z 3)) (number_of_Z 45)
  = S754_finite false 6649846324789247 (-46) /\
  ulps SESSION_BASE = 281474976710656 * 2 ^ (ebias - 46).
Proof. repeat split; vm_compute; reflexivity. Qed.

Example Math_round_values :
  Math_round (decimal 5 2) = number_of_Z 3 /\
  Math_round (decimal (-5) 2) = number_of_Z (-2) /\
  Math_round (decimal 2 5) = S754_zero false /\
  Math_round (decimal (-2) 5) = S754_zero true /\
  Math_round (decimal 1 2) = number_of_Z 1 /\
  Math_round (S754_finite false 9007199254740991 (-54)) = S754_zero false /\
  Math_round NaN = NaN.
Proof. repeat split; vm_compute; reflexivity. Qed.

Example Math_min_max_values :
  Math_min hundred NaN = NaN /\
  Math_max zero (S754_zero true) = zero /\
  Math_min zero (S754_zero true) = S754_zero true /\
  Math_max zero (number_of_Z (-4)) = zero /\
  Math_min hundred (decimal 197 2) = decimal 197 2.
Proof. repeat split; vm_compute; reflexivity. Qed.

(** The same session twice: Chest is clamped at exactly 100, and the spill
    is still 10, computed from the delta and not from the clamped score. *)
Example chest45_twice :
  get (applySession chest45 (applySession chest45 initFatigue)) Chest = hundred /\
  get (applySession chest45 (applySession chest45 initFatigue)) Triceps = number_of_Z 20 /\
  get (applySession chest45 (applySession chest45 initFatigue)) Shoulders = number_of_Z 20.
Proof. repeat split; vm_compute; reflexivity. Qed.

(** Deleting the session does not take its fatigue back. *)
Example delete_keeps_delta :
  fatigue (removeSession "k3x9"
             {| fatigue := applySession chest45 initFatigue;
                history := [chest45];
                lastOpenISO := None |})
  <> initFatigue.
Proof.
  intros H. apply (f_equal (fun m => get m Chest)) in H. vm_compute in H. discriminate H.
Qed.

(** *** Instances of the theorems at concrete inputs *)

Lemma fatigue_invariant_witness :
  reachable (decay (number_of_Z 3) (applySession chest45 initFatigue)) /\
  exists v,
    decay (number_of_Z 3) (applySession chest45 initFatigue) !! Chest = Some v /\
    valid64 v = true /\ SFleb zero v = true /\ SFleb v hundred = true.
Proof.
  assert (H : reachable (decay (number_of_Z 3) (applySession chest45 initFatigue))).
  { apply reach_decay, reach_session; [apply reach_init|].
    split; [exists 45 | exists 3]; split; (lia || reflexivity). }
  split; [exact H | exact (fatigue_invariant _ H Chest)].
Defined.

Lemma decay_max_zero_witness :
  well_formed chest50 /\ 0 <= 3 /\
  ulps (get (decay (number_of_Z 3) chest50) Chest)
  = Z.max 0 (ulps (get chest50 Chest) - units (18 * 3)) /\
  get (decay (number_of_Z 3) chest50) Chest = zero.
Proof.
  split; [intros []; eexists; (split; [reflexivity|]); repeat split|].
  split; [lia|].
  split; [|vm_compute; reflexivity].
  apply (decay_max_zero chest50 Chest 3);
    [intros []; eexists; (split; [reflexivity|]); repeat split | lia].
Defined.


Lemma chest45_scenario_witness :
  Back <> Chest /\ Back <> Triceps /\ Back <> Shoulders /\
  get (applySession chest45 initFatigue) Back = zero.
Proof.
  split; [discriminate|]. split; [discriminate|]. split; [discriminate|].
  apply (proj2 (proj2 (proj2 (proj2 (proj2 (proj2 chest45_scenario)))))); discriminate.
Defined.

Lemma spill_from_unclamped_delta_witness :
  valid_session chest45 /\
  exists j : Z, 0 <= j /\ sessionSpill chest45 = number_of_Z j.
Proof.
  split; [exact chest45_valid|].
  destruct (proj2 (proj2 (proj2 (spill_from_unclamped_delta chest45 chest45_valid))))
    as (j & Hj & Ej & _).
  exists j. split; [exact Hj | exact Ej].
Defined.

Lemma synergists_table_witness :
  Back <> muscle chest45 /\ (Back ∉ synergists (muscle chest45)) /\
  applySession chest45 initFatigue !! Back = initFatigue !! Back.
Proof.
  assert (Hne : Back <> muscle chest45) by discriminate.
  assert (Hout : Back ∉ synergists (muscle chest45)).
  { intros H. absurd_member H. }
  split; [exact Hne|]. split; [exact Hout|].
  exact (proj2 (proj1 (proj2 (proj2 (proj2 (proj2 synergists_table))))
                  chest45 initFatigue Back Hne) Hout).
Defined.

Lemma remove_at_most_one_witness :
  NoDup (map id [back20; chest45]) /\
  (length [back20; chest45] <= S (length (withoutSession "k3x9" [back20; chest45])))%nat /\
  withoutSession "k3x9" [back20; chest45] = [back20].
Proof.
  assert (Hnd : NoDup (map id [back20; chest45])).
  { apply NoDup_cons. split.
    - intros H. absurd_member H.
    - apply NoDup_cons. split; [apply not_elem_of_nil | apply NoDup_nil_2]. }
  split; [exact Hnd|]. split; [|reflexivity].
  exact (proj1 (remove_at_most_one [back20; chest45] "k3x9") Hnd).
Defined.

Lemma remove_keeps_fatigue_witness :
  let st := {| fatigue := applySession chest45 initFatigue;
               history := [back20; chest45];
               lastOpenISO := None |} in
  back20 ∈ history st /\ id back20 <> "k3x9"%string /\
  back20 ∈ history (removeSession "k3x9" st) /\
  fatigue (removeSession "k3x9" st) = applySession chest45 initFatigue.
Proof.
  intros st.
  assert (Hin : back20 ∈ history st) by apply list_elem_of_here.
  assert (Hne : id back20 <> "k3x9"%string) by discriminate.
  split; [exact Hin|]. split; [exact Hne|]. split.
  - exact (proj1 (proj2 (proj2 (remove_keeps_fatigue "k3x9" st))) back20 Hin Hne).
  - exact (proj1 (remove_keeps_fatigue "k3x9" st)).
Defined.

Lemma apply_frame_witness :
  Back <> muscle chest45 /\ (Back ∉ synergists (muscle chest45)) /\
  get (applySession chest45 initFatigue) Back = get initFatigue Back.
Proof.
  assert (Hne : Back <> muscle chest45) by discriminate.
  assert (Hout : Back ∉ synergists (muscle chest45)).
  { intros H. absurd_member H. }
  split; [exact Hne|]. split; [exact Hout|].
  exact (proj2 (apply_frame chest45 initFatigue Back Hne Hout)).
Defined.

(** * Further properties of the program *)

(** *** The registry *)

(** X1. The registry lists eleven muscles with distinct keys, one for every
    [MuscleKey], so the lookup by key that the history list uses always
    finds the muscle and its label. *)
Theorem registry_complete :
  NoDup (map key MUSCLES) /\
  length MUSCLES = 11%nat /\
  (forall k : MuscleKey,
     exists m, findMuscle k = Some m /\ key m = k /\ m ∈ MUSCLES /\
               labelOf k = Some (label m)).
Proof.
  split; [|split; [reflexivity|]].
  - unfold MUSCLES. cbn [map key].
    repeat (apply NoDup_cons; split; [intros H; absurd_member H|]).
    apply NoDup_nil_2.
  - intros []; eexists; (split; [reflexivity|]); (split; [reflexivity|]);
      (split; [listed | reflexivity]).
Qed.

(** *** [clamp01] *)

(** X2. [clamp01] keeps NaN, maps every other number into [0, 1], and is
    idempotent. *)
Theorem clamp01_range (x : number) :
  clamp01 NaN = NaN /\
  (x <> NaN -> SFleb zero (clamp01 x) = true /\ SFleb (clamp01 x) one = true) /\
  clamp01 (clamp01 x) = clamp01 x.
Proof.
  split; [reflexivity|]. split.
  - intros Hx. unfold clamp01.
    pose proof (Math_max_not_nan zero x ltac:(discriminate) Hx) as Hy.
    destruct (Math_max_ge zero x ltac:(discriminate) Hx) as [H0 _].
    destruct (Math_min_le one (Math_max zero x) ltac:(discriminate) Hy) as [H1 _].
    split; [|assumption].
    destruct (Math_min_cases one (Math_max zero x) ltac:(discriminate) Hy)
      as [->|[->|(sc & sy & s & E & _)]]; [reflexivity | assumption | discriminate E].
  - destruct x as [s|[|]| |[|] m e]; try reflexivity.
    assert (Hc : clamp01 (S754_finite false m e)
                 = Math_min one (S754_finite false m e)) by reflexivity.
    rewrite Hc.
    assert (Hm : Math_min one (S754_finite false m e) = one \/
                 Math_min one (S754_finite false m e) = S754_finite false m e).
    { destruct (Math_min_cases one (S754_finite false m e))
        as [H|[H|(sc & sy & s & E & _)]];
        [discriminate | discriminate | auto | auto | discriminate E]. }
    destruct Hm as [Hm|Hm]; rewrite Hm; [reflexivity|].
    rewrite Hc. exact Hm.
Qed.

Lemma clamp01_range_witness :
  decimal 3 2 <> NaN /\
  SFleb zero (clamp01 (decimal 3 2)) = true /\
  SFleb (clamp01 (decimal 3 2)) one = true /\
  clamp01 (decimal 3 2) = one.
Proof.
  assert (H : decimal 3 2 <> NaN) by discriminate.
  split; [exact H|].
  split; [exact (proj1 (proj1 (proj2 (clamp01_range (decimal 3 2))) H))|].
  split; [exact (proj2 (proj1 (proj2 (clamp01_range (decimal 3 2))) H))|].
  reflexivity.
Defined.

(** *** Colours and the fatigue board *)

Lemma pctToColor_whole n :
  0 <= n < 2 ^ 53 ->
  pctToColor (number_of_Z n)
  = if n <? 34 then "bg-green-500"%string
    else if n <? 67 then "bg-amber-500"%string else "bg-red-500"%string.
Proof.
  intros Hn. unfold pctToColor, SFltb.
  change thirty_four with (number_of_Z 34). change sixty_seven with (number_of_Z 67).
  rewrite !compare_whole by (assumption || (split; [lia | reflexivity])).
  destruct (Z.ltb_spec n 34) as [H34|H34].
  - apply Z.compare_lt_iff in H34. rewrite H34. reflexivity.
  - destruct (Z.compare_spec n 34); try lia;
      (destruct (Z.ltb_spec n 67) as [H67|H67];
       [apply Z.compare_lt_iff in H67; rewrite H67; reflexivity|]);
      destruct (Z.compare_spec n 67); try lia; reflexivity.
Qed.

(** X3. For a whole percentage [n >= 0] the colour is green below 34, amber
    from 34 to 66 and red from 67 on; a negative number is green, and NaN
    (neither comparison holds) is red. *)
Theorem pctToColor_thresholds (n : Z) :
  (0 <= n < 2 ^ 53 ->
   pctToColor (number_of_Z n)
   = if n <? 34 then "bg-green-500"%string
     else if n <? 67 then "bg-amber-500"%string else "bg-red-500"%string) /\
  (forall x : number, signed true x -> pctToColor x = "bg-green-500"%string) /\
  pctToColor NaN = "bg-red-500"%string /\
  pctToColor (S754_infinity false) = "bg-red-500"%string.
Proof.
  split; [apply pctToColor_whole|]. split; [|split; reflexivity].
  intros x Hx. destruct x as [s|s| |s m e]; simpl in Hx; try contradiction;
    subst; reflexivity.
Qed.

Lemma pctToColor_thresholds_witness :
  0 <= 66 < 2 ^ 53 /\ pctToColor (number_of_Z 66) = "bg-amber-500"%string.
Proof.
  assert (H : 0 <= 66 < 2 ^ 53) by (split; [lia | reflexivity]).
  split; [exact H|].
  exact (proj1 (pctToColor_thresholds 66) H).
Defined.

(** X4. On a well-formed state the board shows, for every muscle, a whole
    percentage [n] between 0 and 100, the score rounded to the nearest whole
    number (ties upwards), in the colour of [n]. *)
Theorem board_percentage (fatigue : FatigueMap) (k : MuscleKey) :
  well_formed fatigue ->
  exists n : Z,
    0 <= n <= 100 /\
    ulps (boardPct fatigue k) = units n /\
    units (2 * n - 1) <= 2 * ulps (get fatigue k) < units (2 * n + 1) /\
    boardColor fatigue k
    = if n <? 34 then "bg-green-500"%string
      else if n <? 67 then "bg-amber-500"%string else "bg-red-500"%string.
Proof.
  intros Hwf.
  destruct (score_ok_shape _ (well_formed_get fatigue k Hwf)) as (Hv & Hf & H100).
  destruct (Math_round_score (get fatigue k) Hv Hf H100) as (n & Hn & Hr & Hb).
  exists n. split; [assumption|].
  assert (Hn53 : 0 <= n < 2 ^ 53).
  { split; [lia|]. apply Z.le_lt_trans with 100; [lia | reflexivity]. }
  unfold boardColor, boardPct.
  destruct Hr as [->|[-> ->]].
  - destruct (number_of_Z_whole n Hn53) as (_ & _ & Hu).
    split; [assumption|]. split; [assumption|]. apply pctToColor_whole. assumption.
  - split; [reflexivity|]. split; [assumption | reflexivity].
Qed.

Lemma board_percentage_witness :
  well_formed (applySession chest45 initFatigue) /\
  boardPct (applySession chest45 initFatigue) Chest = number_of_Z 98 /\
  boardColor (applySession chest45 initFatigue) Chest = "bg-red-500"%string /\
  exists n : Z, 0 <= n <= 100 /\
    ulps (boardPct (applySession chest45 initFatigue) Chest) = units n.
Proof.
  assert (H : well_formed (applySession chest45 initFatigue)).
  { intros []; eexists; (split; [reflexivity|]); repeat split. }
  split; [exact H|]. split; [reflexivity|]. split; [reflexivity|].
  destruct (board_percentage (applySession chest45 initFatigue) Chest H)
    as (n & Hn & Hu & _).
  exists n. split; [exact Hn | exact Hu].
Defined.

(** *** The session built from the form *)

(** X5. Whatever numbers the form holds, unless one is NaN, the stored
    session has at least 1 minute and a load between 1 and 5; for whole
    numbers the stored values are [max 1 a] and [min 5 (max 1 b)]. *)
Theorem session_fields_clamped (uid now : string) (form : Form.t) :
  (Form.minutes form <> NaN ->
   SFleb one (minutes (newSession uid now form)) = true) /\
  (Form.load form <> NaN ->
   SFleb one (load (newSession uid now form)) = true /\
   SFleb (load (newSession uid now form)) five = true) /\
  (forall a b : Z,
     - 2 ^ 53 < a < 2 ^ 53 -> - 2 ^ 53 < b < 2 ^ 53 ->
     Form.minutes form = number_of_Z a -> Form.load form = number_of_Z b ->
     minutes (newSession uid now form) = number_of_Z (Z.max 1 a) /\
     load (newSession uid now form) = number_of_Z (Z.min 5 (Z.max 1 b))).
Proof.
  split; [|split].
  - intros Hm. cbn [newSession minutes].
    apply Math_max_ge; [discriminate | apply Math_round_not_nan; assumption].
  - intros Hl. cbn [newSession load].
    pose proof (Math_round_not_nan _ Hl) as Hr.
    pose proof (Math_max_not_nan one _ ltac:(discriminate) Hr) as Hy.
    destruct (Math_max_ge one _ ltac:(discriminate) Hr) as [H1 _].
    destruct (Math_min_le five _ ltac:(discriminate) Hy) as [H5 _].
    split; [|assumption].
    destruct (Math_min_cases five _ ltac:(discriminate) Hy)
      as [->|[->|(sc & sy & s & E & _)]]; [reflexivity | assumption | discriminate E].
  - intros a b Ha Hb Hm Hl.
    destruct (newSession_whole uid now form a b Ha Hb Hm Hl) as (H1 & H2 & _).
    split; assumption.
Qed.

Lemma session_fields_clamped_witness :
  let form := {| Form.muscle := Chest; Form.minutes := decimal 1 2;
                 Form.load := number_of_Z 9; Form.notes := "" |} in
  Form.minutes form <> NaN /\ Form.load form <> NaN /\
  SFleb one (minutes (newSession "a" "t" form)) = true /\
  SFleb (load (newSession "a" "t" form)) five = true /\
  minutes (newSession "a" "t" form) = one /\
  load (newSession "a" "t" form) = five.
Proof.
  intros form.
  assert (Hm : Form.minutes form <> NaN) by discriminate.
  assert (Hl : Form.load form <> NaN) by discriminate.
  split; [exact Hm|]. split; [exact Hl|].
  split; [exact (proj1 (session_fields_clamped "a" "t" form) Hm)|].
  split; [exact (proj2 (proj1 (proj2 (session_fields_clamped "a" "t" form)) Hl))|].
  split; reflexivity.
Defined.

(** *** NaN *)

Lemma Math_min_hundred_nan : Math_min hundred NaN = NaN.
Proof. reflexivity. Qed.

Lemma fadd_nan_l y : fadd NaN y = NaN.
Proof. destruct y; reflexivity. Qed.

Lemma fadd_nan_r x : fadd x NaN = NaN.
Proof. destruct x; reflexivity. Qed.

Lemma fsub_nan_l y : fsub NaN y = NaN.
Proof. destruct y; reflexivity. Qed.

Lemma fmul_nan_r x : fmul x NaN = NaN.
Proof. destruct x; reflexivity. Qed.

Lemma fmul_nan_l y : fmul NaN y = NaN.
Proof. destruct y; reflexivity. Qed.

Lemma applySession_get_nan session s g :
  get s g = NaN -> get (applySession session s) g = NaN.
Proof.
  intros Hg.
  destruct (decide (g = muscle session)) as [->|Hne].
  - rewrite applySession_get_target, Hg, fadd_nan_l. reflexivity.
  - destruct (decide (g ∈ synergists (muscle session))) as [Hin|Hout].
    + rewrite applySession_get_synergist by assumption.
      rewrite Hg, fadd_nan_l. reflexivity.
    + rewrite applySession_get_other by assumption. assumption.
Qed.

Lemma decay_get_nan days s g : get s g = NaN -> get (decay days s) g = NaN.
Proof.
  intros Hg. unfold decay, decayIfDue.
  destruct (gtb days zero); [|assumption].
  unfold get at 1. rewrite decayBy_lookup, Hg, fsub_nan_l. reflexivity.
Qed.

(** X6. If the minutes field of the form is NaN, the clamps let it through:
    the stored minutes are NaN, and so are the new scores of the chosen
    muscle and of each of its synergists, which the board then shows in
    red. *)
Theorem nan_minutes_reach_scores (uid now : string) (form : Form.t) (s : FatigueMap) :
  Form.minutes form = NaN ->
  minutes (newSession uid now form) = NaN /\
  sessionDelta (newSession uid now form) = NaN /\
  sessionSpill (newSession uid now form) = NaN /\
  forall g : MuscleKey,
    g = Form.muscle form \/ g ∈ synergists (Form.muscle form) ->
    get (applySession (newSession uid now form) s) g = NaN /\
    boardColor (applySession (newSession uid now form) s) g = "bg-red-500"%string.
Proof.
  intros Hm.
  assert (H1 : minutes (newSession uid now form) = NaN).
  { cbn [newSession minutes]. rewrite Hm. reflexivity. }
  assert (H2 : sessionDelta (newSession uid now form) = NaN).
  { unfold sessionDelta. rewrite H1, fmul_nan_r, fadd_nan_r. reflexivity. }
  assert (H3 : sessionSpill (newSession uid now form) = NaN).
  { unfold sessionSpill. rewrite H2, fmul_nan_l. reflexivity. }
  split; [assumption|]. split; [assumption|]. split; [assumption|].
  intros g Hg.
  assert (H4 : get (applySession (newSession uid now form) s) g = NaN).
  { destruct Hg as [->|Hin].
    - change (Form.muscle form) with (muscle (newSession uid now form)).
      rewrite applySession_get_target, H2, fadd_nan_r. reflexivity.
    - change (Form.muscle form) with (muscle (newSession uid now form)) in Hin.
      rewrite applySession_get_synergist by assumption.
      rewrite H3, fadd_nan_r. reflexivity. }
  split; [assumption|].
  unfold boardColor, boardPct. rewrite H4. reflexivity.
Qed.

Lemma nan_minutes_reach_scores_witness :
  let form := {| Form.muscle := Chest; Form.minutes := NaN;
                 Form.load := number_of_Z 3; Form.notes := "" |} in
  Form.minutes form = NaN /\
  get (applySession (newSession "a" "t" form) initFatigue) Triceps = NaN.
Proof.
  intros form.
  assert (Hm : Form.minutes form = NaN) by reflexivity.
  split; [exact Hm|].
  refine (proj1 (proj2 (proj2 (proj2
    (nan_minutes_reach_scores "a" "t" form initFatigue Hm))) Triceps _)).
  right. apply list_elem_of_here.
Defined.

(** X7. A NaN score (also the reading of a muscle that has no entry) stays
    NaN: the decay on mount and every later session, whatever its values,
    leave it NaN.  A confirmed reset sets it to 0. *)
Theorem nan_score_stays (s : FatigueMap) (g : MuscleKey) :
  get s g = NaN ->
  (forall days : number, get (decay days s) g = NaN) /\
  (forall session : Session, get (applySession session s) g = NaN) /\
  (forall (nowISO : string) (days : number) (st : AppState),
     fatigue st = s -> get (fatigue (onOpen nowISO days st)) g = NaN) /\
  (forall st : AppState, get (fatigue (resetAll true st)) g = zero).
Proof.
  intros Hg. split; [|split; [|split]].
  - intros days. apply decay_get_nan. assumption.
  - intros session. apply applySession_get_nan. assumption.
  - intros nowISO days st <-. unfold onOpen.
    destruct (lastOpenISO st); cbn [fatigue]; [apply decay_get_nan|]; assumption.
  - intros st. cbn [resetAll fatigue]. unfold get. rewrite initFatigue_lookup.
    reflexivity.
Qed.

Lemma nan_score_stays_witness :
  get (<[Chest := NaN]> initFatigue) Chest = NaN /\
  get (decay (number_of_Z 9) (<[Chest := NaN]> initFatigue)) Chest = NaN /\
  get (applySession chest45 (<[Chest := NaN]> initFatigue)) Chest = NaN.
Proof.
  assert (H : get (<[Chest := NaN]> initFatigue) Chest = NaN) by reflexivity.
  split; [exact H|].
  split.
  - exact (proj1 (nan_score_stays _ Chest H) (number_of_Z 9)).
  - exact (proj1 (proj2 (nan_score_stays _ Chest H)) chest45).
Defined.

(** *** The component as a whole *)

(** X8. In every state the component reaches through its handlers (the
    mount effect, logging from a form with whole numbers, deleting,
    resetting), every muscle has a valid score between 0 and 100 and every
    logged session has whole minutes from 1 on and a load among 1..5. *)
Theorem app_invariant (st : AppState) :
  app_reachable st ->
  (forall g : MuscleKey,
     exists v, fatigue st !! g = Some v /\
               valid64 v = true /\ SFleb zero v = true /\ SFleb v hundred = true) /\
  (forall h : Session, h ∈ history st ->
     (exists n : Z, 1 <= n /\ minutes h = number_of_Z n) /\
     (exists l : Z, 1 <= l <= 5 /\ load h = number_of_Z l)).
Proof.
  intros Hst. split.
  - exact (app_fatigue_well_formed st Hst).
  - exact (app_history_valid st Hst).
Qed.

Lemma app_invariant_witness :
  let form := {| Form.muscle := Quads; Form.minutes := number_of_Z 0;
                 Form.load := number_of_Z 7; Form.notes := "" |} in
  let st := onOpen "t2" (number_of_Z 2)
              (addSession "a" "t1" form
                 (onOpen "t0" (number_of_Z 0)
                    {| fatigue := initFatigue; history := []; lastOpenISO := None |})) in
  app_reachable st /\
  exists v, fatigue st !! Quads = Some v /\ SFleb v hundred = true.
Proof.
  intros form st.
  assert (H : app_reachable st).
  { apply app_open. apply (app_add "a" "t1" form 0 7).
    - apply app_open. apply app_init.
    - split; reflexivity.
    - split; reflexivity.
    - reflexivity.
    - reflexivity. }
  split; [exact H|].
  destruct (proj1 (app_invariant st H) Quads) as (v & Hv & _ & _ & H100).
  exists v. split; [exact Hv | exact H100].
Defined.

(** *** Decay over several openings *)

Lemma Math_max_zero_sign z s : Math_max zero z = S754_zero s -> s = false.
Proof.
  destruct z as [sz|[|]| |[|] m e]; cbn; intros H;
    solve [inversion H; reflexivity | discriminate H].
Qed.

Lemma units_add a b : units (a + b) = units a + units b.
Proof. unfold units. ring. Qed.

Lemma decay_value_eq x y :
  score_ok (Math_max zero x) -> score_ok (Math_max zero y) ->
  ulps (Math_max zero x) = ulps (Math_max zero y) ->
  Math_max zero x = Math_max zero y.
Proof.
  intros Hx Hy Hu.
  destruct (score_ok_shape _ Hx) as (Hvx & Hfx & _).
  destruct (score_ok_shape _ Hy) as (Hvy & Hfy & _).
  destruct (ulps_inj _ _ Hvx Hvy Hfx Hfy Hu) as [E|(sx & sy & Ex & Ey)];
    [assumption|].
  rewrite Ex, Ey.
  rewrite (Math_max_zero_sign _ _ Ex), (Math_max_zero_sign _ _ Ey). reflexivity.
Qed.

(** X9. Decay composes: for a well-formed state, opening after [a] days and
    again after [b] more days leaves exactly the scores of one opening after
    [a + b] days. *)
Theorem decay_compose (s : FatigueMap) (a b : Z) :
  well_formed s -> 0 <= a -> 0 <= b ->
  decay (number_of_Z b) (decay (number_of_Z a) s) = decay (number_of_Z (a + b)) s.
Proof.
  intros Hwf Ha Hb.
  destruct (Z.eq_dec a 0) as [->|Ha0]; [reflexivity|].
  destruct (Z.eq_dec b 0) as [->|Hb0]; [rewrite Z.add_0_r; reflexivity|].
  apply map_eq. intros g. rewrite !decay_lookup.
  replace (0 <? b) with true by (symmetry; apply Z.ltb_lt; lia).
  replace (0 <? a + b) with true by (symmetry; apply Z.ltb_lt; lia).
  f_equal.
  destruct (decay_get_score a s g Hwf Ha) as [Hs1 Hu1].
  destruct (decay_score _ b Hs1 ltac:(lia)) as [Hsx Hux].
  destruct (decay_score _ (a + b) (well_formed_get s g Hwf) ltac:(lia)) as [Hsy Huy].
  cbv zeta in Hsx, Hux, Hsy, Huy.
  apply decay_value_eq; [assumption | assumption |].
  rewrite Hux, Huy, Hu1.
  replace (18 * (a + b)) with (18 * a + 18 * b) by ring.
  rewrite units_add.
  assert (0 <= units (18 * b)) by (apply (proj1 (units_le 0 _)); lia).
  lia.
Qed.

Lemma decay_compose_witness :
  well_formed chest50 /\ 0 <= 1 /\ 0 <= 1 /\
  decay (number_of_Z 1) (decay (number_of_Z 1) chest50) = decay (number_of_Z 2) chest50 /\
  get (decay (number_of_Z 2) chest50) Chest = number_of_Z 14.
Proof.
  assert (H : well_formed chest50).
  { intros []; eexists; (split; [reflexivity|]); repeat split. }
  split; [exact H|]. split; [lia|]. split; [lia|].
  split; [|reflexivity].
  exact (decay_compose chest50 1 1 H ltac:(lia) ltac:(lia)).
Defined.

Lemma decay_initFatigue k : decay (number_of_Z k) initFatigue = initFatigue.
Proof.
  destruct (Z.le_gt_cases k 0) as [Hk|Hk].
  - unfold decay, decayIfDue.
    replace (gtb (number_of_Z k) zero) with false; [reflexivity|].
    rewrite number_of_Z_gtb. symmetry. apply Z.ltb_ge. assumption.
  - apply map_eq. intros g. rewrite decay_lookup, initFatigue_lookup.
    replace (0 <? k) with true by (symmetry; apply Z.ltb_lt; lia).
    f_equal.
    destruct (decay_score zero k zero_score_ok ltac:(lia)) as [Hsx Hux].
    cbv zeta in Hsx, Hux.
    unfold get. rewrite initFatigue_lookup.
    apply (decay_value_eq _ zero); [assumption | exact zero_score_ok |].
    rewrite Hux. change (ulps zero) with 0. change (ulps (Math_max zero zero)) with 0.
    assert (0 <= units (18 * k)) by (apply (proj1 (units_le 0 _)); lia).
    lia.
Qed.

Lemma decay_clears n s :
  well_formed s -> 6 <= n -> decay (number_of_Z n) s = initFatigue.
Proof.
  intros Hwf Hn. apply map_eq. intros g.
  rewrite decay_lookup, initFatigue_lookup.
  replace (0 <? n) with true by (symmetry; apply Z.ltb_lt; lia).
  f_equal.
  destruct (decay_score _ n (well_formed_get s g Hwf) ltac:(lia)) as [Hsx Hux].
  cbv zeta in Hsx, Hux.
  destruct (score_ok_shape _ (well_formed_get s g Hwf)) as (_ & _ & H100).
  assert (Hle : units 100 <= units (18 * n)) by (apply (proj1 (units_le _ _)); lia).
  apply (decay_value_eq _ zero); [assumption | exact zero_score_ok |].
  rewrite Hux. change (ulps (Math_max zero zero)) with 0. lia.
Qed.

(** X10. Six whole days without opening the application clear every score:
    a well-formed state decays to the initial all-zero state, which decay
    then leaves as it is. *)
Theorem decay_full_recovery (s : FatigueMap) (n : Z) :
  well_formed s -> 6 <= n ->
  decay (number_of_Z n) s = initFatigue /\
  forall k : Z, decay (number_of_Z k) (decay (number_of_Z n) s) = initFatigue.
Proof.
  intros Hwf Hn.
  split; [apply decay_clears; assumption|].
  intros k. rewrite (decay_clears n s Hwf Hn). apply decay_initFatigue.
Qed.

Lemma decay_full_recovery_witness :
  well_formed (applySession chest45 initFatigue) /\ 6 <= 6 /\
  decay (number_of_Z 6) (applySession chest45 initFatigue) = initFatigue /\
  get (decay (number_of_Z 5) (applySession chest45 initFatigue)) Chest <> zero.
Proof.
  assert (H : well_formed (applySession chest45 initFatigue)).
  { intros []; eexists; (split; [reflexivity|]); repeat split. }
  split; [exact H|]. split; [lia|].
  split; [|intros E; vm_compute in E; discriminate E].
  exact (proj1 (decay_full_recovery (applySession chest45 initFatigue) 6 H ltac:(lia))).
Defined.

(** *** Sessions only add *)

Lemma clamped_sum_ge v a :
  score_ok v -> valid64 a = true -> nonneg a ->
  SFleb v (Math_min hundred (fadd v a)) = true /\
  (v = hundred -> Math_min hundred (fadd v a) = hundred).
Proof.
  intros Hs Hva Ha.
  destruct (score_ok_shape _ Hs) as (Hv & Hf & H100).
  destruct Hs as (_ & H0 & Hle).
  assert (Hn : nonneg v) by (apply leb_zero_nonneg; assumption).
  pose proof (fadd_nonneg v a Hn Ha) as Hz.
  pose proof (nonneg_not_nan _ Hz) as Hnan.
  pose proof (fadd_ge_left v a Hv Hva Hf Ha) as Hge.
  pose proof (fadd_valid v a Hv Hva) as Hvz.
  split.
  - destruct (Math_min_hundred_cases _ Hnan) as [->| ->]; assumption.
  - intros ->.
    destruct (Math_min_hundred_cases _ Hnan) as [E|E]; [assumption|].
    pose proof (Math_min_hundred_le _ Hnan) as Hzle. rewrite E in *.
    destruct hundred_facts as (Hvh & Hfh & Huh).
    assert (Hfz : finite_nonneg (fadd hundred a)).
    { destruct (fadd hundred a) as [s|[|]| |[|] m e]; cbn in Hz |- *;
        try exact I; try discriminate Hz; try contradiction; discriminate Hzle. }
    apply (proj1 (leb_ulps _ _ Hvz Hvh Hfz Hfh)) in Hzle.
    apply (proj1 (leb_ulps _ _ Hvh Hvz Hfh Hfz)) in Hge.
    destruct (ulps_inj _ _ Hvz Hvh Hfz Hfh ltac:(lia)) as [Eq|(sx & sy & _ & Ey)];
      [assumption | discriminate Ey].
Qed.

(** X11. A valid session never lowers a score: on a well-formed state every
    muscle reads at least what it read before, and a muscle at 100 stays
    at 100. *)
Theorem session_never_lowers (session : Session) (s : FatigueMap) (g : MuscleKey) :
  valid_session session -> well_formed s ->
  SFleb (get s g) (get (applySession session s) g) = true /\
  (get s g = hundred -> get (applySession session s) g = hundred).
Proof.
  intros Hses Hwf.
  destruct (session_amounts session Hses) as [[Hvd Hnd] [Hvs Hns]].
  pose proof (well_formed_get s g Hwf) as Hg.
  destruct (decide (g = muscle session)) as [->|Hne].
  - rewrite applySession_get_target. apply clamped_sum_ge; assumption.
  - destruct (decide (g ∈ synergists (muscle session))) as [Hin|Hout].
    + rewrite applySession_get_synergist by assumption.
      apply clamped_sum_ge; assumption.
    + rewrite applySession_get_other by assumption.
      split; [|tauto].
      apply SFleb_refl. apply nonneg_not_nan. apply leb_zero_nonneg. apply Hg.
Qed.

Lemma session_never_lowers_witness :
  valid_session chest45 /\ well_formed chest50 /\
  SFleb (get chest50 Chest) (get (applySession chest45 chest50) Chest) = true /\
  get (applySession chest45 chest50) Chest = hundred.
Proof.
  assert (H : well_formed chest50).
  { intros []; eexists; (split; [reflexivity|]); repeat split. }
  split; [exact chest45_valid|]. split; [exact H|].
  split; [|reflexivity].
  exact (proj1 (session_never_lowers chest45 chest50 Chest chest45_valid H)).
Defined.

(** *** Totals *)

Lemma whole_minutes_sum_nonneg (log : list Session) (ns : list Z) :
  Forall2 (fun h n => 0 <= n /\ minutes h = number_of_Z n) log ns ->
  0 <= foldr Z.add 0 ns.
Proof.
  induction 1 as [|h n log ns [Hn _] _ IH]; cbn [foldr]; lia.
Qed.

Lemma whole_minutes_foldl (log : list Session) (ns : list Z) :
  Forall2 (fun h n => 0 <= n /\ minutes h = number_of_Z n) log ns ->
  forall acc : Z,
    0 <= acc -> acc + foldr Z.add 0 ns < 2 ^ 53 ->
    foldl (fun s h => fadd s (minutes h)) (number_of_Z acc) log
    = number_of_Z (acc + foldr Z.add 0 ns).
Proof.
  induction 1 as [|h n log ns [Hn Hm] Hrest IH]; intros acc Hacc Hsum.
  - cbn [foldl foldr]. rewrite Z.add_0_r. reflexivity.
  - cbn [foldl foldr] in *.
    pose proof (whole_minutes_sum_nonneg _ _ Hrest) as Hpos.
    rewrite Hm, fadd_whole by lia.
    rewrite IH by lia. f_equal. ring.
Qed.

(** X12. The totals are exact: when every logged session has a whole number
    of minutes and the minutes add up to less than 2^53, the quick stats
    show the number of sessions and exactly the sum of the minutes. *)
Theorem totals_exact (st : AppState) (ns : list Z) :
  Forall2 (fun h n => 0 <= n /\ minutes h = number_of_Z n) (history st) ns ->
  foldr Z.add 0 ns < 2 ^ 53 ->
  totals st = (length ns, number_of_Z (foldr Z.add 0 ns)).
Proof.
  intros Hall Hsum. unfold totals.
  rewrite (Forall2_length _ _ _ Hall). f_equal.
  change zero with (number_of_Z 0).
  rewrite (whole_minutes_foldl _ _ Hall 0) by lia.
  reflexivity.
Qed.

Lemma totals_exact_witness :
  let st := {| fatigue := initFatigue; history := [back20; chest45];
               lastOpenISO := None |} in
  Forall2 (fun h n => 0 <= n /\ minutes h = number_of_Z n) (history st) [20; 45] /\
  foldr Z.add 0 [20; 45] < 2 ^ 53 /\
  totals st = (2%nat, number_of_Z 65).
Proof.
  intros st.
  assert (H : Forall2 (fun h n => 0 <= n /\ minutes h = number_of_Z n)
                      (history st) [20; 45]).
  { cbn [st history].
    constructor; [split; [lia | reflexivity]|].
    constructor; [split; [lia | reflexivity]|].
    constructor. }
  assert (Hs : foldr Z.add 0 [20; 45] < 2 ^ 53) by reflexivity.
  split; [exact H|]. split; [exact Hs|].
  exact (totals_exact st [20; 45] H Hs).
Defined.

(** *** Logging and deleting *)

Lemma withoutSession_NoDup i log :
  NoDup (map id log) -> NoDup (map id (withoutSession i log)).
Proof.
  induction log as [|h log IH]; intros Hnd; [exact Hnd|].
  cbn [map] in Hnd. apply NoDup_cons in Hnd as [Hh Hnd].
  rewrite withoutSession_cons. destruct (decide (id h <> i)); [|apply IH; assumption].
  cbn [map]. apply NoDup_cons. split; [|apply IH; assumption].
  intros Hin. apply Hh.
  apply list_elem_of_fmap in Hin as (h' & E & Hin').
  apply withoutSession_elem in Hin' as [Hin' _].
  apply list_elem_of_fmap. exists h'. split; assumption.
Qed.

Lemma withoutSession_comm i j log :
  withoutSession i (withoutSession j log) = withoutSession j (withoutSession i log).
Proof.
  induction log as [|h log IH]; [reflexivity|].
  rewrite !withoutSession_cons.
  destruct (decide (id h <> j)), (decide (id h <> i));
    rewrite ?withoutSession_cons;
    repeat match goal with
           | |- context [decide (?P)] => destruct (decide P); try contradiction
           end;
    rewrite ?IH; reflexivity.
Qed.

(** X13. Logging a session and then deleting it by its id gives back the
    history without the older entries of that id: exactly the previous
    history, with the same number of sessions, when the id is fresh. *)
Theorem add_then_remove (uid now : string) (form : Form.t) (st : AppState) :
  history (removeSession uid (addSession uid now form st))
  = withoutSession uid (history st) /\
  lastOpenISO (removeSession uid (addSession uid now form st)) = lastOpenISO st /\
  (uid ∉ map id (history st) ->
   history (removeSession uid (addSession uid now form st)) = history st /\
   fst (totals (removeSession uid (addSession uid now form st))) = fst (totals st)).
Proof.
  assert (E : history (removeSession uid (addSession uid now form st))
              = withoutSession uid (history st)).
  { cbn [removeSession addSession history]. rewrite withoutSession_cons.
    cbn [newSession id]. destruct (decide (uid <> uid)); [contradiction | reflexivity]. }
  split; [exact E|]. split; [reflexivity|].
  intros Hfresh.
  assert (E' : history (removeSession uid (addSession uid now form st)) = history st).
  { rewrite E. apply withoutSession_absent. assumption. }
  split; [exact E'|].
  unfold totals. cbn [fst]. rewrite E'. reflexivity.
Qed.

Lemma add_then_remove_witness :
  let st := {| fatigue := initFatigue; history := [back20]; lastOpenISO := None |} in
  let form := {| Form.muscle := Chest; Form.minutes := number_of_Z 45;
                 Form.load := number_of_Z 3; Form.notes := "" |} in
  ("k3x9"%string ∉ map id (history st)) /\
  history (removeSession "k3x9" (addSession "k3x9" "t" form st)) = [back20].
Proof.
  intros st form.
  assert (H : "k3x9"%string ∉ map id (history st)).
  { intros Hin. absurd_member Hin. }
  split; [exact H|].
  exact (proj1 (proj2 (proj2 (add_then_remove "k3x9" "t" form st)) H)).
Defined.

(** X14. Distinct ids are kept: if no two entries of the history share an
    id, this is still so after deleting any session, after logging a session
    under a fresh id, after the mount effect and after a reset. *)
Theorem unique_ids_kept (st : AppState) :
  NoDup (map id (history st)) ->
  (forall i : string, NoDup (map id (history (removeSession i st)))) /\
  (forall (uid now : string) (form : Form.t),
     uid ∉ map id (history st) ->
     NoDup (map id (history (addSession uid now form st)))) /\
  (forall (nowISO : string) (days : number),
     NoDup (map id (history (onOpen nowISO days st)))) /\
  (forall confirmed : bool, NoDup (map id (history (resetAll confirmed st)))).
Proof.
  intros Hnd. split; [|split; [|split]].
  - intros i. cbn [removeSession history]. apply withoutSession_NoDup. assumption.
  - intros uid now form Hfresh. cbn [addSession history map newSession id].
    apply NoDup_cons. split; assumption.
  - intros nowISO days. unfold onOpen. destruct (lastOpenISO st); exact Hnd.
  - intros []; cbn [resetAll history]; [apply NoDup_nil_2 | exact Hnd].
Qed.

Lemma unique_ids_kept_witness :
  let st := {| fatigue := initFatigue; history := [back20; chest45];
               lastOpenISO := None |} in
  NoDup (map id (history st)) /\
  NoDup (map id (history (removeSession "p7q2" st))).
Proof.
  intros st.
  assert (H : NoDup (map id (history st))).
  { cbn [st history map id back20 chest45].
    repeat (apply NoDup_cons; split; [intros Hin; absurd_member Hin|]).
    apply NoDup_nil_2. }
  split; [exact H|].
  exact (proj1 (unique_ids_kept st H) "p7q2"%string).
Defined.

(** X15. Deletions commute, and deleting never touches fatigue: removing
    two sessions in either order gives the same state. *)
Theorem remove_commutes (i j : string) (st : AppState) :
  removeSession i (removeSession j st) = removeSession j (removeSession i st) /\
  fatigue (removeSession i (removeSession j st)) = fatigue st.
Proof.
  split; [|reflexivity].
  unfold removeSession. cbn [fatigue history lastOpenISO].
  rewrite withoutSession_comm. reflexivity.
Qed.

(** *** Reset *)

(** X16. A confirmed reset clears all scores and the whole history, so the
    board shows 0 in green for every muscle and the totals are 0; it keeps
    the date of the last opening, and the decay of the next opening leaves
    the scores at 0 whatever the number of days.  A declined reset changes
    nothing. *)
Theorem reset_clears (st : AppState) :
  fatigue (resetAll true st) = initFatigue /\
  history (resetAll true st) = [] /\
  lastOpenISO (resetAll true st) = lastOpenISO st /\
  totals (resetAll true st) = (0%nat, zero) /\
  (forall g : MuscleKey,
     get (fatigue (resetAll true st)) g = zero /\
     boardPct (fatigue (resetAll true st)) g = zero /\
     boardColor (fatigue (resetAll true st)) g = "bg-green-500"%string) /\
  (forall (nowISO : string) (n : Z),
     fatigue (onOpen nowISO (number_of_Z n) (resetAll true st)) = initFatigue) /\
  resetAll false st = st.
Proof.
  split; [reflexivity|]. split; [reflexivity|]. split; [reflexivity|].
  split; [reflexivity|]. split; [|split; [|reflexivity]].
  - intros g. cbn [resetAll fatigue].
    assert (E : get initFatigue g = zero).
    { unfold get. rewrite initFatigue_lookup. reflexivity. }
    unfold boardColor, boardPct. rewrite E. repeat split.
  - intros nowISO n. unfold onOpen. cbn [resetAll lastOpenISO fatigue].
    destruct (lastOpenISO st); [apply decay_initFatigue | reflexivity].
Qed.

(** *** Notes *)

Lemma append_cons c s t : String c s +:+ t = String c (s +:+ t).
Proof. reflexivity. Qed.

Lemma append_nil_l t : "" +:+ t = t.
Proof. reflexivity. Qed.

Lemma append_nil_r s : s +:+ "" = s.
Proof. induction s as [|c s IH]; [reflexivity|]. rewrite append_cons, IH. reflexivity. Qed.

Lemma append_assoc s t u : (s +:+ t) +:+ u = s +:+ (t +:+ u).
Proof.
  induction s as [|c s IH]; [reflexivity|].
  rewrite !append_cons, IH. reflexivity.
Qed.

Lemma append_length s t :
  String.length (s +:+ t) = (String.length s + String.length t)%nat.
Proof.
  induction s as [|c s IH]; [reflexivity|].
  rewrite append_cons. cbn [String.length]. rewrite IH. reflexivity.
Qed.

Lemma trim_start_eq s :
  trim_start s = match space_prefix s with Some r => trim_start r | None => s end.
Proof.
  destruct s as [|a [|b [|c r]]]; try reflexivity.
  - cbn [trim_start space_prefix]. destruct (space1 a); reflexivity.
  - cbn [space_prefix].
    destruct (space1 a) eqn:E1; [|destruct (space2 a b) eqn:E2];
      cbn [trim_start]; rewrite ?E1, ?E2; reflexivity.
  - cbn [space_prefix].
    destruct (space1 a) eqn:E1;
      [|destruct (space2 a b) eqn:E2; [|destruct (space3 a b c) eqn:E3]];
      cbn [trim_start]; rewrite ?E1, ?E2, ?E3; reflexivity.
Qed.

Lemma all_space_eq s :
  all_space s = match s with
                | EmptyString => true
                | String _ _ =>
                    match space_prefix s with Some r => all_space r | None => false end
                end.
Proof.
  destruct s as [|a [|b [|c r]]]; try reflexivity.
  - cbn [all_space space_prefix]. destruct (space1 a); reflexivity.
  - cbn [space_prefix].
    destruct (space1 a) eqn:E1; [|destruct (space2 a b) eqn:E2];
      cbn [all_space]; rewrite ?E1, ?E2; reflexivity.
  - cbn [space_prefix].
    destruct (space1 a) eqn:E1;
      [|destruct (space2 a b) eqn:E2; [|destruct (space3 a b c) eqn:E3]];
      cbn [all_space]; rewrite ?E1, ?E2, ?E3; try reflexivity.
Qed.

(** A leading white-space character is a string of one to three bytes. *)
Lemma space_prefix_token s r :
  space_prefix s = Some r ->
  exists w, s = w +:+ r /\ w <> ""%string /\ all_space w = true /\
            forall x, space_prefix (w +:+ x) = Some x.
Proof.
  destruct s as [|a [|b [|c r3]]]; cbn [space_prefix]; try discriminate.
  - destruct (space1 a) eqn:E1; [|discriminate].
    intros H. inversion H; subst r.
    exists (String a ""). split; [reflexivity|]. split; [discriminate|].
    split; [cbn [all_space]; rewrite E1; reflexivity|].
    intros x. rewrite append_cons, append_nil_l. cbn [space_prefix].
    rewrite E1. reflexivity.
  - destruct (space1 a) eqn:E1.
    + intros H. inversion H; subst r.
      exists (String a ""). split; [reflexivity|]. split; [discriminate|].
      split; [cbn [all_space]; rewrite E1; reflexivity|].
      intros x. rewrite append_cons, append_nil_l. cbn [space_prefix].
      rewrite E1. reflexivity.
    + destruct (space2 a b) eqn:E2; [|discriminate].
      intros H. inversion H; subst r.
      exists (String a (String b "")). split; [reflexivity|]. split; [discriminate|].
      split; [cbn [all_space]; rewrite E1, E2; reflexivity|].
      intros x. rewrite !append_cons, append_nil_l. cbn [space_prefix].
      rewrite E1, E2. reflexivity.
  - destruct (space1 a) eqn:E1.
    + intros H. inversion H; subst r.
      exists (String a ""). split; [reflexivity|]. split; [discriminate|].
      split; [cbn [all_space]; rewrite E1; reflexivity|].
      intros x. rewrite append_cons, append_nil_l. cbn [space_prefix].
      rewrite E1. reflexivity.
    + destruct (space2 a b) eqn:E2.
      * intros H. inversion H; subst r.
        exists (String a (String b "")). split; [reflexivity|]. split; [discriminate|].
        split; [cbn [all_space]; rewrite E1, E2; reflexivity|].
        intros x. rewrite !append_cons, append_nil_l. cbn [space_prefix].
        rewrite E1, E2. reflexivity.
      * destruct (space3 a b c) eqn:E3; [|discriminate].
        intros H. inversion H; subst r.
        exists (String a (String b (String c ""))).
        split; [reflexivity|]. split; [discriminate|].
        split; [cbn [all_space]; rewrite E1, E2, E3; reflexivity|].
        intros x. rewrite !append_cons, append_nil_l. cbn [space_prefix].
        rewrite E1, E2, E3. reflexivity.
Qed.

(** Induction over a string of white space, character by character. *)
Lemma all_space_ind (P : string -> Prop) :
  P ""%string ->
  (forall w r, w <> ""%string -> (forall x, space_prefix (w +:+ x) = Some x) ->
               all_space r = true -> P r -> P (w +:+ r)) ->
  forall a, all_space a = true -> P a.
Proof.
  intros H0 Hstep a.
  remember (String.length a) as n eqn:Hn.
  revert a Hn. induction n as [n IH] using lt_wf_ind. intros a Hn Ha.
  destruct a as [|c a']; [exact H0|].
  rewrite all_space_eq in Ha.
  destruct (space_prefix (String c a')) as [r|] eqn:E; [|discriminate].
  destruct (space_prefix_token _ _ E) as (w & Ew & Hw & _ & Hpre).
  rewrite Ew. apply Hstep; try assumption.
  apply (IH (String.length r)); [|reflexivity | assumption].
  rewrite Hn, Ew, append_length.
  destruct w; [contradiction|]. cbn [String.length]. lia.
Qed.

Lemma all_space_app a b :
  all_space a = true -> all_space b = true -> all_space (a +:+ b) = true.
Proof.
  intros Ha Hb. revert a Ha. apply all_space_ind; [exact Hb|].
  intros w r Hw Hpre _ IH. rewrite append_assoc, all_space_eq.
  destruct w as [|c w']; [contradiction|].
  rewrite append_cons, <- append_cons, Hpre. exact IH.
Qed.

Lemma trim_start_app a x :
  all_space a = true -> trim_start (a +:+ x) = trim_start x.
Proof.
  revert a. apply all_space_ind; [reflexivity|].
  intros w r _ Hpre _ IH. rewrite append_assoc, trim_start_eq, Hpre. exact IH.
Qed.

Lemma trim_start_all_space s : all_space s = true -> trim_start s = ""%string.
Proof.
  intros Hs. rewrite <- (append_nil_r s). rewrite trim_start_app by assumption.
  reflexivity.
Qed.

Lemma trim_start_split s :
  exists a, s = a +:+ trim_start s /\ all_space a = true.
Proof.
  remember (String.length s) as n eqn:Hn.
  revert s Hn. induction n as [n IH] using lt_wf_ind. intros s Hn.
  rewrite trim_start_eq.
  destruct (space_prefix s) as [r|] eqn:E.
  - destruct (space_prefix_token _ _ E) as (w & Ew & Hw & Hws & _).
    destruct (IH (String.length r)) with (s := r) as (a & Ea & Ha); [|reflexivity|].
    { rewrite Hn, Ew, append_length. destruct w; [contradiction|].
      cbn [String.length]. lia. }
    exists (w +:+ a). split.
    + rewrite append_assoc, <- Ea. exact Ew.
    + apply all_space_app; assumption.
  - exists ""%string. split; reflexivity.
Qed.

Lemma trim_start_fixed s : trim_start (trim_start s) = trim_start s.
Proof.
  destruct (trim_start_split s) as (a & Ea & Ha).
  rewrite Ea at 2. rewrite trim_start_app by assumption. reflexivity.
Qed.

Lemma trim_start_length s : (String.length (trim_start s) <= String.length s)%nat.
Proof.
  destruct (trim_start_split s) as (a & Ea & _).
  rewrite Ea at 2. rewrite append_length. lia.
Qed.

Lemma trim_end_split s :
  exists b, s = trim_end s +:+ b /\ all_space b = true.
Proof.
  induction s as [|c s (b & Eb & Hb)]; [exists ""%string; split; reflexivity|].
  cbn [trim_end]. destruct (all_space (String c s)) eqn:E.
  - exists (String c s). split; [reflexivity | exact E].
  - exists b. rewrite append_cons, <- Eb. split; [reflexivity | exact Hb].
Qed.

(** What [trim_end] returns has no white space at its end. *)
Lemma trim_end_no_suffix s a b :
  trim_end s = a +:+ b -> all_space b = true -> b = ""%string.
Proof.
  revert a. induction s as [|c s IH]; intros a E Hb.
  - cbn [trim_end] in E. destruct a; [|discriminate E].
    rewrite append_nil_l in E. congruence.
  - cbn [trim_end] in E. destruct (all_space (String c s)) eqn:Hs.
    + destruct a; [|discriminate E]. rewrite append_nil_l in E. congruence.
    + destruct a as [|c' a'].
      * rewrite append_nil_l in E. exfalso.
        destruct (trim_end_split s) as (b0 & Eb0 & Hb0).
        assert (Hall : all_space (String c s) = true).
        { rewrite Eb0, <- append_cons, E. apply all_space_app; assumption. }
        congruence.
      * rewrite append_cons in E. inversion E; subst c'.
        apply (IH a'); assumption.
Qed.

(** What [trim] returns has no white space at its start. *)
Lemma trim_no_prefix s a b :
  trim s = a +:+ b -> all_space a = true -> a = ""%string.
Proof.
  unfold trim. intros E Ha.
  destruct (trim_end_split (trim_start s)) as (b0 & Eb0 & Hb0).
  rewrite E, append_assoc in Eb0.
  pose proof (trim_start_fixed s) as Hfix.
  rewrite Eb0 in Hfix at 1. rewrite trim_start_app in Hfix by assumption.
  pose proof (trim_start_length (b +:+ b0)) as Hlen.
  rewrite Hfix, Eb0, !append_length in Hlen.
  destruct a; [reflexivity|]. cbn [String.length] in Hlen. lia.
Qed.

Lemma trim_split s :
  exists a b, s = a +:+ trim s +:+ b /\ all_space a = true /\ all_space b = true.
Proof.
  destruct (trim_start_split s) as (a & Ea & Ha).
  destruct (trim_end_split (trim_start s)) as (b & Eb & Hb).
  exists a, b. unfold trim. rewrite <- Eb. auto.
Qed.

(** X17. Stored notes are never the empty string.  Notes are stored as
    absent exactly when they consist of white space only (the WhiteSpace and
    LineTerminator characters of ECMAScript, not just those of ASCII; the
    empty string included).  Stored notes are the typed text without a run
    of white space at either end, and have no white space left at their
    start or at their end. *)
Theorem notes_trimmed (s : string) :
  notes_of s <> Some ""%string /\
  (notes_of s = None <-> all_space s = true) /\
  (forall t : string, notes_of s = Some t ->
     (exists a b, s = a +:+ t +:+ b /\ all_space a = true /\ all_space b = true) /\
     (forall a b, t = a +:+ b -> all_space a = true -> a = ""%string) /\
     (forall a b, t = a +:+ b -> all_space b = true -> b = ""%string)).
Proof.
  unfold notes_of. cbv zeta. split; [|split].
  - destruct (String.eqb_spec (trim s) ""); [discriminate|]. congruence.
  - destruct (String.eqb_spec (trim s) "") as [E|Hne].
    + split; [intros _|reflexivity].
      destruct (trim_split s) as (a & b & Es & Ha & Hb).
      rewrite E, append_nil_l in Es. rewrite Es. apply all_space_app; assumption.
    + split; [discriminate|]. intros Hs. exfalso. apply Hne.
      unfold trim. rewrite (trim_start_all_space s Hs). reflexivity.
  - intros t. destruct (String.eqb_spec (trim s) "") as [|Hne]; [discriminate|].
    intros E. inversion E; subst t. split; [apply trim_split|]. split.
    + intros a b. apply trim_no_prefix.
    + intros a b. unfold trim. apply trim_end_no_suffix.
Qed.

Lemma notes_trimmed_witness :
  notes_of "  4x8 press banca " = Some "4x8 press banca"%string /\
  notes_of (String (Ascii.ascii_of_N 194) (String (Ascii.ascii_of_N 160) " ")) = None /\
  (exists a b, "  4x8 press banca "%string = a +:+ "4x8 press banca" +:+ b /\
               all_space a = true /\ all_space b = true).
Proof.
  assert (E : notes_of "  4x8 press banca " = Some "4x8 press banca"%string)
    by reflexivity.
  assert (H : all_space (String (Ascii.ascii_of_N 194)
                           (String (Ascii.ascii_of_N 160) " ")) = true)
    by reflexivity.
  split; [exact E|].
  split; [exact (proj2 (proj1 (proj2 (notes_trimmed _))) H)|].
  exact (proj1 (proj2 (proj2 (notes_trimmed "  4x8 press banca ")) _ E)).
Defined.

(** *** The base amount of a session *)

Lemma finite_nonneg_ulps x : finite_nonneg x -> 0 <= ulps x.
Proof.
  destruct x as [s|s| |[|] m e]; cbn [finite_nonneg ulps cond_Zopp];
    try contradiction; lia.
Qed.

Lemma fadd_ge_bound mw ew v a :
  valid64 (S754_finite false mw ew) = true ->
  valid64 v = true -> valid64 a = true -> finite_nonneg v -> nonneg a ->
  a = S754_infinity false \/ ulps (S754_finite false mw ew) <= ulps v + ulps a ->
  SFleb (S754_finite false mw ew) (fadd v a) = true.
Proof.
  intros Hw Hv Ha Fv Na Hb.
  destruct (valid_finite_bounds _ _ _ Hw) as (Hew & _).
  pose proof (ulps_finite_pos mw ew ltac:(lia)) as Hpos.
  destruct v as [sv| | |[|] mx ex]; try contradiction;
    destruct a as [sa|[|]| |[|] my ey]; simpl in Na; try contradiction;
    try discriminate Na; try reflexivity.
  - destruct Hb as [Hb|Hb]; [discriminate Hb|]. cbn [ulps] in Hb, Hpos. lia.
  - destruct Hb as [Hb|Hb]; [discriminate Hb|].
    change (fadd (S754_zero sv) (S754_finite false my ey)) with (S754_finite false my ey).
    apply (proj2 (leb_ulps _ _ Hw Ha I I)). cbn [ulps] in Hb |- *. lia.
  - destruct Hb as [Hb|Hb]; [discriminate Hb|].
    change (fadd (S754_finite false mx ex) (S754_zero sa)) with (S754_finite false mx ex).
    apply (proj2 (leb_ulps _ _ Hw Hv I I)). cbn [ulps] in Hb |- *. lia.
  - destruct Hb as [Hb|Hb]; [discriminate Hb|].
    destruct (valid_finite_bounds _ _ _ Hv) as (Hex & _).
    destruct (valid_finite_bounds _ _ _ Ha) as (Hey & _).
    destruct (fadd_aligned mx ex my ey) as (M & -> & HM); try lia.
    apply binary_round_ge; [assumption | lia |].
    rewrite HM. cbn [ulps cond_Zopp] in Hb |- *. lia.
Qed.

Lemma session_product session :
  valid_session session ->
  valid64 (fmul (fmul LOAD_FACTOR (load session)) (minutes session)) = true /\
  nonneg (fmul (fmul LOAD_FACTOR (load session)) (minutes session)).
Proof.
  intros [(n & Hn & Em) (l & Hl & El)]. rewrite Em, El.
  assert (Hc : valid64 (fmul LOAD_FACTOR (number_of_Z l)) = true /\
               nonneg (fmul LOAD_FACTOR (number_of_Z l)) /\
               finite_number (fmul LOAD_FACTOR (number_of_Z l))).
  { assert (Hcases : l = 1 \/ l = 2 \/ l = 3 \/ l = 4 \/ l = 5) by lia.
    destruct Hcases as [->|[->|[->|[->| ->]]]]; vm_compute; auto. }
  destruct Hc as (Hcv & Hcn & Hcf).
  apply fmul_nonneg; auto using number_of_Z_valid.
  apply number_of_Z_nonneg. lia.
Qed.

(** X18. Every valid session counts for at least the base amount: its delta
    is at least [SESSION_BASE] (4), and on a well-formed state the trained
    muscle reads at least 4 afterwards. *)
Theorem session_at_least_base (session : Session) (s : FatigueMap) :
  valid_session session -> well_formed s ->
  SFleb SESSION_BASE (sessionDelta session) = true /\
  SFleb SESSION_BASE (get (applySession session s) (muscle session)) = true.
Proof.
  intros Hses Hwf.
  destruct (session_product session Hses) as [Hxv Hxn].
  destruct (session_amounts session Hses) as [[Hvd Hnd] _].
  assert (Hd : SFleb SESSION_BASE (sessionDelta session) = true).
  { unfold sessionDelta. apply fadd_ge_left; [reflexivity | assumption | exact I | assumption]. }
  split; [assumption|].
  rewrite applySession_get_target.
  destruct (score_ok_shape _ (well_formed_get s (muscle session) Hwf)) as (Hv & Hf & _).
  pose proof (finite_nonneg_ulps _ Hf) as Hu.
  assert (Hn : nonneg (get s (muscle session))).
  { apply leb_zero_nonneg. apply (well_formed_get s (muscle session) Hwf). }
  assert (Hz : SFleb SESSION_BASE
                 (fadd (get s (muscle session)) (sessionDelta session)) = true).
  { unfold SESSION_BASE at 1.
    apply fadd_ge_bound; try assumption; [reflexivity|].
    destruct (sessionDelta session) as [sd|[|]| |[|] md ed] eqn:Ed;
      simpl in Hnd; try contradiction; try discriminate Hnd.
    - discriminate Hd.
    - left. reflexivity.
    - right.
      apply (proj1 (leb_ulps SESSION_BASE _ eq_refl Hvd I I)) in Hd.
      unfold SESSION_BASE in Hd. lia. }
  destruct (Math_min_hundred_cases _
              (nonneg_not_nan _ (fadd_nonneg _ _ Hn Hnd))) as [->| ->];
    [reflexivity | assumption].
Qed.

Lemma session_at_least_base_witness :
  valid_session chest45 /\ well_formed initFatigue /\
  SFleb SESSION_BASE (sessionDelta chest45) = true /\
  SFleb SESSION_BASE (get (applySession chest45 initFatigue) Chest) = true.
Proof.
  split; [exact chest45_valid|]. split; [exact initFatigue_well_formed|].
  exact (session_at_least_base chest45 initFatigue chest45_valid initFatigue_well_formed).
Defined.

(** *** Whole days between two openings *)

Lemma Math_floor_between v n :
  valid64 v = true -> finite_nonneg v -> v <> S754_zero true ->
  0 <= n < 2 ^ 53 -> units n <= ulps v < units (n + 1) ->
  Math_floor v = number_of_Z n.
Proof.
  intros Hv Hf Hz Hn [Hlo Hhi]. pose proof ebias_pow_pos as Hpe.
  destruct v as [[|]| | |[|] m e]; try contradiction.
  - cbn [ulps] in Hlo, Hhi. unfold units in Hlo, Hhi.
    assert (n = 0) by (destruct (Z.eq_dec n 0); [assumption | exfalso; nia]).
    subst n. reflexivity.
  - destruct (valid_finite_bounds _ _ _ Hv) as (He & Hm & _).
    cbn [ulps cond_Zopp] in Hlo, Hhi. unfold units in Hlo, Hhi.
    cbn [Math_floor]. destruct (Z.leb_spec 0 e) as [Hpos|Hneg].
    + apply whole_is_literal; try assumption.
      cbn [ulps cond_Zopp]. unfold units.
      rewrite (Z.pow_add_r 2 e ebias) in Hlo, Hhi |- * by (unfold ebias; lia).
      rewrite Z.mul_assoc in Hlo, Hhi.
      apply Z.mul_le_mono_pos_r in Hlo; [|assumption].
      apply Z.mul_lt_mono_pos_r in Hhi; [|assumption].
      assert (n = Z.pos m * 2 ^ e) by lia. subst n. ring.
    + cbn [cond_Zopp]. unfold number_of_Z. f_equal.
      assert (E : 2 ^ ebias = 2 ^ (- e) * 2 ^ (e + ebias)).
      { rewrite <- Z.pow_add_r by lia. f_equal. lia. }
      assert (Hp : 0 < 2 ^ (e + ebias)) by (apply pow2_pos; lia).
      assert (Hq : 0 < 2 ^ (- e)) by (apply pow2_pos; lia).
      rewrite E in Hlo, Hhi.
      rewrite !Z.mul_assoc in Hlo, Hhi.
      apply Z.mul_le_mono_pos_r in Hlo; [|assumption].
      apply Z.mul_lt_mono_pos_r in Hhi; [|assumption].
      symmetry. apply (Z.div_unique _ _ n (Z.pos m - n * 2 ^ (- e))); [|ring].
      left. lia.
Qed.

Lemma fsub_whole a b :
  0 <= b <= a -> a < 2 ^ 53 ->
  fsub (number_of_Z a) (number_of_Z b) = number_of_Z (a - b).
Proof.
  intros Hab Ha.
  destruct (Z.eq_dec b 0) as [->|Hb0].
  { rewrite Z.sub_0_r. destruct (Z.eq_dec a 0) as [->|Ha0]; [reflexivity|].
    destruct (number_of_Z_exact a ltac:(lia)) as (mx & ex & -> & _). reflexivity. }
  destruct (number_of_Z_exact a ltac:(lia)) as (mx & ex & Ea & Hva & Hua).
  destruct (number_of_Z_exact b ltac:(lia)) as (my & ey & Eb & Hvb & Hub).
  rewrite Ea, Eb in *.
  destruct (valid_finite_bounds _ _ _ Hva) as (Hex & _).
  destruct (valid_finite_bounds _ _ _ Hvb) as (Hey & _).
  destruct (fsub_aligned mx ex my ey) as (M & -> & HM); try lia.
  rewrite Hua, Hub in HM.
  assert (HMu : M * 2 ^ (Z.min ex ey + ebias) = units (a - b))
    by (rewrite HM; unfold units; ring).
  assert (Hp : 0 < 2 ^ (Z.min ex ey + ebias)) by (apply pow2_pos; lia).
  pose proof ebias_pow_pos as Hpe.
  destruct (Z.eq_dec a b) as [->|Hne].
  { rewrite Z.sub_diag in *. unfold units in HMu.
    assert (M = 0) by nia. subst M. reflexivity. }
  assert (HMpos : 0 < M).
  { unfold units in HMu. nia. }
  destruct M as [|M|M]; try lia.
  change (binary_normalize prec emax (Z.pos M) (Z.min ex ey) false)
    with (binary_round prec emax false M (Z.min ex ey)).
  destruct (binary_round_exact false M (Z.min ex ey) 0) as [Hv Hu].
  - lia.
  - unfold ebias; lia.
  - rewrite HMu. apply Z.divide_factor_r.
  - rewrite HMu. replace (53 + 0 + ebias) with (53 + ebias) by lia.
    rewrite <- (units_pow 53) by lia. apply (proj1 (units_lt _ _)). lia.
  - rewrite HMu. rewrite <- (units_pow 1024) by lia. apply (proj1 (units_lt _ _)).
    apply Z.lt_trans with (2 ^ 53); [lia | reflexivity].
  - cbn [cond_Zopp] in Hu. rewrite HMu in Hu.
    pose proof (binary_round_signed false M (Z.min ex ey)) as Hs.
    destruct (signed_false_ulps_pos _ Hs) as (m & e & E).
    { rewrite Hu. unfold units. nia. }
    rewrite E in *.
    apply whole_is_literal; try assumption; try exact I; try discriminate; lia.
Qed.

Lemma msPerDay_literal : msPerDay = S754_finite false 5798205849600000 (-26).
Proof. reflexivity. Qed.

Lemma msPerDay_mantissa_eq : msPerDay_mantissa = 86400000 * 2 ^ 26.
Proof. reflexivity. Qed.

Lemma div_core_day m1 e1 :
  Zdigits2 (Z.pos m1) = 53 -> - 1000 <= e1 ->
  SFdiv_core_binary prec emax (Z.pos m1) e1 msPerDay_mantissa (-26)
  = ((Z.pos m1 * 2 ^ 53) / msPerDay_mantissa, e1 - 27,
     new_location msPerDay_mantissa ((Z.pos m1 * 2 ^ 53) mod msPerDay_mantissa)).
Proof.
  intros Hd He. unfold SFdiv_core_binary.
  rewrite Hd.
  replace (Zdigits2 msPerDay_mantissa) with 53 by reflexivity.
  rewrite fexp_fexp64.
  replace (Z.min (fexp64 (53 + e1 - (53 + -26))) (e1 - -26)) with (e1 - 27)
    by (unfold fexp64, ebias; lia).
  replace (e1 - -26 - (e1 - 27)) with 53 by lia.
  rewrite Z.shiftl_mul_pow2 by lia.
  unfold Z.div, Z.modulo.
  destruct (Z.div_eucl (Z.pos m1 * 2 ^ 53) msPerDay_mantissa) as [q r].
  reflexivity.
Qed.


Lemma day_quotient_bounds d w q :
  0 <= d -> 28 <= w -> q = (d * 2 ^ w) / 86400000 ->
  let n := d / 86400000 in
  n * 2 ^ w <= q /\ q + 2 < (n + 1) * 2 ^ w.
Proof.
  intros Hd Hw Hq n.
  assert (HP : 2 ^ 28 <= 2 ^ w) by (apply Z.pow_le_mono_r; lia).
  set (P := 2 ^ w) in *. change (2 ^ 28) with 268435456 in HP.
  pose proof (Z.mul_div_le d 86400000 ltac:(lia)) as Hn1.
  pose proof (Z.mul_succ_div_gt d 86400000 ltac:(lia)) as Hn2.
  pose proof (Z.mul_div_le (d * P) 86400000 ltac:(lia)) as Hq1.
  pose proof (Z.mul_succ_div_gt (d * P) 86400000 ltac:(lia)) as Hq2.
  fold n in Hn1, Hn2. rewrite <- Hq in Hq1, Hq2.
  split.
  - rewrite Hq. apply Z.div_le_lower_bound; [lia|].
    replace (86400000 * (n * P)) with ((86400000 * n) * P) by ring.
    apply Z.mul_le_mono_nonneg_r; lia.
  - assert (H1 : d * P <= (86400000 * n + 86399999) * P)
      by (apply Z.mul_le_mono_nonneg_r; lia).
    assert (H2 : 86400000 * (q + 2) < 86400000 * ((n + 1) * P)) by lia.
    apply Z.mul_lt_mono_pos_l in H2; lia.
Qed.

Lemma fdiv_day d :
  1 <= d < 2 ^ 52 ->
  valid64 (fdiv (number_of_Z d) msPerDay) = true /\
  finite_nonneg (fdiv (number_of_Z d) msPerDay) /\
  fdiv (number_of_Z d) msPerDay <> S754_zero true /\
  units (d / 86400000) <= ulps (fdiv (number_of_Z d) msPerDay)
                        < units (d / 86400000 + 1).
Proof.
  intros Hd. destruct d as [|p|p]; try lia.
  assert (Hp53 : Z.pos p < 2 ^ 53).
  { apply Z.lt_trans with (2 ^ 52); [lia | reflexivity]. }
  destruct (number_of_Z_small p Hp53) as [Hk0 Hsmall]. cbv zeta in Hk0, Hsmall.
  set (k := 53 - Zdigits2 (Z.pos p)) in *.
  pose proof (digits_bounds (Z.pos p) ltac:(lia)) as [Hdlo Hdhi].
  assert (Hk : 1 <= k <= 52).
  { split.
    - assert (Zdigits2 (Z.pos p) <= Zdigits2 (2 ^ 52 - 1)) by (apply digits_le; lia).
      change (Zdigits2 (2 ^ 52 - 1)) with 52 in H. unfold k. lia.
    - assert (Zdigits2 1 <= Zdigits2 (Z.pos p)) by (apply digits_le; lia).
      change (Zdigits2 1) with 1 in H. unfold k. lia. }
  change (number_of_Z (Z.pos p)) with (binary_round prec emax false p 0).
  rewrite (Hsmall false).
  assert (Hmpos : 0 < Z.pos p * 2 ^ k).
  { apply Z.mul_pos_pos; [lia | apply pow2_pos; lia]. }
  set (m1 := Z.to_pos (Z.pos p * 2 ^ k)).
  assert (Em1 : Z.pos m1 = Z.pos p * 2 ^ k) by (unfold m1; rewrite Z2Pos.id; lia).
  assert (Hdig : Zdigits2 (Z.pos m1) = 53).
  { rewrite Em1, digits_shift by lia. unfold k. lia. }
  change (fdiv (S754_finite false m1 (- k)) msPerDay)
    with (let '(mz, ez, lz) :=
            SFdiv_core_binary prec emax (Z.pos m1) (- k) msPerDay_mantissa (-26) in
          binary_round_aux prec emax false mz ez lz).
  rewrite (div_core_day m1 (- k) Hdig ltac:(lia)).
  set (q := (Z.pos m1 * 2 ^ 53) / msPerDay_mantissa).
  set (l := new_location msPerDay_mantissa ((Z.pos m1 * 2 ^ 53) mod msPerDay_mantissa)).
  set (w := k + 27).
  assert (Hq : q = (Z.pos p * 2 ^ w) / 86400000).
  { unfold q. rewrite Em1, msPerDay_mantissa_eq.
    replace (Z.pos p * 2 ^ k * 2 ^ 53) with ((Z.pos p * 2 ^ w) * 2 ^ 26).
    - apply Z.div_mul_cancel_r; [lia | apply Z.pow_nonzero; lia].
    - unfold w. rewrite (Z.pow_add_r 2 k 27) by lia.
      change (2 ^ 53) with (2 ^ 27 * 2 ^ 26). ring. }
  destruct (day_quotient_bounds (Z.pos p) w q ltac:(lia) ltac:(unfold w; lia) Hq)
    as [Hlo Hhi].
  set (n := Z.pos p / 86400000) in *.
  assert (Hn0 : 0 <= n) by (apply Z.div_pos; lia).
  assert (HP : 0 < 2 ^ w) by (apply pow2_pos; unfold w; lia).
  assert (Hq52 : 2 ^ 52 <= q).
  { rewrite Hq. apply Z.div_le_lower_bound; [lia|].
    apply Z.le_trans with (2 ^ 27 * 2 ^ 52); [apply Z.mul_le_mono_nonneg_r; lia|].
    apply Z.le_trans with (2 ^ (Zdigits2 (Z.pos p) - 1) * 2 ^ w).
    - rewrite <- !Z.pow_add_r by (unfold w, k; lia).
      apply Z.pow_le_mono_r; [lia|]. unfold w, k. lia.
    - apply Z.mul_le_mono_nonneg_r; lia. }
  assert (Hq54 : q < 2 ^ 54).
  { rewrite Hq. apply Z.div_lt_upper_bound; [lia|].
    apply Z.lt_le_trans with (2 ^ Zdigits2 (Z.pos p) * 2 ^ w).
    - apply Z.mul_lt_mono_pos_r; lia.
    - rewrite <- Z.pow_add_r by (unfold w, k; lia).
      replace (Zdigits2 (Z.pos p) + w) with 80 by (unfold w, k; lia).
      vm_compute. discriminate. }
  assert (Hdq : Zdigits2 q = 53 \/ Zdigits2 q = 54).
  { assert (Zdigits2 (2 ^ 52) <= Zdigits2 q) by (apply digits_le; lia).
    assert (Zdigits2 q <= Zdigits2 (2 ^ 54 - 1)) by (apply digits_le; lia).
    change (Zdigits2 (2 ^ 52)) with 53 in *.
    change (Zdigits2 (2 ^ 54 - 1)) with 54 in *. lia. }
  destruct (binary_round_aux_shape false q (- k - 27) l ltac:(lia)) as (m2 & Hm2 & _ & Hm53 & Hnorm & _ & ->).
  { unfold fexp64, ebias. lia. }
  cbv zeta in Hm2.
  set (e1 := fexp64 (Zdigits2 q + (- k - 27))) in *.
  assert (He1 : e1 = Zdigits2 q - w - 53) by (unfold e1, fexp64, ebias, w; lia).
  assert (Hkk : e1 - (- k - 27) = Zdigits2 q - 53) by (unfold w in He1; lia).
  rewrite Hkk in Hm2.
  assert (Hm2lo : n * 2 ^ w <= m2 * 2 ^ (Zdigits2 q - 53) /\
                  m2 * 2 ^ (Zdigits2 q - 53) < (n + 1) * 2 ^ w /\ 0 < m2).
  { destruct Hdq as [E|E]; rewrite E in *.
    - change (2 ^ (53 - 53)) with 1 in *. rewrite Z.div_1_r in Hm2. lia.
    - change (2 ^ (54 - 53)) with 2 in *.
      assert (Heven : (n * 2 ^ w) = 2 * (n * 2 ^ (w - 1))).
      { replace w with (1 + (w - 1)) at 1 by lia.
        rewrite Z.pow_add_r by (unfold w; lia). change (2 ^ 1) with 2. ring. }
      pose proof (Z.mul_div_le q 2 ltac:(lia)).
      pose proof (Z.mul_succ_div_gt q 2 ltac:(lia)).
      assert (n * 2 ^ (w - 1) <= q / 2).
      { apply Z.div_le_lower_bound; lia. }
      lia. }
  destruct Hm2lo as (Hlo2 & Hhi2 & Hm2pos).
  assert (Hewb : - ebias <= e1 /\ e1 + 1 <= 971) by (unfold ebias; lia).
  assert (Hfin : exists m' e', finalize false m2 e1 = S754_finite false m' e').
  { unfold finalize.
    destruct (Z.eqb_spec m2 0); [lia|].
    destruct (Z.eqb_spec m2 (2 ^ 53)).
    - destruct (Z.leb_spec (e1 + 1) 971); [eauto | lia].
    - destruct (Z.leb_spec e1 971); [eauto | lia]. }
  split; [apply finalize_valid; lia|].
  destruct Hfin as (m' & e' & Efin).
  split; [rewrite Efin; exact I|]. split; [rewrite Efin; discriminate|].
  rewrite finalize_finite; try lia.
  - cbn [cond_Zopp]. unfold units.
    assert (Ee : 2 ^ (e1 + ebias)
                 = 2 ^ (Zdigits2 q - 53) * 2 ^ (ebias - w)).
    { rewrite <- Z.pow_add_r by (unfold ebias, w; lia). f_equal. lia. }
    assert (Eb : 2 ^ ebias = 2 ^ w * 2 ^ (ebias - w)).
    { rewrite <- Z.pow_add_r by (unfold ebias, w; lia). f_equal. lia. }
    assert (Hr : 0 < 2 ^ (ebias - w)) by (apply pow2_pos; unfold ebias, w; lia).
    rewrite Ee, Eb, !Z.mul_assoc. split.
    + apply Z.mul_le_mono_nonneg_r; lia.
    + apply Z.mul_lt_mono_pos_r; lia.
  - apply Z.le_lt_trans with (2 ^ 53 * 2 ^ (e1 + ebias)).
    + apply Z.mul_le_mono_nonneg_r; [apply Z.pow_nonneg; lia | lia].
    + rewrite <- Z.pow_add_r by lia. apply Z.pow_lt_mono_r; lia.
Qed.

Lemma daysSince_whole a b :
  0 <= b <= a -> a < 2 ^ 53 -> a - b < 2 ^ 52 ->
  daysSince (number_of_Z a) (number_of_Z b) = number_of_Z ((a - b) / 86400000).
Proof.
  intros Hab Ha Hd. unfold daysSince. rewrite fsub_whole by assumption.
  destruct (Z.eq_dec (a - b) 0) as [->|Hne]; [reflexivity|].
  destruct (fdiv_day (a - b) ltac:(lia)) as (Hv & Hf & Hz & Hb).
  apply Math_floor_between; try assumption.
  split; [apply Z.div_pos; lia|].
  apply Z.le_lt_trans with (a - b).
  - apply Z.div_le_upper_bound; lia.
  - apply Z.lt_trans with (2 ^ 52); [lia | reflexivity].
Qed.

Lemma daysSince_nan_then x : daysSince x NaN = NaN.
Proof. unfold daysSince. destruct x; reflexivity. Qed.

Lemma daysSince_nan_now y : daysSince NaN y = NaN.
Proof. unfold daysSince. destruct y; reflexivity. Qed.

Example days_values :
  daysSince (number_of_Z 1714550400000) (number_of_Z 1714464000001) = number_of_Z 0 /\
  daysSince (number_of_Z 1714550400000) (number_of_Z 1714464000000) = number_of_Z 1.
Proof. split; vm_compute; reflexivity. Qed.

Lemma fsub_whole_neg a b :
  0 <= a < b -> b < 2 ^ 53 ->
  exists m e,
    fsub (number_of_Z a) (number_of_Z b) = S754_finite true m e /\
    valid64 (S754_finite true m e) = true /\
    ulps (S754_finite true m e) = units (a - b).
Proof.
  intros Hab Hb. pose proof ebias_pow_pos as Hpe.
  destruct (number_of_Z_exact b ltac:(lia)) as (my & ey & Eb & Hvb & Hub).
  rewrite Eb in *.
  destruct (Z.eq_dec a 0) as [->|Ha0].
  { exists my, ey. split; [reflexivity|]. split; [exact Hvb|].
    cbn [ulps cond_Zopp] in Hub |- *. rewrite Hub. unfold units. ring. }
  destruct (number_of_Z_exact a ltac:(lia)) as (mx & ex & Ea & Hva & Hua).
  rewrite Ea in *.
  destruct (valid_finite_bounds _ _ _ Hva) as (Hex & _).
  destruct (valid_finite_bounds _ _ _ Hvb) as (Hey & _).
  destruct (fsub_aligned mx ex my ey) as (M & -> & HM); try lia.
  rewrite Hua, Hub in HM.
  assert (HMu : M * 2 ^ (Z.min ex ey + ebias) = units (a - b))
    by (rewrite HM; unfold units; ring).
  assert (Hp : 0 < 2 ^ (Z.min ex ey + ebias)) by (apply pow2_pos; lia).
  assert (HMneg : M < 0) by (unfold units in HMu; nia).
  destruct M as [|M|M]; try lia.
  change (binary_normalize prec emax (Z.neg M) (Z.min ex ey) false)
    with (binary_round prec emax true M (Z.min ex ey)).
  assert (HMu' : Z.pos M * 2 ^ (Z.min ex ey + ebias) = units (b - a)).
  { unfold units in HMu |- *. lia. }
  destruct (binary_round_exact true M (Z.min ex ey) 0) as [Hv Hu].
  - lia.
  - unfold ebias; lia.
  - rewrite HMu'. apply Z.divide_factor_r.
  - rewrite HMu'. replace (53 + 0 + ebias) with (53 + ebias) by lia.
    rewrite <- (units_pow 53) by lia. apply (proj1 (units_lt _ _)). lia.
  - rewrite HMu'. rewrite <- (units_pow 1024) by lia. apply (proj1 (units_lt _ _)).
    apply Z.lt_trans with (2 ^ 53); [lia | reflexivity].
  - cbn [cond_Zopp] in Hu. rewrite HMu' in Hu.
    pose proof (binary_round_signed true M (Z.min ex ey)) as Hs.
    assert (Hneg : ulps (binary_round prec emax true M (Z.min ex ey)) < 0).
    { rewrite Hu. unfold units. nia. }
    destruct (binary_round prec emax true M (Z.min ex ey)) as [s|s| |s m e];
      cbn [ulps] in Hneg; try lia.
    cbn [signed] in Hs. subst s.
    exists m, e. split; [reflexivity|]. split; [assumption|].
    rewrite Hu. unfold units. ring.
Qed.

Lemma fdiv_day_negative m e :
  valid64 (S754_finite true m e) = true ->
  ulps (S754_finite true m e) <= - units 1 ->
  signed true (fdiv (S754_finite true m e) msPerDay).
Proof.
  intros Hv Hu. pose proof ebias_pow_pos as Hpe.
  destruct (valid_finite_bounds _ _ _ Hv) as (He & Hm & Hn).
  cbn [ulps cond_Zopp] in Hu. unfold units in Hu.
  assert (Hm52 : 2 ^ 52 <= Z.pos m).
  { destruct Hn as [->|]; [|assumption].
    replace (- ebias + ebias) with 0 in Hu by lia. change (2 ^ 0) with 1 in Hu.
    assert (2 ^ 53 < 2 ^ ebias) by (apply Z.pow_lt_mono_r; unfold ebias; lia).
    lia. }
  assert (He53 : - 53 < e).
  { destruct (Z_lt_le_dec (- 53) e) as [|Hle]; [assumption|exfalso].
    assert (Z.pos m * 2 ^ (e + ebias) < 2 ^ 53 * 2 ^ (e + ebias)).
    { apply Z.mul_lt_mono_pos_r; [apply pow2_pos; lia | assumption]. }
    rewrite <- Z.pow_add_r in H by lia.
    assert (2 ^ (53 + (e + ebias)) <= 2 ^ ebias) by (apply Z.pow_le_mono_r; lia).
    lia. }
  assert (Hdig : Zdigits2 (Z.pos m) = 53) by (apply digits_unique; lia).
  change (fdiv (S754_finite true m e) msPerDay)
    with (let '(mz, ez, lz) :=
            SFdiv_core_binary prec emax (Z.pos m) e msPerDay_mantissa (-26) in
          binary_round_aux prec emax true mz ez lz).
  rewrite (div_core_day m e Hdig ltac:(lia)).
  set (q := (Z.pos m * 2 ^ 53) / msPerDay_mantissa).
  assert (Hq52 : 2 ^ 52 <= q).
  { unfold q. apply Z.div_le_lower_bound; [reflexivity|].
    apply Z.le_trans with (2 ^ 53 * 2 ^ 52).
    - apply Z.mul_le_mono_nonneg_r; [lia|]. vm_compute. discriminate.
    - rewrite Z.mul_comm. apply Z.mul_le_mono_nonneg_r; lia. }
  assert (Hdq : 53 <= Zdigits2 q).
  { assert (Zdigits2 (2 ^ 52) <= Zdigits2 q) by (apply digits_le; lia).
    change (Zdigits2 (2 ^ 52)) with 53 in *. lia. }
  destruct (binary_round_aux_shape true q (e - 27)
              (new_location msPerDay_mantissa ((Z.pos m * 2 ^ 53) mod msPerDay_mantissa))
              ltac:(lia)) as (m2 & Hm2 & _ & _ & _ & _ & ->).
  { unfold fexp64, ebias. lia. }
  apply finalize_signed.
  cbv zeta in Hm2.
  apply Z.le_trans with (2 := proj1 Hm2). apply Z.div_pos; [lia|].
  apply pow2_pos. unfold fexp64, ebias. lia.
Qed.

Lemma Math_floor_negative v :
  signed true v -> gtb (Math_floor v) zero = false.
Proof.
  destruct v as [s|s| |s m e]; cbn [signed]; try contradiction; intros ->;
    try reflexivity.
  cbn [Math_floor]. destruct (Z.leb_spec 0 e) as [|He]; [reflexivity|].
  cbn [cond_Zopp].
  set (k := - Z.pos m / 2 ^ (- e)).
  assert (Hneg : k < 0).
  { apply Z.div_lt_upper_bound; [apply pow2_pos|]; lia. }
  pose proof (binary_normalize_neg k 0 true Hneg) as Hs.
  destruct (binary_normalize prec emax k 0 true) as [s|s| |s m' e'];
    cbn [signed] in Hs; try contradiction; subst; reflexivity.
Qed.

Lemma daysSince_backwards a b :
  0 <= a < b -> b < 2 ^ 53 ->
  gtb (daysSince (number_of_Z a) (number_of_Z b)) zero = false.
Proof.
  intros Hab Hb. unfold daysSince.
  destruct (fsub_whole_neg a b Hab Hb) as (m & e & -> & Hv & Hu).
  apply Math_floor_negative. apply fdiv_day_negative; [assumption|].
  rewrite Hu. pose proof ebias_pow_pos. unfold units. nia.
Qed.

(** X19. The number of days the mount effect computes is exact: for time
    values [b <= a] (milliseconds since the epoch, below 2^53, less than
    2^52 apart) it is the whole number [(a - b) / 86400000] rounded down.
    If the clock was set back ([a < b]) it is not above 0, and if either
    time value is NaN it is NaN. *)
Theorem days_since_last_open (a b : Z) :
  msPerDay = number_of_Z 86400000 /\
  (0 <= b <= a -> a < 2 ^ 53 -> a - b < 2 ^ 52 ->
   daysSince (number_of_Z a) (number_of_Z b) = number_of_Z ((a - b) / 86400000)) /\
  (0 <= a < b -> b < 2 ^ 53 ->
   gtb (daysSince (number_of_Z a) (number_of_Z b)) zero = false) /\
  (forall x : number, daysSince x NaN = NaN /\ daysSince NaN x = NaN).
Proof.
  split; [reflexivity|]. split; [apply daysSince_whole|].
  split; [apply daysSince_backwards|].
  intros x. split; [apply daysSince_nan_then | apply daysSince_nan_now].
Qed.

Lemma days_since_last_open_witness :
  0 <= 1714464000000 <= 1714723199999 /\ 1714723199999 < 2 ^ 53 /\
  1714723199999 - 1714464000000 < 2 ^ 52 /\
  daysSince (number_of_Z 1714723199999) (number_of_Z 1714464000000) = number_of_Z 2.
Proof.
  assert (H1 : 0 <= 1714464000000 <= 1714723199999) by lia.
  assert (H2 : 1714723199999 < 2 ^ 53) by reflexivity.
  assert (H3 : 1714723199999 - 1714464000000 < 2 ^ 52) by reflexivity.
  split; [exact H1|]. split; [exact H2|]. split; [exact H3|].
  exact (proj1 (proj2 (days_since_last_open 1714723199999 1714464000000)) H1 H2 H3).
Defined.

(** X20. The mount effect decays by whole elapsed days: run on a state with
    a last opening on record and with time values [b <= a] as above, it
    leaves the decay of the fatigue for [(a - b) / 86400000] days.  So a run
    less than 24 hours after the recorded opening changes no score, and one
    six days or more after it clears a well-formed state.  In each case the
    effect records the new opening and keeps the history. *)
Theorem mount_effect_decay (nowISO : string) (a b : Z) (st : AppState) :
  0 <= b <= a -> a < 2 ^ 53 -> a - b < 2 ^ 52 ->
  (lastOpenISO st <> None ->
   fatigue (mountEffect nowISO (number_of_Z a) (number_of_Z b) st)
   = decay (number_of_Z ((a - b) / 86400000)) (fatigue st)) /\
  (a - b < 86400000 ->
   fatigue (mountEffect nowISO (number_of_Z a) (number_of_Z b) st) = fatigue st) /\
  (well_formed (fatigue st) -> lastOpenISO st <> None -> 6 * 86400000 <= a - b ->
   fatigue (mountEffect nowISO (number_of_Z a) (number_of_Z b) st) = initFatigue) /\
  lastOpenISO (mountEffect nowISO (number_of_Z a) (number_of_Z b) st) = Some nowISO /\
  history (mountEffect nowISO (number_of_Z a) (number_of_Z b) st) = history st.
Proof.
  intros Hab Ha Hd.
  assert (E : lastOpenISO st <> None ->
              fatigue (mountEffect nowISO (number_of_Z a) (number_of_Z b) st)
              = decay (number_of_Z ((a - b) / 86400000)) (fatigue st)).
  { intros Hl. unfold mountEffect, onOpen.
    destruct (lastOpenISO st); [|contradiction].
    cbn [fatigue]. rewrite daysSince_whole by assumption. reflexivity. }
  split; [exact E|]. split; [|split; [|split]].
  - intros Hlt. destruct (lastOpenISO st) eqn:El.
    + rewrite E by discriminate.
      rewrite Z.div_small by lia. reflexivity.
    + unfold mountEffect, onOpen. rewrite El. reflexivity.
  - intros Hwf Hl H6. rewrite (E Hl).
    apply decay_clears; [assumption|].
    apply Z.div_le_lower_bound; lia.
  - unfold mountEffect, onOpen. destruct (lastOpenISO st); reflexivity.
  - unfold mountEffect, onOpen. destruct (lastOpenISO st); reflexivity.
Qed.

Lemma mount_effect_decay_witness :
  let st := {| fatigue := chest50; history := []; lastOpenISO := Some "t0"%string |} in
  0 <= 1714464000000 <= 1714723199999 /\ 1714723199999 < 2 ^ 53 /\
  1714723199999 - 1714464000000 < 2 ^ 52 /\
  lastOpenISO st <> None /\
  fatigue (mountEffect "t1" (number_of_Z 1714723199999) (number_of_Z 1714464000000) st)
  = decay (number_of_Z 2) chest50.
Proof.
  intros st.
  assert (H1 : 0 <= 1714464000000 <= 1714723199999) by lia.
  assert (H2 : 1714723199999 < 2 ^ 53) by reflexivity.
  assert (H3 : 1714723199999 - 1714464000000 < 2 ^ 52) by reflexivity.
  assert (H4 : lastOpenISO st <> None) by discriminate.
  split; [exact H1|]. split; [exact H2|]. split; [exact H3|]. split; [exact H4|].
  exact (proj1 (mount_effect_decay "t1" 1714723199999 1714464000000 st H1 H2 H3) H4).
Defined.

(** X21. The mount effect decays nothing when there is no last opening on
    record, when the recorded date is not a date (its time value is NaN),
    or when the clock was set back since the last opening. *)
Theorem mount_effect_no_decay (nowISO : string) (st : AppState) :
  (lastOpenISO st = None ->
   forall nowMs thenMs : number,
     fatigue (mountEffect nowISO nowMs thenMs st) = fatigue st) /\
  (forall nowMs : number, fatigue (mountEffect nowISO nowMs NaN st) = fatigue st) /\
  (forall a b : Z, 0 <= a < b -> b < 2 ^ 53 ->
     fatigue (mountEffect nowISO (number_of_Z a) (number_of_Z b) st) = fatigue st).
Proof.
  split; [|split].
  - intros El nowMs thenMs. unfold mountEffect, onOpen. rewrite El. reflexivity.
  - intros nowMs. unfold mountEffect, onOpen.
    destruct (lastOpenISO st); [|reflexivity].
    cbn [fatigue]. rewrite daysSince_nan_then. reflexivity.
  - intros a b Hab Hb. unfold mountEffect, onOpen.
    destruct (lastOpenISO st); [|reflexivity].
    cbn [fatigue]. unfold decay, decayIfDue.
    rewrite daysSince_backwards by assumption. reflexivity.
Qed.

Lemma mount_effect_no_decay_witness :
  let st := {| fatigue := chest50; history := []; lastOpenISO := Some "t0"%string |} in
  0 <= 1714464000000 < 1714723199999 /\ 1714723199999 < 2 ^ 53 /\
  fatigue (mountEffect "t1" (number_of_Z 1714464000000) (number_of_Z 1714723199999) st)
  = chest50.
Proof.
  intros st.
  assert (H1 : 0 <= 1714464000000 < 1714723199999) by lia.
  assert (H2 : 1714723199999 < 2 ^ 53) by reflexivity.
  split; [exact H1|]. split; [exact H2|].
  exact (proj2 (proj2 (mount_effect_no_decay "t1" st)) _ _ H1 H2).
Defined.
